(** * Hackflight: stabilisation PID and arming state machine

    A shallow embedding of
    - [stabilize.cpp]   (class [Stabilize], 16/32-bit integer PID),
    - [stabilizer.hpp]  (class [hf::Stabilizer], [float] PID),
    - [sim.hpp]         (class [hf::Controller], the simulator receiver),
    - [hackflight.cpp]  ([Hackflight::update], the arming state machine),
    followed by the properties checked against the design document.

    Conventions.  An object is a record, a member function takes the object
    and returns the object it leaves (and its result, if any).  An array is
    a list read with [!!!] and written with [<[i := v]>]; the properties
    assume the declared lengths ([sized]).  Integers are modelled exactly,
    with their wrap-around; [float]s are modelled by rationals.  What the
    code reads from classes that are not among the sources (board, receiver,
    IMU, timed tasks, configuration constants) is an input or a parameter.
    The properties of the loop hold from any state; those that start from
    [setup] say so. *)

From Stdlib Require Import ZArith QArith Qabs Lia Lqa Bool.
From stdpp Require Import base list.

#[local] Open Scope Z_scope.

(** ** Machine integers

    Values of the C types [uint8_t], [int16_t] and [int32_t] are integers of
    [Z]; a signed operation of width [w] is the exact operation followed by
    [wrap w], a conversion to [uint8_t] reduces modulo 256.
    On the targets of this firmware [int] is 32 bits wide, so every
    arithmetic expression of [stabilize.cpp] (after the integer promotions)
    is a 32-bit one. *)

Definition wrap (w z : Z) : Z := (z + 2 ^ (w - 1)) mod 2 ^ w - 2 ^ (w - 1).

Definition uint8_t (z : Z) : Z := z mod 2 ^ 8.
Definition int16_t (z : Z) : Z := wrap 16 z.
Definition int32_t (z : Z) : Z := wrap 32 z.

Definition in_int16 (z : Z) : Prop := - 2 ^ 15 <= z < 2 ^ 15.
Definition in_int32 (z : Z) : Prop := - 2 ^ 31 <= z < 2 ^ 31.

Module I32.
Definition add (a b : Z) : Z := int32_t (a + b).
Definition sub (a b : Z) : Z := int32_t (a - b).
Definition mul (a b : Z) : Z := int32_t (a * b).
Definition neg (a : Z) : Z := int32_t (- a).
(** [/] of C truncates towards zero.  A division by zero, undefined in C,
    has the value 0 of [Z.quot]; the divisors of [stabilize.cpp] are the
    constants 125, 100, 500, 10, 8, 32 and the gain [rate_p[axis]]. *)
Definition div (a b : Z) : Z := int32_t (Z.quot a b).
(** [>>] on a signed operand: the arithmetic shift of the compilers used. *)
Definition shr (a n : Z) : Z := Z.shiftr a n.
(** [abs] and [max] on [int]. *)
Definition abs (a : Z) : Z := int32_t (Z.abs a).
Definition max (a b : Z) : Z := if a >? b then a else b.
End I32.

(** The macro of [stabilize.cpp]:
    [#define constrain(val, lo, hi) (val) < (lo) ? lo : ((val) > hi ? hi : val)].
    Its expansion is not parenthesised as a whole: this function is the
    expansion standing alone as the right-hand side of an assignment. *)
Definition constrain (val lo hi : Z) : Z :=
  if val <? lo then lo else if val >? hi then hi else val.

(** Axis numbers ([enum] of [stabilizer.hpp], shared with the [Hackflight]
    class) and the indices of the demands in [rcCommand]. *)
Definition AXIS_ROLL : nat := 0.
Definition AXIS_PITCH : nat := 1.
Definition AXIS_YAW : nat := 2.

(** Modelled from the spec: the header that numbers the demands is not among
    the sources; the loop of [Stabilize::update] reads [rcCommand[axis]], so
    roll, pitch and yaw sit at the indices of their axes and the throttle,
    "tracked separately and excluded from the control law", comes last. *)
Definition DEMAND_ROLL : nat := 0.
Definition DEMAND_PITCH : nat := 1.
Definition DEMAND_YAW : nat := 2.
Definition DEMAND_THROTTLE : nat := 3.

(** ** [stabilize.cpp]: the fixed-point controller *)

Module Stabilize.

(** The [CONFIG_*] constants come from a configuration header that is not
    among the sources: they are a parameter of the model. *)
Record Config : Type := {
  CONFIG_RATE_PITCHROLL_P : Z;
  CONFIG_RATE_PITCHROLL_I : Z;
  CONFIG_RATE_PITCHROLL_D : Z;
  CONFIG_YAW_P : Z;
  CONFIG_YAW_I : Z;
  CONFIG_LEVEL_P : Z;
  CONFIG_LEVEL_I : Z;
  CONFIG_MAX_ANGLE_INCLINATION : Z
}.

(** The members of the class.  Their declarations are in [hackflight.hpp];
    the widths are those of the baseflight code the file is adapted from:
    8-bit gains, [int16_t lastGyro] and [axisPID], 32-bit accumulators. *)
Record t : Type := {
  rate_p : list Z;
  rate_i : list Z;
  rate_d : list Z;
  lastGyro : list Z;
  delta1 : list Z;
  delta2 : list Z;
  errorGyroI : list Z;
  errorAngleI : list Z;
  axisPID : list Z
}.

Definition set_lastGyro v (s : t) : t :=
  {| rate_p := rate_p s; rate_i := rate_i s; rate_d := rate_d s;
     lastGyro := v; delta1 := delta1 s; delta2 := delta2 s;
     errorGyroI := errorGyroI s; errorAngleI := errorAngleI s;
     axisPID := axisPID s |}.
Definition set_delta1 v (s : t) : t :=
  {| rate_p := rate_p s; rate_i := rate_i s; rate_d := rate_d s;
     lastGyro := lastGyro s; delta1 := v; delta2 := delta2 s;
     errorGyroI := errorGyroI s; errorAngleI := errorAngleI s;
     axisPID := axisPID s |}.
Definition set_delta2 v (s : t) : t :=
  {| rate_p := rate_p s; rate_i := rate_i s; rate_d := rate_d s;
     lastGyro := lastGyro s; delta1 := delta1 s; delta2 := v;
     errorGyroI := errorGyroI s; errorAngleI := errorAngleI s;
     axisPID := axisPID s |}.
Definition set_errorGyroI v (s : t) : t :=
  {| rate_p := rate_p s; rate_i := rate_i s; rate_d := rate_d s;
     lastGyro := lastGyro s; delta1 := delta1 s; delta2 := delta2 s;
     errorGyroI := v; errorAngleI := errorAngleI s;
     axisPID := axisPID s |}.
Definition set_errorAngleI v (s : t) : t :=
  {| rate_p := rate_p s; rate_i := rate_i s; rate_d := rate_d s;
     lastGyro := lastGyro s; delta1 := delta1 s; delta2 := delta2 s;
     errorGyroI := errorGyroI s; errorAngleI := v;
     axisPID := axisPID s |}.
Definition set_axisPID v (s : t) : t :=
  {| rate_p := rate_p s; rate_i := rate_i s; rate_d := rate_d s;
     lastGyro := lastGyro s; delta1 := delta1 s; delta2 := delta2 s;
     errorGyroI := errorGyroI s; errorAngleI := errorAngleI s;
     axisPID := v |}.

(** [void Stabilize::resetIntegral(void)] *)
Definition resetIntegral (s : t) : t :=
  let s := set_errorGyroI (<[AXIS_ROLL := 0]> (errorGyroI s)) s in
  let s := set_errorGyroI (<[AXIS_PITCH := 0]> (errorGyroI s)) s in
  let s := set_errorGyroI (<[AXIS_YAW := 0]> (errorGyroI s)) s in
  let s := set_errorAngleI (<[AXIS_ROLL := 0]> (errorAngleI s)) s in
  let s := set_errorAngleI (<[AXIS_PITCH := 0]> (errorAngleI s)) s in
  s.

(** The object before [init]: arrays of the declared sizes, of any
    contents. *)
Definition sized (s : t) : Prop :=
  length (rate_p s) = 3%nat /\ length (rate_i s) = 3%nat /\
  length (rate_d s) = 3%nat /\ length (lastGyro s) = 3%nat /\
  length (delta1 s) = 3%nat /\ length (delta2 s) = 3%nat /\
  length (errorGyroI s) = 3%nat /\ length (errorAngleI s) = 2%nat /\
  length (axisPID s) = 3%nat.

(** [void Stabilize::init(void)]: the loop over the three axes, the gains,
    then [resetIntegral]. *)
Definition init_axis (axis : nat) (s : t) : t :=
  let s := set_lastGyro (<[axis := 0]> (lastGyro s)) s in
  let s := set_delta1 (<[axis := 0]> (delta1 s)) s in
  let s := set_delta2 (<[axis := 0]> (delta2 s)) s in
  s.

Definition init (c : Config) (s : t) : t :=
  let s := fold_left (fun s axis => init_axis axis s) [0; 1; 2]%nat s in
  let s :=
    {| rate_p := <[2%nat := uint8_t (CONFIG_YAW_P c)]>
                   (<[1%nat := uint8_t (CONFIG_RATE_PITCHROLL_P c)]>
                      (<[0%nat := uint8_t (CONFIG_RATE_PITCHROLL_P c)]>
                         (rate_p s)));
       rate_i := <[2%nat := uint8_t (CONFIG_YAW_I c)]>
                   (<[1%nat := uint8_t (CONFIG_RATE_PITCHROLL_I c)]>
                      (<[0%nat := uint8_t (CONFIG_RATE_PITCHROLL_I c)]>
                         (rate_i s)));
       rate_d := <[2%nat := 0]>
                   (<[1%nat := uint8_t (CONFIG_RATE_PITCHROLL_D c)]>
                      (<[0%nat := uint8_t (CONFIG_RATE_PITCHROLL_D c)]>
                         (rate_d s)));
       lastGyro := lastGyro s; delta1 := delta1 s; delta2 := delta2 s;
       errorGyroI := errorGyroI s; errorAngleI := errorAngleI s;
       axisPID := axisPID s |} in
  resetIntegral s.

(** The configurations on which the C code is defined and the clamp of
    the angle error has an interval to clamp to: the divisors
    [rate_p[axis]] are not zero and the maximal inclination is a
    non-negative [int]. *)
Definition well_configured (c : Config) : Prop :=
  uint8_t (CONFIG_RATE_PITCHROLL_P c) <> 0
  /\ uint8_t (CONFIG_YAW_P c) <> 0
  /\ 0 <= CONFIG_MAX_ANGLE_INCLINATION c < 2 ^ 31.

(** The object [init] leaves: the gains of the configuration, zero
    history and accumulators, and [axisPID] as it was. *)
Definition initialised (c : Config) (pid : list Z) : t :=
  {| rate_p := [uint8_t (CONFIG_RATE_PITCHROLL_P c);
                uint8_t (CONFIG_RATE_PITCHROLL_P c);
                uint8_t (CONFIG_YAW_P c)];
     rate_i := [uint8_t (CONFIG_RATE_PITCHROLL_I c);
                uint8_t (CONFIG_RATE_PITCHROLL_I c);
                uint8_t (CONFIG_YAW_I c)];
     rate_d := [uint8_t (CONFIG_RATE_PITCHROLL_D c);
                uint8_t (CONFIG_RATE_PITCHROLL_D c); 0];
     lastGyro := [0; 0; 0]; delta1 := [0; 0; 0]; delta2 := [0; 0; 0];
     errorGyroI := [0; 0; 0]; errorAngleI := [0; 0];
     axisPID := pid |}.

(** The blend of lines 80 and 81:
    [(acc * (500 - prop) + gyro * prop) / 500]. *)
Definition blend (acc gyro prop : Z) : Z :=
  I32.div (I32.add (I32.mul acc (I32.sub 500 prop)) (I32.mul gyro prop)) 500.

(** [prop = max(abs(rcCommand[DEMAND_PITCH]), abs(rcCommand[DEMAND_ROLL]))] *)
Definition prop_of (rcCommand : list Z) : Z :=
  I32.max (I32.abs (rcCommand !!! DEMAND_PITCH))
          (I32.abs (rcCommand !!! DEMAND_ROLL)).

(** [errorAngle] of line 67.  The macro expands to
    [(2*rc) < (-MAX) ? -MAX : ((2*rc) > +MAX ? +MAX : 2*rc) - angle[axis]]
    and the conditional operator binds weaker than the subtraction: the
    angle is subtracted in the second branch only. *)
Definition errorAngle_of (c : Config) (rc angle : Z) : Z :=
  let val := I32.mul 2 rc in
  let hi := CONFIG_MAX_ANGLE_INCLINATION c in
  let lo := I32.neg hi in
  if val <? lo then lo
  else I32.sub (if val >? hi then hi else val) angle.

(** The local variables of one turn of the loop that the properties speak
    about. *)
Record locals : Type := {
  l_error : Z;
  l_PTermGYRO : Z;
  l_ITermGYRO : Z;
  l_PTermACC : Z;
  l_ITermACC : Z;
  l_prop : Z;
  l_PTerm : Z;       (* after the blend, before the gyro is subtracted *)
  l_ITerm : Z;
  l_DTerm : Z
}.

(** One turn of [for (axis = 0; axis < 3; axis++)]. *)
Definition update_axis (c : Config) (rcCommand gyroADC angle : list Z)
    (axis : nat) (s : t) : t * locals :=
  let rc := rcCommand !!! axis in
  let gyro := gyroADC !!! axis in
  let error := I32.div (I32.mul (I32.mul rc 10) 8) (rate_p s !!! axis) in
  let error := I32.sub error gyro in
  let PTermGYRO := rc in
  let s := set_errorGyroI
             (<[axis := constrain (I32.add (errorGyroI s !!! axis) error)
                                  (-16000) 16000]> (errorGyroI s)) s in
  let s := if (I32.abs gyro >? 640)
              || ((axis =? AXIS_YAW)%nat && (I32.abs rc >? 100))
           then set_errorGyroI (<[axis := 0]> (errorGyroI s)) s
           else s in
  let ITermGYRO :=
    I32.shr (I32.mul (I32.div (errorGyroI s !!! axis) 125)
                     (rate_i s !!! axis)) 6 in
  let PTerm := PTermGYRO in
  let ITerm := ITermGYRO in
  let '(s, PTermACC, ITermACC, prop, PTerm, ITerm) :=
    if (axis <? 2)%nat then
      let errorAngle := errorAngle_of c rc (angle !!! axis) in
      let PTermACC := I32.div (I32.mul errorAngle (CONFIG_LEVEL_P c)) 100 in
      let s := set_errorAngleI
                 (<[axis := constrain
                              (I32.add (errorAngleI s !!! axis) errorAngle)
                              (-10000) 10000]> (errorAngleI s)) s in
      let ITermACC :=
        I32.shr (I32.mul (errorAngleI s !!! axis) (CONFIG_LEVEL_I c)) 12 in
      let prop := prop_of rcCommand in
      (s, PTermACC, ITermACC, prop,
       blend PTermACC PTermGYRO prop, blend ITermACC ITermGYRO prop)
    else (s, 0, 0, 0, PTerm, ITerm) in
  let PTerm' :=
    I32.sub PTerm
      (I32.div (I32.div (I32.mul gyro (rate_p s !!! axis)) 10) 8) in
  let delta := I32.sub gyro (lastGyro s !!! axis) in
  let s := set_lastGyro (<[axis := gyro]> (lastGyro s)) s in
  let deltaSum := I32.add (I32.add (delta1 s !!! axis) (delta2 s !!! axis))
                          delta in
  let s := set_delta2 (<[axis := delta1 s !!! axis]> (delta2 s)) s in
  let s := set_delta1 (<[axis := delta]> (delta1 s)) s in
  let DTerm := I32.div (I32.mul deltaSum (rate_d s !!! axis)) 32 in
  let s := set_axisPID
             (<[axis := int16_t (I32.sub (I32.add PTerm' ITerm) DTerm)]>
                (axisPID s)) s in
  (s, {| l_error := error; l_PTermGYRO := PTermGYRO;
         l_ITermGYRO := ITermGYRO; l_PTermACC := PTermACC;
         l_ITermACC := ITermACC; l_prop := prop; l_PTerm := PTerm;
         l_ITerm := ITerm; l_DTerm := DTerm |}).

(** The last statement of [update]: the yaw clamp, with the bounds
    [-100 - abs(rcCommand[DEMAND_YAW])] and [+100 + abs(...)]. *)
Definition yaw_clamp (rcCommand : list Z) (s : t) : t :=
  let a := I32.abs (rcCommand !!! DEMAND_YAW) in
  set_axisPID
    (<[AXIS_YAW := int16_t (constrain (axisPID s !!! AXIS_YAW)
                                      (I32.sub (-100) a) (I32.add 100 a))]>
       (axisPID s)) s.

(** [void Stabilize::update(int16_t rcCommand[4], int16_t gyroADC[3],
    int16_t angle[3])] *)
Definition update (c : Config) (rcCommand gyroADC angle : list Z) (s : t)
    : t :=
  let s := fold_left
             (fun s axis => fst (update_axis c rcCommand gyroADC angle axis s))
             [0; 1; 2]%nat s in
  yaw_clamp rcCommand s.

(** The public interface after [init], as the calls a client can make,
    and the state a sequence of calls leaves. *)
Inductive call : Type :=
| Update (rcCommand gyroADC angle : list Z)
| ResetIntegral.

Definition step (c : Config) (s : t) (k : call) : t :=
  match k with
  | Update rcCommand gyroADC angle => update c rcCommand gyroADC angle s
  | ResetIntegral => resetIntegral s
  end.

Definition run (c : Config) (ks : list call) (s : t) : t :=
  fold_left (step c) ks s.

End Stabilize.

(** ** [stabilizer.hpp]: the floating-point controller

    A [float] is modelled by the rational it denotes and the operations by
    the exact ones: rounding, infinities and NaN are outside this model. *)

#[local] Open Scope Q_scope.

#[global] Instance Q_inhabited : Inhabited Q := populate 0.

(** [a > b] and [a < b] on numbers. *)
Definition Qgtb (a b : Q) : bool := negb (Qle_bool a b).
Definition Qltb (a b : Q) : bool := Qgtb b a.

Module Filter.

(** Modelled from the spec: [filter.hpp] is not among the sources.  [max]
    is the larger of two numbers. *)
Definition max (a b : Q) : Q := if Qgtb a b then a else b.

(** Modelled from the spec: [filter.hpp] is not among the sources.  The
    clamp of a value to [[lo, hi]] ("clamp to [-windupBound,
    +windupBound]"). *)
Definition constrainMinMax (val lo hi : Q) : Q :=
  if Qltb val lo then lo else if Qgtb val hi then hi else val.

(** Modelled from the spec: [filter.hpp] is not among the sources. *)
Definition constrainAbs (val max : Q) : Q := constrainMinMax val (- max) max.

(** Modelled from the spec: [filter.hpp] is not among the sources.  The
    "weighted complementary blend", weighted [c] towards [a] and [1 - c]
    towards [b]; the caller passes the rate term for [a], the
    angle-error term for [b] and the proportion for [c]. *)
Definition complementary (a b c : Q) : Q := a * c + b * (1 - c).

End Filter.

Module Stabilizer.

(** Modelled from the spec: [datatypes.hpp] is not among the sources; the
    demands the controller corrects are "three scalars (roll, pitch,
    yaw)". *)
Record demands_t : Type := { roll : Q; pitch : Q; yaw : Q }.

Definition set_roll v (d : demands_t) : demands_t :=
  {| roll := v; pitch := pitch d; yaw := yaw d |}.
Definition set_pitch v (d : demands_t) : demands_t :=
  {| roll := roll d; pitch := v; yaw := yaw d |}.
Definition set_yaw v (d : demands_t) : demands_t :=
  {| roll := roll d; pitch := pitch d; yaw := v |}.

(** The data members; the four [const float] thresholds are the
    definitions below. *)
Record t : Type := {
  _levelP : Q;
  _gyroCyclicP : Q;
  _gyroCyclicI : Q;
  _gyroCyclicD : Q;
  _gyroYawP : Q;
  _gyroYawI : Q;
  lastGyro : list Q;      (* float lastGyro[2] *)
  gyroDelta1 : list Q;    (* float gyroDelta1[2] *)
  gyroDelta2 : list Q;    (* float gyroDelta2[2] *)
  errorGyroI : list Q;    (* float errorGyroI[3] *)
  bigGyroRate : Q;
  maxArmingAngle : Q
}.

(** The four [const float] members.  16, 40 and 25 are floats; [0.1f] is
    the float nearest to one tenth, 13421773 / 2^27, a little above it. *)
Definition gyroWindupMax : Q := 16.
Definition bigGyroDegreesPerSecond : Q := 40.
Definition bigYawDemand : Q := 13421773 # 134217728.
Definition maxArmingAngleDegrees : Q := 25.

Definition set_lastGyro v (s : t) : t :=
  {| _levelP := _levelP s; _gyroCyclicP := _gyroCyclicP s;
     _gyroCyclicI := _gyroCyclicI s; _gyroCyclicD := _gyroCyclicD s;
     _gyroYawP := _gyroYawP s; _gyroYawI := _gyroYawI s;
     lastGyro := v; gyroDelta1 := gyroDelta1 s; gyroDelta2 := gyroDelta2 s;
     errorGyroI := errorGyroI s; bigGyroRate := bigGyroRate s;
     maxArmingAngle := maxArmingAngle s |}.
Definition set_gyroDelta1 v (s : t) : t :=
  {| _levelP := _levelP s; _gyroCyclicP := _gyroCyclicP s;
     _gyroCyclicI := _gyroCyclicI s; _gyroCyclicD := _gyroCyclicD s;
     _gyroYawP := _gyroYawP s; _gyroYawI := _gyroYawI s;
     lastGyro := lastGyro s; gyroDelta1 := v; gyroDelta2 := gyroDelta2 s;
     errorGyroI := errorGyroI s; bigGyroRate := bigGyroRate s;
     maxArmingAngle := maxArmingAngle s |}.
Definition set_gyroDelta2 v (s : t) : t :=
  {| _levelP := _levelP s; _gyroCyclicP := _gyroCyclicP s;
     _gyroCyclicI := _gyroCyclicI s; _gyroCyclicD := _gyroCyclicD s;
     _gyroYawP := _gyroYawP s; _gyroYawI := _gyroYawI s;
     lastGyro := lastGyro s; gyroDelta1 := gyroDelta1 s; gyroDelta2 := v;
     errorGyroI := errorGyroI s; bigGyroRate := bigGyroRate s;
     maxArmingAngle := maxArmingAngle s |}.
Definition set_errorGyroI v (s : t) : t :=
  {| _levelP := _levelP s; _gyroCyclicP := _gyroCyclicP s;
     _gyroCyclicI := _gyroCyclicI s; _gyroCyclicD := _gyroCyclicD s;
     _gyroYawP := _gyroYawP s; _gyroYawI := _gyroYawI s;
     lastGyro := lastGyro s; gyroDelta1 := gyroDelta1 s;
     gyroDelta2 := gyroDelta2 s;
     errorGyroI := v; bigGyroRate := bigGyroRate s;
     maxArmingAngle := maxArmingAngle s |}.
Definition set_bigGyroRate v (s : t) : t :=
  {| _levelP := _levelP s; _gyroCyclicP := _gyroCyclicP s;
     _gyroCyclicI := _gyroCyclicI s; _gyroCyclicD := _gyroCyclicD s;
     _gyroYawP := _gyroYawP s; _gyroYawI := _gyroYawI s;
     lastGyro := lastGyro s; gyroDelta1 := gyroDelta1 s;
     gyroDelta2 := gyroDelta2 s;
     errorGyroI := errorGyroI s; bigGyroRate := v;
     maxArmingAngle := maxArmingAngle s |}.
Definition set_maxArmingAngle v (s : t) : t :=
  {| _levelP := _levelP s; _gyroCyclicP := _gyroCyclicP s;
     _gyroCyclicI := _gyroCyclicI s; _gyroCyclicD := _gyroCyclicD s;
     _gyroYawP := _gyroYawP s; _gyroYawI := _gyroYawI s;
     lastGyro := lastGyro s; gyroDelta1 := gyroDelta1 s;
     gyroDelta2 := gyroDelta2 s;
     errorGyroI := errorGyroI s; bigGyroRate := bigGyroRate s;
     maxArmingAngle := v |}.

(** The constructor stores the six gains; the other members keep what
    the storage [mem] of the object holds. *)
Definition Stabilizer (levelP gyroCyclicP gyroCyclicI gyroCyclicD gyroYawP
    gyroYawI : Q) (mem : t) : t :=
  {| _levelP := levelP; _gyroCyclicP := gyroCyclicP;
     _gyroCyclicI := gyroCyclicI; _gyroCyclicD := gyroCyclicD;
     _gyroYawP := gyroYawP; _gyroYawI := gyroYawI;
     lastGyro := lastGyro mem; gyroDelta1 := gyroDelta1 mem;
     gyroDelta2 := gyroDelta2 mem; errorGyroI := errorGyroI mem;
     bigGyroRate := bigGyroRate mem;
     maxArmingAngle := maxArmingAngle mem |}.

Definition sized (s : t) : Prop :=
  length (lastGyro s) = 2%nat /\ length (gyroDelta1 s) = 2%nat /\
  length (gyroDelta2 s) = 2%nat /\ length (errorGyroI s) = 3%nat.

(** [M_PI] as [math.h] writes it. *)
Definition M_PI : Q := 314159265358979323846 # 100000000000000000000.

Definition degreesToRadians (deg : Q) : Q := M_PI * deg / 180.

(** [float computeITermGyro(float rateP, float rateI, float rcCommand,
    float gyro[3], uint8_t axis)] *)
Definition computeITermGyro (rateP rateI rcCommand : Q) (gyro : list Q)
    (axis : nat) (s : t) : Q * t :=
  let error := rcCommand * rateP - gyro !!! axis in
  (* Avoid integral windup *)
  let s := set_errorGyroI
             (<[axis := Filter.constrainAbs (errorGyroI s !!! axis + error)
                                            gyroWindupMax]> (errorGyroI s))
             s in
  (* Reset integral on quick gyro change or large gyroYaw command *)
  let s := if Qgtb (Qabs (gyro !!! axis)) (bigGyroRate s)
              || ((axis =? AXIS_YAW)%nat
                  && Qgtb (Qabs rcCommand) bigYawDemand)
           then set_errorGyroI (<[axis := 0]> (errorGyroI s)) s
           else s in
  (errorGyroI s !!! axis * rateI, s).

(** [float computePid(float rateP, float PTerm, float ITerm, float DTerm,
    float gyro[3], uint8_t axis)] *)
Definition computePid (rateP PTerm ITerm DTerm : Q) (gyro : list Q)
    (axis : nat) : Q :=
  let PTerm := PTerm - gyro !!! axis * rateP in
  PTerm + ITerm - DTerm.

(** The proportional term of [computeCyclicPid] before [computePid]
    subtracts the gyro: [Filter::complementary(rcCommand, PTermEuler,
    prop)]. *)
Definition PTermEuler (rcCommand : Q) (eulerAngles : list Q) (imuAxis : nat)
    (s : t) : Q :=
  (rcCommand - eulerAngles !!! imuAxis) * _levelP s.

Definition cyclicPTerm (rcCommand prop : Q) (eulerAngles : list Q)
    (imuAxis : nat) (s : t) : Q :=
  Filter.complementary rcCommand (PTermEuler rcCommand eulerAngles imuAxis s)
                       prop.

(** [float computeCyclicPid(float rcCommand, float prop,
    float eulerAngles[3], float gyro[3], uint8_t imuAxis)] *)
Definition computeCyclicPid (rcCommand prop : Q) (eulerAngles gyro : list Q)
    (imuAxis : nat) (s : t) : Q * t :=
  let '(ITermGyro, s) :=
    computeITermGyro (_gyroCyclicP s) (_gyroCyclicI s) rcCommand gyro
                     imuAxis s in
  let PTerm := cyclicPTerm rcCommand prop eulerAngles imuAxis s in
  let ITerm := ITermGyro * prop in
  let gyroDelta := gyro !!! imuAxis - lastGyro s !!! imuAxis in
  let s := set_lastGyro (<[imuAxis := gyro !!! imuAxis]> (lastGyro s)) s in
  let gyroDeltaSum :=
    gyroDelta1 s !!! imuAxis + gyroDelta2 s !!! imuAxis + gyroDelta in
  let s := set_gyroDelta2
             (<[imuAxis := gyroDelta1 s !!! imuAxis]> (gyroDelta2 s)) s in
  let s := set_gyroDelta1 (<[imuAxis := gyroDelta]> (gyroDelta1 s)) s in
  let DTerm := gyroDeltaSum * _gyroCyclicD s in
  (computePid (_gyroCyclicP s) PTerm ITerm DTerm gyro imuAxis, s).

(** [float constrainCyclicDemand(float eulerAngle, float demand)] *)
Definition constrainCyclicDemand (eulerAngle demand : Q) (s : t) : Q :=
  demand * (1 - Qabs eulerAngle / maxArmingAngle s).

(** [void resetIntegral(void)] *)
Definition resetIntegral (s : t) : t :=
  let s := set_errorGyroI (<[AXIS_ROLL := 0]> (errorGyroI s)) s in
  let s := set_errorGyroI (<[AXIS_PITCH := 0]> (errorGyroI s)) s in
  let s := set_errorGyroI (<[AXIS_YAW := 0]> (errorGyroI s)) s in
  s.

(** [void init(void)] *)
Definition init_axis (axis : nat) (s : t) : t :=
  let s := set_lastGyro (<[axis := 0]> (lastGyro s)) s in
  let s := set_gyroDelta1 (<[axis := 0]> (gyroDelta1 s)) s in
  let s := set_gyroDelta2 (<[axis := 0]> (gyroDelta2 s)) s in
  s.

Definition init (s : t) : t :=
  (* Zero-out previous values for D term *)
  let s := fold_left (fun s axis => init_axis axis s) [0; 1]%nat s in
  (* Convert degree parameters to radians for use later *)
  let s := set_bigGyroRate (degreesToRadians bigGyroDegreesPerSecond) s in
  let s := set_maxArmingAngle (degreesToRadians maxArmingAngleDegrees) s in
  (* Initialize gyro error integral *)
  resetIntegral s.

(** The proportion of [updateDemands]:
    [Filter::max(fabs(demands.roll), fabs(demands.pitch)) / 0.5f]. *)
Definition prop_of (demands : demands_t) : Q :=
  Filter.max (Qabs (roll demands)) (Qabs (pitch demands)) / (1 # 2).

(** The proportion as the design document words it, for comparison:
    "[max(|demand.roll|, |demand.pitch|) / deadbandNorm], clamped to
    [0,1]", with the 0.5 of [updateDemands] for [deadbandNorm]. *)
Definition deadbandNorm : Q := 1 # 2.
Definition prop_clamped (demands : demands_t) : Q :=
  Filter.constrainMinMax
    (Filter.max (Qabs (roll demands)) (Qabs (pitch demands)) / deadbandNorm)
    0 1.

(** [void updateDemands(float eulerAngles[3], float gyroRates[3],
    demands_t & demands)]: [demands] is read and overwritten field by
    field, so each later line sees the fields already written. *)
Definition updateDemands (eulerAngles gyroRates : list Q)
    (demands : demands_t) (s : t) : demands_t * t :=
  (* Compute proportion of cyclic demand compared to its maximum *)
  let prop := prop_of demands in
  (* Pitch, roll use leveling based on Euler angles *)
  let '(r, s) := computeCyclicPid (roll demands) prop eulerAngles gyroRates
                                  AXIS_ROLL s in
  let demands := set_roll r demands in
  let '(p, s) := computeCyclicPid (pitch demands) prop eulerAngles gyroRates
                                  AXIS_PITCH s in
  let demands := set_pitch p demands in
  (* For gyroYaw, P term comes directly from RC command, and D term is
     zero *)
  let '(ITermGyroYaw, s) :=
    computeITermGyro (_gyroYawP s) (_gyroYawI s) (yaw demands) gyroRates
                     AXIS_YAW s in
  let demands :=
    set_yaw (computePid (_gyroYawP s) (yaw demands) ITermGyroYaw 0 gyroRates
                        AXIS_YAW) demands in
  (* Prevent "gyroYaw jump" during gyroYaw correction *)
  let demands :=
    set_yaw (Filter.constrainAbs (yaw demands)
                                 ((1 # 10) + Qabs (yaw demands))) demands in
  (demands, s).

(** The public interface after [init], as the calls a client can make,
    and the state a sequence of calls leaves. *)
Inductive call : Type :=
| UpdateDemands (eulerAngles gyroRates : list Q) (demands : demands_t)
| ResetIntegral.

Definition step (s : t) (k : call) : t :=
  match k with
  | UpdateDemands eulerAngles gyroRates demands =>
      snd (updateDemands eulerAngles gyroRates demands s)
  | ResetIntegral => resetIntegral s
  end.

Definition run (ks : list call) (s : t) : t := fold_left step ks s.

End Stabilizer.

(** ** [sim.hpp]: the simulator receiver *)

Module Sim.

(** The two virtual functions of [Receiver] that [Controller] overrides.
    A call returns its result and the receiver it leaves behind. *)
Class Receiver (R : Type) : Type := {
  arming : R -> bool * R;
  disarming : R -> bool * R
}.

Record Controller : Type := {
  rawvals : list Q;               (* inherited from Receiver *)
  _ready : bool;
  _reversedVerticals : bool;
  _springyThrottle : bool;
  _useButtonForAux : bool;
  _throttleDemand : Q;
  _axismap : list Z;
  _buttonmap : list Z;
  _joyid : Z;
  _buttonState : Z
}.

(** Modelled from the spec: [receiver.hpp] is not among the sources;
    [readRawvals] keeps the throttle in [rawvals[0]]. *)
Definition CHANNEL_THROTTLE : nat := 0.

Definition set_ready (v : bool) (c : Controller) : Controller :=
  {| rawvals := rawvals c; _ready := v;
     _reversedVerticals := _reversedVerticals c;
     _springyThrottle := _springyThrottle c;
     _useButtonForAux := _useButtonForAux c;
     _throttleDemand := _throttleDemand c; _axismap := _axismap c;
     _buttonmap := _buttonmap c; _joyid := _joyid c;
     _buttonState := _buttonState c |}.

(** [Controller(void)]: the members the constructor does not set keep
    what the storage [mem] holds. *)
Definition Controller_ (mem : Controller) : Controller :=
  {| rawvals := rawvals mem; _ready := false;
     _reversedVerticals := false; _springyThrottle := false;
     _useButtonForAux := false;
     _throttleDemand := _throttleDemand mem; _axismap := _axismap mem;
     _buttonmap := _buttonmap mem; _joyid := 0%Z;
     _buttonState := 0%Z |}.

(** [bool arming(void) override] *)
Definition Controller_arming (c : Controller) : bool * Controller :=
  let retval :=
    if _ready c then Qgtb (rawvals c !!! CHANNEL_THROTTLE) (1 # 10)
    else false in
  let c := set_ready true c in
  (retval, c).

(** [bool disarming(void) override] *)
Definition Controller_disarming (c : Controller) : bool * Controller :=
  (false, c).

#[global] Instance Controller_Receiver : Receiver Controller :=
  {| arming := Controller_arming; disarming := Controller_disarming |}.

(** What a caller can do with the controller: ask [arming], ask
    [disarming], or call [readRawvals].  The values [readRawvals] stores in
    [rawvals], [_throttleDemand] and [_buttonState] come from the operating
    system ([productPoll], implemented per OS): here they are arbitrary, an
    argument of the call. *)
Inductive call : Type :=
| Arming
| Disarming
| ReadRawvals (vals : list Q) (throttleDemand : Q) (buttonState : Z).

Definition step (k : call) (c : Controller) : option bool * Controller :=
  match k with
  | Arming => let '(b, c) := arming c in (Some b, c)
  | Disarming => let '(b, c) := disarming c in (Some b, c)
  | ReadRawvals vals thr btn =>
      (None,
       {| rawvals := vals; _ready := _ready c;
          _reversedVerticals := _reversedVerticals c;
          _springyThrottle := _springyThrottle c;
          _useButtonForAux := _useButtonForAux c;
          _throttleDemand := thr; _axismap := _axismap c;
          _buttonmap := _buttonmap c; _joyid := _joyid c;
          _buttonState := btn |})
  end.

(** The answers to a sequence of calls, in order. *)
Fixpoint run (ks : list call) (c : Controller)
    : list (call * option bool) :=
  match ks with
  | [] => []
  | k :: ks => let '(r, c) := step k c in (k, r) :: run ks c
  end.

(** *** The rest of the class *)

Definition set_rawvals (v : list Q) (c : Controller) : Controller :=
  {| rawvals := v; _ready := _ready c;
     _reversedVerticals := _reversedVerticals c;
     _springyThrottle := _springyThrottle c;
     _useButtonForAux := _useButtonForAux c;
     _throttleDemand := _throttleDemand c; _axismap := _axismap c;
     _buttonmap := _buttonmap c; _joyid := _joyid c;
     _buttonState := _buttonState c |}.
Definition set_throttleDemand (v : Q) (c : Controller) : Controller :=
  {| rawvals := rawvals c; _ready := _ready c;
     _reversedVerticals := _reversedVerticals c;
     _springyThrottle := _springyThrottle c;
     _useButtonForAux := _useButtonForAux c;
     _throttleDemand := v; _axismap := _axismap c;
     _buttonmap := _buttonmap c; _joyid := _joyid c;
     _buttonState := _buttonState c |}.
Definition set_buttonState (v : Z) (c : Controller) : Controller :=
  {| rawvals := rawvals c; _ready := _ready c;
     _reversedVerticals := _reversedVerticals c;
     _springyThrottle := _springyThrottle c;
     _useButtonForAux := _useButtonForAux c;
     _throttleDemand := _throttleDemand c; _axismap := _axismap c;
     _buttonmap := _buttonmap c; _joyid := _joyid c;
     _buttonState := v |}.

(** [const float buttonsToAux[3] = {-.1f, 0.f, .8f}] *)
Definition buttonsToAux : list Q := [- (1 # 10); 0; 8 # 10].

(** [void begin(void)].  [productInit] is implemented per operating system:
    what it does to the object is the parameter [productInit]. *)
Definition Controller_begin (productInit : Controller -> Controller)
    (c : Controller) : Controller :=
  (* Set up axes based on OS and controller *)
  let c := productInit c in
  (* Useful for springy-throttle controllers (XBox, PS3) *)
  set_throttleDemand (- 1) c.

(** [void readRawvals(void)].  [axes] and [buttons] are the two [static]
    locals as [productPoll] leaves them, [baseline] is what
    [productGetBaseline] returns, and [deadband] is [Filter::deadband], of
    [filter.hpp], which is not among the sources: all four are parameters. *)
Definition Controller_readRawvals (deadband : Q -> Q -> Q) (axes : list Z)
    (buttons baseline : Z) (c : Controller) : Controller :=
  (* Normalize the axes to demands in [-1,+1] *)
  let c :=
    fold_left
      (fun c k =>
         set_rawvals
           (<[k := inject_Z (I32.sub (axes !!! Z.to_nat (_axismap c !!! k))
                                     baseline) / 32767]> (rawvals c)) c)
      [0; 1; 2; 3; 4]%nat c in
  (* Invert throttle, pitch if indicated *)
  let c :=
    if _reversedVerticals c then
      let c := set_rawvals (<[0%nat := - (rawvals c !!! 0%nat)]> (rawvals c))
                           c in
      set_rawvals (<[2%nat := - (rawvals c !!! 2%nat)]> (rawvals c)) c
    else c in
  (* For game controllers, use buttons to fake up values in a
     three-position aux switch *)
  let c :=
    if _useButtonForAux c then
      let c :=
        fold_left
          (fun c k =>
             if (buttons =? _buttonmap c !!! k)%Z
             then set_buttonState (Z.of_nat k) c else c)
          [0; 1; 2]%nat c in
      set_rawvals
        (<[4%nat := buttonsToAux !!! Z.to_nat (_buttonState c)]> (rawvals c))
        c
    else c in
  (* Game-controller spring-mounted throttle requires special handling *)
  let c :=
    if _springyThrottle c then
      let c := set_rawvals
                 (<[0%nat := deadband (rawvals c !!! 0%nat) (15 # 100)]>
                    (rawvals c)) c in
      let c := set_throttleDemand
                 (_throttleDemand c + rawvals c !!! 0%nat * (1 # 10)) c in
      set_throttleDemand (Filter.constrainAbs (_throttleDemand c) 1) c
    else set_throttleDemand (rawvals c !!! 0%nat) c in
  (* Special handling for throttle *)
  set_rawvals (<[0%nat := _throttleDemand c]> (rawvals c)) c.

(** [void halt(void)] has an empty body. *)
Definition Controller_halt (c : Controller) : Controller := c.

(** The calls of the class with [readRawvals] as the code has it, and the
    object a sequence of them leaves. *)
Inductive method : Type :=
| M_arming
| M_disarming
| M_readRawvals (axes : list Z) (buttons baseline : Z)
| M_halt.

Definition invoke (deadband : Q -> Q -> Q) (c : Controller) (m : method)
    : Controller :=
  match m with
  | M_arming => snd (arming c)
  | M_disarming => snd (disarming c)
  | M_readRawvals axes buttons baseline =>
      Controller_readRawvals deadband axes buttons baseline c
  | M_halt => Controller_halt c
  end.

Definition invoke_all (deadband : Q -> Q -> Q) (ms : list method)
    (c : Controller) : Controller :=
  fold_left (invoke deadband) ms c.

(** *** The vehicle that polls the receiver

    Modelled from the spec: the loop that asks a [Receiver] for [arming()]
    and [disarming()] is not among the sources ([hackflight.cpp] reads stick
    codes).  What is modelled is the arm flag of the flight-mode state
    machine of the design document, with the two answers of the receiver for
    the arm and the disarm gesture.  The gesture is "derived each receiver
    tick": both methods are asked on every tick.  The transition table is
    "evaluated once per receiver-update tick, only when the gesture differs
    from the previous tick" ([changed]): a vehicle that is not armed is armed
    on the arm gesture when the guards hold (gyro countdown zero,
    accelerometer calibrated, aux switch neutral), an armed one is disarmed
    on the disarm gesture, and "once true, armed is cleared only by an
    explicit disarm gesture". *)
Record vehicle (R : Type) : Type := {
  v_armed : bool;
  v_receiver : R
}.

Arguments v_armed {R} _.
Arguments v_receiver {R} _.

Definition onReceiverTick {R : Type} `{Receiver R} (changed guards : bool)
    (v : vehicle R) : vehicle R :=
  let '(arm_gesture, r) := arming (v_receiver v) in
  let '(disarm_gesture, r) := disarming r in
  let armed :=
    if changed then
      if v_armed v then negb disarm_gesture else arm_gesture && guards
    else v_armed v in
  {| v_armed := armed; v_receiver := r |}.

(** What happens to the vehicle and its simulator receiver: the receiver
    reads the sticks ([readRawvals]), or a receiver tick is evaluated. *)
Inductive vehicle_event : Type :=
| Poll (axes : list Z) (buttons baseline : Z)
| ReceiverTick (changed guards : bool).

Definition vehicle_step (deadband : Q -> Q -> Q) (v : vehicle Controller)
    (e : vehicle_event) : vehicle Controller :=
  match e with
  | Poll axes buttons baseline =>
      {| v_armed := v_armed v;
         v_receiver := Controller_readRawvals deadband axes buttons baseline
                         (v_receiver v) |}
  | ReceiverTick changed guards => onReceiverTick changed guards v
  end.

Definition vehicle_run (deadband : Q -> Q -> Q) (es : list vehicle_event)
    (v : vehicle Controller) : vehicle Controller :=
  fold_left (vehicle_step deadband) es v.

End Sim.

(** ** [hackflight.cpp]: the control loop *)

#[local] Open Scope Z_scope.

Module Hackflight.

(** The stick codes [THR_LO], [YAW_HI], ... are declared with the receiver
    class, which is not among the sources: they are a parameter. *)
Record StickCodes : Type := {
  THR_LO : Z; THR_HI : Z;
  YAW_LO : Z; YAW_HI : Z;
  PIT_LO : Z; PIT_CE : Z;
  ROL_CE : Z
}.

Record Config : Type := {
  codes : StickCodes;
  CONFIG_SMALL_ANGLE : Z;
  stab_config : Stabilize.Config
}.

(** The four gestures [update] tests [rc.sticks] against. *)
Definition gesture_disarm (k : StickCodes) : Z :=
  THR_LO k + YAW_LO k + PIT_CE k + ROL_CE k.
Definition gesture_gyro_calibration (k : StickCodes) : Z :=
  THR_LO k + YAW_LO k + PIT_LO k + ROL_CE k.
Definition gesture_arm (k : StickCodes) : Z :=
  THR_LO k + YAW_HI k + PIT_CE k + ROL_CE k.
Definition gesture_accel_calibration (k : StickCodes) : Z :=
  THR_HI k + YAW_LO k + PIT_LO k + ROL_CE k.

(** What the receiver object [rc] answers once [rc.update(&board)] has
    run.  The class is not among the sources; its answers are inputs. *)
Record RC : Type := {
  sticks : Z;
  changed : bool;
  auxState : Z;
  throttleIsDown : bool
}.

(** Everything one call of [update] reads from its collaborators (timed
    tasks, board, receiver, IMU), in the order of the reads. *)
Record Inputs : Type := {
  rcTask_due : bool;              (* rcTask.checkAndUpdate(currentTime) *)
  rcSerialReady : bool;           (* Board::rcSerialReady() *)
  rc : RC;
  extrasTaskCount : Z;            (* Board::extrasGetTaskCount() *)
  micros1 : Z;                    (* Board::getMicros(), line 164 *)
  imuTask_due : bool;             (* imuTask.checkAndUpdate(currentTime) *)
  gyroADC : list Z;               (* after imuRead and imu.update *)
  imu_angle : list Z;             (* imu.angle after imu.update *)
  micros2 : Z;                    (* Board::getMicros(), line 182 *)
  rc_command : list Z;            (* rc.command after rc.computeExpo() *)
  accelCalibrationTask_due : bool (* accelCalibrationTask.check(...) *)
}.

(** The calls made on the collaborators, as a trace. *)
Inductive event : Type :=
| showAuxStatus (aux : Z)
| showArmedStatus (a : bool)
| ledGreenOn | ledGreenOff | ledRedOn | ledRedOff
| extrasCheckSwitch
| extrasPerformTask (taskOrder : Z)
| imu_update (a : bool) (calibratingA calibratingG : Z)
| accelCalibrationTask_update
| mixer_update (a : bool)
| msp_update (a : bool).

(** The members of [Hackflight] that [update] uses, its function-level
    [static] variables, and the trace. *)
Record t : Type := {
  armed : bool;
  calibratingG : Z;
  calibratingGyroCycles : Z;
  calibratingAccCycles : Z;
  haveSmallAngle : bool;
  stab : Stabilize.t;
  accCalibrated : bool;           (* static bool *)
  calibratingA : Z;               (* static uint16_t *)
  currentTime : Z;                (* static uint32_t *)
  taskOrder : Z;                  (* static int *)
  on : bool;                      (* static bool *)
  trace : list event
}.

Definition set_armed v (s : t) : t :=
  {| armed := v; calibratingG := calibratingG s;
     calibratingGyroCycles := calibratingGyroCycles s;
     calibratingAccCycles := calibratingAccCycles s;
     haveSmallAngle := haveSmallAngle s; stab := stab s;
     accCalibrated := accCalibrated s; calibratingA := calibratingA s;
     currentTime := currentTime s; taskOrder := taskOrder s; on := on s;
     trace := trace s |}.
Definition set_calibratingG v (s : t) : t :=
  {| armed := armed s; calibratingG := v;
     calibratingGyroCycles := calibratingGyroCycles s;
     calibratingAccCycles := calibratingAccCycles s;
     haveSmallAngle := haveSmallAngle s; stab := stab s;
     accCalibrated := accCalibrated s; calibratingA := calibratingA s;
     currentTime := currentTime s; taskOrder := taskOrder s; on := on s;
     trace := trace s |}.
Definition set_haveSmallAngle v (s : t) : t :=
  {| armed := armed s; calibratingG := calibratingG s;
     calibratingGyroCycles := calibratingGyroCycles s;
     calibratingAccCycles := calibratingAccCycles s;
     haveSmallAngle := v; stab := stab s;
     accCalibrated := accCalibrated s; calibratingA := calibratingA s;
     currentTime := currentTime s; taskOrder := taskOrder s; on := on s;
     trace := trace s |}.
Definition set_stab v (s : t) : t :=
  {| armed := armed s; calibratingG := calibratingG s;
     calibratingGyroCycles := calibratingGyroCycles s;
     calibratingAccCycles := calibratingAccCycles s;
     haveSmallAngle := haveSmallAngle s; stab := v;
     accCalibrated := accCalibrated s; calibratingA := calibratingA s;
     currentTime := currentTime s; taskOrder := taskOrder s; on := on s;
     trace := trace s |}.
Definition set_accCalibrated v (s : t) : t :=
  {| armed := armed s; calibratingG := calibratingG s;
     calibratingGyroCycles := calibratingGyroCycles s;
     calibratingAccCycles := calibratingAccCycles s;
     haveSmallAngle := haveSmallAngle s; stab := stab s;
     accCalibrated := v; calibratingA := calibratingA s;
     currentTime := currentTime s; taskOrder := taskOrder s; on := on s;
     trace := trace s |}.
Definition set_calibratingA v (s : t) : t :=
  {| armed := armed s; calibratingG := calibratingG s;
     calibratingGyroCycles := calibratingGyroCycles s;
     calibratingAccCycles := calibratingAccCycles s;
     haveSmallAngle := haveSmallAngle s; stab := stab s;
     accCalibrated := accCalibrated s; calibratingA := v;
     currentTime := currentTime s; taskOrder := taskOrder s; on := on s;
     trace := trace s |}.
Definition set_currentTime v (s : t) : t :=
  {| armed := armed s; calibratingG := calibratingG s;
     calibratingGyroCycles := calibratingGyroCycles s;
     calibratingAccCycles := calibratingAccCycles s;
     haveSmallAngle := haveSmallAngle s; stab := stab s;
     accCalibrated := accCalibrated s; calibratingA := calibratingA s;
     currentTime := v; taskOrder := taskOrder s; on := on s;
     trace := trace s |}.
Definition set_taskOrder v (s : t) : t :=
  {| armed := armed s; calibratingG := calibratingG s;
     calibratingGyroCycles := calibratingGyroCycles s;
     calibratingAccCycles := calibratingAccCycles s;
     haveSmallAngle := haveSmallAngle s; stab := stab s;
     accCalibrated := accCalibrated s; calibratingA := calibratingA s;
     currentTime := currentTime s; taskOrder := v; on := on s;
     trace := trace s |}.
Definition set_on v (s : t) : t :=
  {| armed := armed s; calibratingG := calibratingG s;
     calibratingGyroCycles := calibratingGyroCycles s;
     calibratingAccCycles := calibratingAccCycles s;
     haveSmallAngle := haveSmallAngle s; stab := stab s;
     accCalibrated := accCalibrated s; calibratingA := calibratingA s;
     currentTime := currentTime s; taskOrder := taskOrder s; on := v;
     trace := trace s |}.
(** A call on a collaborator is appended to the trace. *)
Definition emit (e : event) (s : t) : t :=
  {| armed := armed s; calibratingG := calibratingG s;
     calibratingGyroCycles := calibratingGyroCycles s;
     calibratingAccCycles := calibratingAccCycles s;
     haveSmallAngle := haveSmallAngle s; stab := stab s;
     accCalibrated := accCalibrated s; calibratingA := calibratingA s;
     currentTime := currentTime s; taskOrder := taskOrder s; on := on s;
     trace := trace s ++ [e] |}.

(** The block of [if (this->rc.changed())], lines 115 to 147. *)
Definition on_sticks_changed (k : StickCodes) (r : RC) (s : t) : t :=
  if armed s then
    (* actions during armed: disarm on throttle down + yaw *)
    if sticks r =? gesture_disarm k then
      if armed s then
        let s := set_armed false s in
        emit (showArmedStatus (armed s)) s
      else s
    else s
  else
    (* actions during not armed *)
    (* gyro calibration *)
    let s := if sticks r =? gesture_gyro_calibration k
             then set_calibratingG (calibratingGyroCycles s) s else s in
    (* arm via throttle-low / yaw-right *)
    let s := if sticks r =? gesture_arm k then
               if (calibratingG s =? 0) && accCalibrated s then
                 if auxState r =? 0 then (* !rc.auxState() *)
                   if negb (armed s) then
                     let s := set_armed true s in
                     emit (showArmedStatus (armed s)) s
                   else s
                 else s
               else s
             else s in
    (* accel calibration *)
    let s := if sticks r =? gesture_accel_calibration k
             then set_calibratingA (calibratingAccCycles s) s else s in
    s.

(** The receiver block, lines 100 to 150: the body of
    [if (rcTask.checkAndUpdate(currentTime) || rcSerialReady)]. *)
Definition rc_block (k : StickCodes) (r : RC) (s : t) : t :=
  (* useful for simulator *)
  let s := if armed s then emit (showAuxStatus (auxState r)) s else s in
  (* when landed, reset integral component of PID *)
  let s := if throttleIsDown r
           then set_stab (Stabilize.resetIntegral (stab s)) s else s in
  let s := if changed r then on_sticks_changed k r s else s in
  (* detect aux switch changes for hover, altitude-hold, etc. *)
  emit extrasCheckSwitch s.

(** The [else] of the receiver block, lines 152 to 162. *)
Definition extras_block (i : Inputs) (s : t) : t :=
  let s := emit (extrasPerformTask (taskOrder s)) s in
  let s := set_taskOrder (int32_t (taskOrder s + 1)) s in
  if taskOrder s >=? extrasTaskCount i then set_taskOrder 0 s else s.

(** The IMU block, lines 166 to 228: the body of
    [if (imuTask.checkAndUpdate(currentTime))]. *)
Definition imu_block (c : Config) (i : Inputs) (s : t) : t :=
  let s := emit (imu_update (armed s) (calibratingA s) (calibratingG s)) s in
  let s := if calibratingA s >? 0
           then set_calibratingA (calibratingA s - 1) s else s in
  let s := if calibratingG s >? 0
           then set_calibratingG (calibratingG s - 1) s else s in
  let s := set_haveSmallAngle
             ((I32.abs (imu_angle i !!! 0%nat) <? CONFIG_SMALL_ANGLE c)
              && (I32.abs (imu_angle i !!! 1%nat) <? CONFIG_SMALL_ANGLE c))
             s in
  (* measure loop rate just after reading the sensors *)
  let s := set_currentTime (micros2 i) s in
  (* use LEDs to indicate calibration status *)
  let s := if (calibratingA s >? 0) || (calibratingG s >? 0)
           then emit ledGreenOn s
           else
             let s := if accCalibrated s then emit ledGreenOff s else s in
             if armed s then emit ledRedOn s else emit ledRedOff s in
  (* periodically update accelerometer calibration status *)
  let s := if accelCalibrationTask_due i then
             if negb (haveSmallAngle s) then
               let s := set_accCalibrated false s in
               let s := if on s
                        then set_on false (emit ledGreenOff s)
                        else set_on true (emit ledGreenOn s) in
               emit accelCalibrationTask_update s
             else set_accCalibrated true s
           else s in
  (* update stability PID controller *)
  let s := set_stab (Stabilize.update (stab_config c) (rc_command i)
                                      (gyroADC i) (imu_angle i) (stab s))
                    s in
  (* update mixer *)
  let s := emit (mixer_update (armed s)) s in
  (* handle serial communications *)
  emit (msp_update (armed s)) s.

(** [void Hackflight::update(void)] *)
Definition update (c : Config) (i : Inputs) (s : t) : t :=
  let s := if rcTask_due i || rcSerialReady i
           then rc_block (codes c) (rc i) s
           else extras_block i s in
  let s := set_currentTime (micros1 i) s in
  if imuTask_due i then imu_block c i s else s.

(** [loop] calls [update] again and again: the state after a sequence of
    calls, each with what it reads from the collaborators. *)
Definition run (c : Config) (inputs : list Inputs) (s : t) : t :=
  fold_left (fun s i => update c i s) inputs s.

(** *** [initialize], [setup] and [loop] *)

Definition uint16_t (z : Z) : Z := z mod 2 ^ 16.

(** What [Board::init] hands back through its four reference parameters. *)
Record BoardInit : Type := {
  acc1G : Z;
  gyroScale : Q;
  looptimeUsec : Z;
  gyroCalibrationMsec : Z
}.

(** [(uint16_t)(1000. * msec / looptimeUsec)]: the quotient is computed in
    [double] (here: exactly), the conversion truncates towards zero and
    keeps the low 16 bits. *)
Definition calibration_cycles (msec usec : Z) : Z :=
  let q := (1000 * inject_Z msec / inject_Z usec)%Q in
  uint16_t (Qnum q ÷ Z.pos (Qden q)).

(** The start-up flash: both LEDs off, then ten times on and off. *)
Definition startup_flash : list event :=
  [ledRedOff; ledGreenOff]
  ++ mjoin (replicate 10 [ledRedOn; ledGreenOn; ledRedOff; ledGreenOff]).

(** [void Hackflight::initialize(void)].  The calls that initialise the
    collaborators (IMU, mixer, receiver, timed tasks, MSP, extras) and the
    delays leave no mark on the members modelled here; of the calls on the
    board, the LED ones are in the trace.  The [static] locals of [update]
    are not touched. *)
Definition initialize (b : BoardInit) (CONFIG_CALIBRATING_ACC_MSEC : Z)
    (c : Config) (s : t) : t :=
  let imuLooptimeUsec := looptimeUsec b in
  (* compute cycles for calibration based on board's time constant *)
  let gyroCycles :=
    calibration_cycles (gyroCalibrationMsec b) imuLooptimeUsec in
  let accCycles :=
    calibration_cycles CONFIG_CALIBRATING_ACC_MSEC imuLooptimeUsec in
  {| armed := false;                        (* ensure not armed *)
     calibratingG := gyroCycles;  (* always do gyro calibration at startup *)
     calibratingGyroCycles := gyroCycles;
     calibratingAccCycles := accCycles;
     haveSmallAngle := true;                (* assume shallow angle *)
     stab := Stabilize.init (stab_config c) (stab s);
     accCalibrated := accCalibrated s;
     calibratingA := calibratingA s;
     currentTime := currentTime s;
     taskOrder := taskOrder s;
     on := on s;
     trace := trace s ++ startup_flash |}.

(** [static Hackflight hackflight;] and the [static] locals of [update]
    before [setup] runs: storage of static duration is zero-initialised. *)
Definition zeroed : t :=
  {| armed := false; calibratingG := 0; calibratingGyroCycles := 0;
     calibratingAccCycles := 0; haveSmallAngle := false;
     stab := {| Stabilize.rate_p := [0; 0; 0]; Stabilize.rate_i := [0; 0; 0];
                Stabilize.rate_d := [0; 0; 0];
                Stabilize.lastGyro := [0; 0; 0];
                Stabilize.delta1 := [0; 0; 0]; Stabilize.delta2 := [0; 0; 0];
                Stabilize.errorGyroI := [0; 0; 0];
                Stabilize.errorAngleI := [0; 0];
                Stabilize.axisPID := [0; 0; 0] |};
     accCalibrated := false; calibratingA := 0; currentTime := 0;
     taskOrder := 0; on := false; trace := [] |}.

(** [void setup(void)] and [void loop(void)] on the global object. *)
Definition setup (b : BoardInit) (CONFIG_CALIBRATING_ACC_MSEC : Z)
    (c : Config) : t :=
  initialize b CONFIG_CALIBRATING_ACC_MSEC c zeroed.

Definition loop (c : Config) (i : Inputs) (s : t) : t := update c i s.

End Hackflight.

(** ** Instances used to run the model

    A configuration in the range of the baseflight defaults, stick codes with
    two bits per channel (1 low, 3 centre, 2 high; roll, pitch, yaw,
    throttle from the low bits up), and objects whose storage holds
    arbitrary values before [init]. *)

Definition example_config : Stabilize.Config :=
  {| Stabilize.CONFIG_RATE_PITCHROLL_P := 36;
     Stabilize.CONFIG_RATE_PITCHROLL_I := 30;
     Stabilize.CONFIG_RATE_PITCHROLL_D := 23;
     Stabilize.CONFIG_YAW_P := 85;
     Stabilize.CONFIG_YAW_I := 45;
     Stabilize.CONFIG_LEVEL_P := 90;
     Stabilize.CONFIG_LEVEL_I := 10;
     Stabilize.CONFIG_MAX_ANGLE_INCLINATION := 500 |}.

Definition example_storage : Stabilize.t :=
  {| Stabilize.rate_p := [1; 2; 3]; Stabilize.rate_i := [4; 5; 6];
     Stabilize.rate_d := [7; 8; 9]; Stabilize.lastGyro := [-11; 12; 13];
     Stabilize.delta1 := [14; -15; 16]; Stabilize.delta2 := [17; 18; -19];
     Stabilize.errorGyroI := [123456; -654321; 99999];
     Stabilize.errorAngleI := [-77777; 88888];
     Stabilize.axisPID := [21; 22; 23] |}.

Definition example_codes : Hackflight.StickCodes :=
  {| Hackflight.THR_LO := 64; Hackflight.THR_HI := 128;
     Hackflight.YAW_LO := 16; Hackflight.YAW_HI := 32;
     Hackflight.PIT_LO := 4; Hackflight.PIT_CE := 12;
     Hackflight.ROL_CE := 3 |}.

Definition example_hackflight_config : Hackflight.Config :=
  {| Hackflight.codes := example_codes;
     Hackflight.CONFIG_SMALL_ANGLE := 250;
     Hackflight.stab_config := example_config |}.

(** A disarmed craft, calibrated, with wound-up integrals. *)
Definition example_disarmed : Hackflight.t :=
  {| Hackflight.armed := false;
     Hackflight.calibratingG := 0;
     Hackflight.calibratingGyroCycles := 1000;
     Hackflight.calibratingAccCycles := 400;
     Hackflight.haveSmallAngle := true;
     Hackflight.stab :=
       Stabilize.set_errorAngleI [-9000; 9000]
         (Stabilize.set_errorGyroI [15000; -16000; 700]
            (Stabilize.init example_config example_storage));
     Hackflight.accCalibrated := true;
     Hackflight.calibratingA := 0;
     Hackflight.currentTime := 0;
     Hackflight.taskOrder := 0;
     Hackflight.on := false;
     Hackflight.trace := [] |}.

Definition example_armed : Hackflight.t :=
  Hackflight.set_armed true example_disarmed.

#[local] Open Scope Q_scope.

Definition example_storageQ : Stabilizer.t :=
  {| Stabilizer._levelP := 0; Stabilizer._gyroCyclicP := 0;
     Stabilizer._gyroCyclicI := 0; Stabilizer._gyroCyclicD := 0;
     Stabilizer._gyroYawP := 0; Stabilizer._gyroYawI := 0;
     Stabilizer.lastGyro := [3; -4]; Stabilizer.gyroDelta1 := [5; 6];
     Stabilizer.gyroDelta2 := [-7; 8]; Stabilizer.errorGyroI := [100; -200; 300];
     Stabilizer.bigGyroRate := -1; Stabilizer.maxArmingAngle := 9 |}.

(** Gains that are binary fractions, so that a [float] holds them exactly. *)
Definition example_stabilizer : Stabilizer.t :=
  Stabilizer.init
    (Stabilizer.Stabilizer (1 # 4) (1 # 4) (1 # 64) (3 # 8) (17 # 16) (1 # 128)
                           example_storageQ).

#[local] Open Scope Z_scope.

(** ** Notions the properties are stated with *)

(** The condition of line 57. *)
Definition reset_condition (rcCommand gyroADC : list Z) (axis : nat) : bool :=
  (I32.abs (gyroADC !!! axis) >? 640)
  || ((axis =? AXIS_YAW)%nat && (I32.abs (rcCommand !!! axis) >? 100)).

(** Every gyro accumulator is within the windup bound. *)
Definition windup_ok (s : Stabilize.t) : Prop :=
  forall axis, (axis < 3)%nat ->
    -16000 <= Stabilize.errorGyroI s !!! axis <= 16000.

(** The state the block of [rc.changed()] starts from: the flight state
    of [s], whatever the aux display and the integral reset did. *)
Definition before_sticks (r : Hackflight.RC) (s : Hackflight.t)
    : Hackflight.t :=
  let s := if Hackflight.armed s
           then Hackflight.emit
                  (Hackflight.showAuxStatus (Hackflight.auxState r)) s
           else s in
  if Hackflight.throttleIsDown r
  then Hackflight.set_stab (Stabilize.resetIntegral (Hackflight.stab s)) s
  else s.

(** Receiver and loop inputs for the examples: the throttle is down and
    the aux switch neutral; the receiver block runs, the IMU block runs when
    [imu_due] says so. *)
Definition example_rc (sticks : Z) (changed : bool) : Hackflight.RC :=
  {| Hackflight.sticks := sticks; Hackflight.changed := changed;
     Hackflight.auxState := 0; Hackflight.throttleIsDown := true |}.

Definition example_inputs (r : Hackflight.RC) (imu_due : bool)
    : Hackflight.Inputs :=
  {| Hackflight.rcTask_due := true; Hackflight.rcSerialReady := false;
     Hackflight.rc := r; Hackflight.extrasTaskCount := 0;
     Hackflight.micros1 := 20000; Hackflight.imuTask_due := imu_due;
     Hackflight.gyroADC := [3; -2; 1]; Hackflight.imu_angle := [10; -5; 0];
     Hackflight.micros2 := 20040; Hackflight.rc_command := [0; 0; 0; 1000];
     Hackflight.accelCalibrationTask_due := false |}.

(** The receiver block runs, the receiver reports a stick change and the
    sticks show the disarm gesture. *)
Definition disarm_event (c : Hackflight.Config) (i : Hackflight.Inputs)
    : Prop :=
  Hackflight.rcTask_due i || Hackflight.rcSerialReady i = true
  /\ Hackflight.changed (Hackflight.rc i) = true
  /\ Hackflight.sticks (Hackflight.rc i)
     = Hackflight.gesture_disarm (Hackflight.codes c).

(** The four guards of the arm gesture. *)
Definition arming_guards (r : Hackflight.RC) (s : Hackflight.t) : Prop :=
  Hackflight.calibratingG s = 0 /\ Hackflight.accCalibrated s = true
  /\ Hackflight.auxState r = 0 /\ Hackflight.armed s = false.

#[local] Open Scope Q_scope.

(** The condition of line 90. *)
Definition reset_conditionQ (rcCommand : Q) (gyro : list Q) (axis : nat)
    (s : Stabilizer.t) : bool :=
  Qgtb (Qabs (gyro !!! axis)) (Stabilizer.bigGyroRate s)
  || ((axis =? AXIS_YAW)%nat
      && Qgtb (Qabs rcCommand) Stabilizer.bigYawDemand).

(** Every gyro accumulator is within [gyroWindupMax]. *)
Definition windup_okQ (s : Stabilizer.t) : Prop :=
  forall axis, (axis < 3)%nat ->
    Qabs (Stabilizer.errorGyroI s !!! axis) <= Stabilizer.gyroWindupMax.

#[local] Open Scope Z_scope.

(** ** Further notions *)

(** Every angle accumulator is within its windup bound. *)
Definition angle_windup_ok (s : Stabilize.t) : Prop :=
  forall axis, (axis < 2)%nat ->
    -10000 <= Stabilize.errorAngleI s !!! axis <= 10000.

(** Two controllers that differ at most in [axisPID]. *)
Definition same_but_axisPID (s s' : Stabilize.t) : Prop :=
  Stabilize.rate_p s = Stabilize.rate_p s'
  /\ Stabilize.rate_i s = Stabilize.rate_i s'
  /\ Stabilize.rate_d s = Stabilize.rate_d s'
  /\ Stabilize.lastGyro s = Stabilize.lastGyro s'
  /\ Stabilize.delta1 s = Stabilize.delta1 s'
  /\ Stabilize.delta2 s = Stabilize.delta2 s'
  /\ Stabilize.errorGyroI s = Stabilize.errorGyroI s'
  /\ Stabilize.errorAngleI s = Stabilize.errorAngleI s'.

(** The derivative history of an axis holds the last three rate samples
    [g1] (the latest), [g2], [g3]. *)
Definition rate_history (s : Stabilize.t) (axis : nat) (g1 g2 g3 : Z) : Prop :=
  Stabilize.lastGyro s !!! axis = g1
  /\ Stabilize.delta1 s !!! axis = g1 - g2
  /\ Stabilize.delta2 s !!! axis = g2 - g3.

#[local] Open Scope Q_scope.

(** The derivative history of a cyclic axis of the floating-point
    controller holds the last three rate samples. *)
Definition rate_historyQ (s : Stabilizer.t) (axis : nat) (g1 g2 g3 : Q)
    : Prop :=
  Stabilizer.lastGyro s !!! axis == g1
  /\ Stabilizer.gyroDelta1 s !!! axis == g1 - g2
  /\ Stabilizer.gyroDelta2 s !!! axis == g2 - g3.

#[local] Open Scope Z_scope.

(** The number of passes of [update] in which the IMU task was due. *)
Definition imu_passes (inputs : list Hackflight.Inputs) : Z :=
  Z.of_nat (length (List.filter Hackflight.imuTask_due inputs)).

(** A pass in which the IMU block ran, the accelerometer check was due and
    roll and pitch were found below [CONFIG_SMALL_ANGLE]. *)
Definition level_check (c : Hackflight.Config) (i : Hackflight.Inputs)
    : bool :=
  Hackflight.imuTask_due i && Hackflight.accelCalibrationTask_due i
  && ((I32.abs (Hackflight.imu_angle i !!! 0%nat)
       <? Hackflight.CONFIG_SMALL_ANGLE c)
      && (I32.abs (Hackflight.imu_angle i !!! 1%nat)
          <? Hackflight.CONFIG_SMALL_ANGLE c)).

(** What the trace says was shown with [Board::showArmedStatus], handed to
    [mixer.update], handed to [msp.update] and asked of
    [extrasPerformTask], each in order. *)
Definition shown_armed (e : Hackflight.event) : option bool :=
  match e with Hackflight.showArmedStatus a => Some a | _ => None end.

Definition mixer_flag (e : Hackflight.event) : option bool :=
  match e with Hackflight.mixer_update a => Some a | _ => None end.

Definition msp_flag (e : Hackflight.event) : option bool :=
  match e with Hackflight.msp_update a => Some a | _ => None end.

Definition performed_task (e : Hackflight.event) : option Z :=
  match e with Hackflight.extrasPerformTask k => Some k | _ => None end.

Definition armed_announcements (tr : list Hackflight.event) : list bool :=
  omap shown_armed tr.

Definition mixer_updates (tr : list Hackflight.event) : list bool :=
  omap mixer_flag tr.

Definition msp_updates (tr : list Hackflight.event) : list bool :=
  omap msp_flag tr.

Definition performed_tasks (tr : list Hackflight.event) : list Z :=
  omap performed_task tr.

(** The number of passes of [update] that took the extras branch. *)
Definition extras_passes (inputs : list Hackflight.Inputs) : nat :=
  length (List.filter
            (fun i => negb (Hackflight.rcTask_due i
                            || Hackflight.rcSerialReady i)) inputs).

(** The task a round robin over [n] tasks performs at its [j]-th turn;
    task 0 when there are no tasks. *)
Definition round_robin (n : Z) (j : nat) : Z :=
  if n <=? 0 then 0 else Z.of_nat j mod n.

(** A board and inputs for the examples: three IMU passes to calibrate the
    gyro, the accelerometer check due in each. *)
Definition example_board : Hackflight.BoardInit :=
  {| Hackflight.acc1G := 4096; Hackflight.gyroScale := 1 # 16;
     Hackflight.looptimeUsec := 10000;
     Hackflight.gyroCalibrationMsec := 30 |}.

Definition example_imu_pass : Hackflight.Inputs :=
  {| Hackflight.rcTask_due := false; Hackflight.rcSerialReady := false;
     Hackflight.rc := example_rc 0 false; Hackflight.extrasTaskCount := 2;
     Hackflight.micros1 := 20000; Hackflight.imuTask_due := true;
     Hackflight.gyroADC := [3; -2; 1]; Hackflight.imu_angle := [10; -5; 0];
     Hackflight.micros2 := 20040; Hackflight.rc_command := [0; 0; 0; 1000];
     Hackflight.accelCalibrationTask_due := true |}.

Definition example_flight : list Hackflight.Inputs :=
  [example_imu_pass; example_imu_pass; example_imu_pass;
   example_inputs
     (example_rc (Hackflight.gesture_arm example_codes) true) true].

(** The calls that only drive the display, the auxiliary switch hook and
    the accelerometer task's timer. *)
Definition display_only (e : Hackflight.event) : bool :=
  match e with
  | Hackflight.showAuxStatus _ | Hackflight.ledGreenOn
  | Hackflight.ledGreenOff | Hackflight.ledRedOn | Hackflight.ledRedOff
  | Hackflight.extrasCheckSwitch | Hackflight.accelCalibrationTask_update =>
      true
  | _ => false
  end.

(** The stages of the IMU block: the IMU update with the two countdowns
    (lines 170 to 176), the calibration LEDs (lines 187 to 198) and the
    periodic accelerometer check (lines 201 to 217). *)
Definition imu_countdown (s : Hackflight.t) : Hackflight.t :=
  let s := Hackflight.emit
             (Hackflight.imu_update (Hackflight.armed s)
                (Hackflight.calibratingA s) (Hackflight.calibratingG s)) s in
  let s := if Hackflight.calibratingA s >? 0
           then Hackflight.set_calibratingA (Hackflight.calibratingA s - 1) s
           else s in
  if Hackflight.calibratingG s >? 0
  then Hackflight.set_calibratingG (Hackflight.calibratingG s - 1) s
  else s.

Definition imu_leds (s : Hackflight.t) : Hackflight.t :=
  if (Hackflight.calibratingA s >? 0) || (Hackflight.calibratingG s >? 0)
  then Hackflight.emit Hackflight.ledGreenOn s
  else
    let s := if Hackflight.accCalibrated s
             then Hackflight.emit Hackflight.ledGreenOff s else s in
    if Hackflight.armed s then Hackflight.emit Hackflight.ledRedOn s
    else Hackflight.emit Hackflight.ledRedOff s.

Definition imu_accel_check (i : Hackflight.Inputs) (s : Hackflight.t)
    : Hackflight.t :=
  if Hackflight.accelCalibrationTask_due i then
    if negb (Hackflight.haveSmallAngle s) then
      let s := Hackflight.set_accCalibrated false s in
      let s := if Hackflight.on s
               then Hackflight.set_on false
                      (Hackflight.emit Hackflight.ledGreenOff s)
               else Hackflight.set_on true
                      (Hackflight.emit Hackflight.ledGreenOn s) in
      Hackflight.emit Hackflight.accelCalibrationTask_update s
    else Hackflight.set_accCalibrated true s
  else s.

(** A call of [arming]. *)
Definition is_arming (m : Sim.method) : bool :=
  match m with Sim.M_arming => true | _ => false end.

(** The throttle stick as [readRawvals] normalises it: axis [_axismap[0]]
    less the baseline, over 32767, negated for reversed verticals. *)
Definition throttle_stick (axes : list Z) (baseline : Z) (c : Sim.Controller)
    : Q :=
  let v := (inject_Z (I32.sub (axes !!! Z.to_nat (Sim._axismap c !!! 0%nat))
                              baseline) / 32767)%Q in
  if Sim._reversedVerticals c then (- v)%Q else v.

(** The position of the three-position switch after the buttons have been
    looked at: the last of the three mapped buttons that equals [buttons],
    the old position when none does. *)
Definition aux_position (buttons : Z) (c : Sim.Controller) : Z :=
  if buttons =? Sim._buttonmap c !!! 2%nat then 2
  else if buttons =? Sim._buttonmap c !!! 1%nat then 1
  else if buttons =? Sim._buttonmap c !!! 0%nat then 0
  else Sim._buttonState c.

(** A game controller for the examples: springy throttle, reversed
    verticals, buttons for the aux switch. *)
Definition example_gamepad (c : Sim.Controller) : Sim.Controller :=
  {| Sim.rawvals := [0; 0; 0; 0; 0]%Q; Sim._ready := Sim._ready c;
     Sim._reversedVerticals := true; Sim._springyThrottle := true;
     Sim._useButtonForAux := true;
     Sim._throttleDemand := Sim._throttleDemand c;
     Sim._axismap := [1; 2; 3; 0; 4]; Sim._buttonmap := [1; 2; 4];
     Sim._joyid := Sim._joyid c; Sim._buttonState := Sim._buttonState c |}.

(** A dead band for the examples: values inside the band become 0. *)
Definition example_deadband (x band : Q) : Q :=
  if Qle_bool (Qabs x) band then 0%Q else x.

Definition example_memory : Sim.Controller :=
  {| Sim.rawvals := [7; 7; 7; 7; 7]%Q; Sim._ready := true;
     Sim._reversedVerticals := true; Sim._springyThrottle := true;
     Sim._useButtonForAux := true; Sim._throttleDemand := 5%Q;
     Sim._axismap := [9; 9; 9; 9; 9]; Sim._buttonmap := [9; 9; 9];
     Sim._joyid := 3; Sim._buttonState := 7 |}.

(** The stages of [readRawvals]: the axes normalised (lines 83 to 86), the
    verticals inverted (lines 88 to 92), the buttons turned into the aux
    channel (lines 94 to 102) and the throttle (lines 104 to 115). *)
Definition normalise_axes (axes : list Z) (baseline : Z) (c : Sim.Controller)
    : Sim.Controller :=
  fold_left
    (fun c k =>
       Sim.set_rawvals
         (<[k := (inject_Z (I32.sub (axes !!! Z.to_nat (Sim._axismap c !!! k))
                                    baseline) / 32767)%Q]> (Sim.rawvals c)) c)
    [0; 1; 2; 3; 4]%nat c.

Definition invert_verticals (c : Sim.Controller) : Sim.Controller :=
  if Sim._reversedVerticals c then
    let c := Sim.set_rawvals
               (<[0%nat := (- (Sim.rawvals c !!! 0%nat))%Q]> (Sim.rawvals c))
               c in
    Sim.set_rawvals
      (<[2%nat := (- (Sim.rawvals c !!! 2%nat))%Q]> (Sim.rawvals c)) c
  else c.

Definition buttons_to_aux (buttons : Z) (c : Sim.Controller)
    : Sim.Controller :=
  if Sim._useButtonForAux c then
    let c :=
      fold_left
        (fun c k =>
           if buttons =? Sim._buttonmap c !!! k
           then Sim.set_buttonState (Z.of_nat k) c else c)
        [0; 1; 2]%nat c in
    Sim.set_rawvals
      (<[4%nat := Sim.buttonsToAux !!! Z.to_nat (Sim._buttonState c)]>
         (Sim.rawvals c)) c
  else c.

Definition throttle_handling (deadband : Q -> Q -> Q) (c : Sim.Controller)
    : Sim.Controller :=
  let c :=
    if Sim._springyThrottle c then
      let c := Sim.set_rawvals
                 (<[0%nat := deadband (Sim.rawvals c !!! 0%nat) (15 # 100)%Q]>
                    (Sim.rawvals c)) c in
      let c := Sim.set_throttleDemand
                 (Sim._throttleDemand c
                  + Sim.rawvals c !!! 0%nat * (1 # 10))%Q c in
      Sim.set_throttleDemand (Filter.constrainAbs (Sim._throttleDemand c) 1) c
    else Sim.set_throttleDemand (Sim.rawvals c !!! 0%nat) c in
  Sim.set_rawvals (<[0%nat := Sim._throttleDemand c]> (Sim.rawvals c)) c.

(** * Properties *)

(** ** Machine integers and clamps *)

Lemma wrap_id (w z : Z) :
  0 < w -> - 2 ^ (w - 1) <= z < 2 ^ (w - 1) -> wrap w z = z.
Proof.
  intros Hw Hz. unfold wrap.
  assert (E : 2 ^ w = 2 * 2 ^ (w - 1)).
  { replace w with (Z.succ (w - 1)) at 1 by lia. apply Z.pow_succ_r. lia. }
  rewrite Z.mod_small; lia.
Qed.

Lemma int16_id z : in_int16 z -> int16_t z = z.
Proof. intros H. apply wrap_id; [lia | exact H]. Qed.

Lemma int32_id z : in_int32 z -> int32_t z = z.
Proof. intros H. apply wrap_id; [lia | exact H]. Qed.

Lemma int16_range z : in_int16 (int16_t z).
Proof.
  unfold in_int16, int16_t, wrap.
  pose proof (Z.mod_pos_bound (z + 2 ^ (16 - 1)) (2 ^ 16) ltac:(lia)). lia.
Qed.

Lemma constrain_range val lo hi :
  lo <= hi -> lo <= constrain val lo hi <= hi.
Proof.
  intros H. unfold constrain.
  destruct (Z.ltb_spec val lo); [lia |].
  destruct (Z.gtb_spec val hi); lia.
Qed.

Lemma constrain_cases val lo hi :
  constrain val lo hi = lo \/ constrain val lo hi = hi
  \/ constrain val lo hi = val.
Proof.
  unfold constrain. destruct (val <? lo); [auto |].
  destruct (val >? hi); auto.
Qed.

Lemma quot_bound a b m :
  0 < b -> Z.abs a <= m -> Z.abs (Z.quot a b) <= m.
Proof.
  intros Hb Ha.
  assert (Z.abs (Z.quot a b) <= Z.abs a); [| lia].
  rewrite <- (Z.abs_eq b) at 1 by lia. rewrite <- Z.quot_abs by lia.
  apply Z.quot_le_upper_bound; [lia |].
  pose proof (Z.abs_nonneg a). nia.
Qed.

(** Reading an array after a store: the stored value at the index of the
    store when it is in range, the old value elsewhere. *)
Lemma lookup_total_store `{!Inhabited A} (P : A -> Prop) (l : list A) i j v :
  P v -> P (l !!! j) -> P (<[i := v]> l !!! j).
Proof.
  intros Hv Hl. destruct (decide (i = j)) as [-> | Hne].
  - destruct (decide (j < length l)%nat) as [Hlt | Hge].
    + by rewrite list_lookup_total_insert_eq.
    + by rewrite list_insert_ge by lia.
  - by rewrite list_lookup_total_insert_ne.
Qed.

(** ** The fixed-point controller *)

(** Symbolic execution of a straight-line body: the [let]s are unfolded and
    the record projections of the stores are computed. *)
Ltac stabilize_exec :=
  cbv zeta;
  cbn [fst snd fold_left
       Stabilize.rate_p Stabilize.rate_i Stabilize.rate_d Stabilize.lastGyro
       Stabilize.delta1 Stabilize.delta2 Stabilize.errorGyroI
       Stabilize.errorAngleI Stabilize.axisPID
       Stabilize.set_lastGyro Stabilize.set_delta1 Stabilize.set_delta2
       Stabilize.set_errorGyroI Stabilize.set_errorAngleI
       Stabilize.set_axisPID
       Stabilize.l_error Stabilize.l_PTermGYRO Stabilize.l_ITermGYRO
       Stabilize.l_PTermACC Stabilize.l_ITermACC Stabilize.l_prop
       Stabilize.l_PTerm Stabilize.l_ITerm Stabilize.l_DTerm].

(** Three stores of one value at the indices 0, 1, 2 of an array of three
    (or, for [errorAngleI], of two). *)
Lemma lookup_total_store3 `{!Inhabited A} (l : list A) (v : A) (j : nat) :
  (j < length l)%nat -> (length l <= 3)%nat ->
  <[2%nat := v]> (<[1%nat := v]> (<[0%nat := v]> l)) !!! j = v.
Proof.
  intros Hj Hl.
  destruct l as [| a [| b [| d [| e l]]]]; cbn in Hj, Hl; try lia;
    destruct j as [| [| [| j]]]; cbn in Hj; try lia; reflexivity.
Qed.

Section StabilizeFacts.

Variable c : Stabilize.Config.

Lemma sized_resetIntegral s :
  Stabilize.sized s -> Stabilize.sized (Stabilize.resetIntegral s).
Proof.
  unfold Stabilize.sized, Stabilize.resetIntegral. stabilize_exec.
  rewrite !length_insert. tauto.
Qed.

Lemma sized_init mem :
  Stabilize.sized mem -> Stabilize.sized (Stabilize.init c mem).
Proof.
  intros H. apply sized_resetIntegral. revert H.
  unfold Stabilize.sized, Stabilize.init_axis. stabilize_exec.
  rewrite !length_insert. tauto.
Qed.

(** [resetIntegral] and [init] leave the three gyro accumulators at 0. *)
Lemma errorGyroI_resetIntegral s axis :
  Stabilize.sized s -> (axis < 3)%nat ->
  Stabilize.errorGyroI (Stabilize.resetIntegral s) !!! axis = 0.
Proof.
  intros (_ & _ & _ & _ & _ & _ & H & _) Hax.
  unfold Stabilize.resetIntegral. stabilize_exec.
  apply lookup_total_store3; lia.
Qed.

Lemma errorAngleI_resetIntegral s axis :
  Stabilize.sized s -> (axis < 2)%nat ->
  Stabilize.errorAngleI (Stabilize.resetIntegral s) !!! axis = 0.
Proof.
  intros (_ & _ & _ & _ & _ & _ & _ & H & _) Hax.
  unfold Stabilize.resetIntegral. stabilize_exec.
  destruct (Stabilize.errorAngleI s) as [| a [| b [| d l]]];
    cbn in H; try lia.
  destruct axis as [| [| axis]]; [reflexivity | reflexivity | lia].
Qed.

Variables rcCommand gyroADC angle : list Z.

(** The integral accumulators after one turn of the loop. *)
Lemma errorGyroI_update_axis axis s :
  Stabilize.errorGyroI
    (fst (Stabilize.update_axis c rcCommand gyroADC angle axis s))
  = let e := Stabilize.l_error
               (snd (Stabilize.update_axis c rcCommand gyroADC angle axis s))
    in
    let l := <[axis := constrain
                         (I32.add (Stabilize.errorGyroI s !!! axis) e)
                         (-16000) 16000]> (Stabilize.errorGyroI s) in
    if reset_condition rcCommand gyroADC axis then <[axis := 0]> l else l.
Proof.
  unfold Stabilize.update_axis, reset_condition.
  destruct (_ || _); destruct (axis <? 2)%nat; stabilize_exec; reflexivity.
Qed.

Lemma sized_update_axis axis s :
  Stabilize.sized s ->
  Stabilize.sized
    (fst (Stabilize.update_axis c rcCommand gyroADC angle axis s)).
Proof.
  unfold Stabilize.sized, Stabilize.update_axis.
  destruct (_ || _); destruct (axis <? 2)%nat; stabilize_exec;
    rewrite !length_insert; tauto.
Qed.

Lemma update_eq s :
  Stabilize.update c rcCommand gyroADC angle s
  = Stabilize.yaw_clamp rcCommand
      (fst (Stabilize.update_axis c rcCommand gyroADC angle 2
         (fst (Stabilize.update_axis c rcCommand gyroADC angle 1
            (fst (Stabilize.update_axis c rcCommand gyroADC angle 0 s)))))).
Proof. reflexivity. Qed.

Lemma sized_yaw_clamp s :
  Stabilize.sized s -> Stabilize.sized (Stabilize.yaw_clamp rcCommand s).
Proof.
  unfold Stabilize.sized, Stabilize.yaw_clamp. stabilize_exec.
  rewrite !length_insert. tauto.
Qed.

Lemma errorGyroI_yaw_clamp s :
  Stabilize.errorGyroI (Stabilize.yaw_clamp rcCommand s)
  = Stabilize.errorGyroI s.
Proof. reflexivity. Qed.

Lemma sized_update s :
  Stabilize.sized s ->
  Stabilize.sized (Stabilize.update c rcCommand gyroADC angle s).
Proof.
  intros H. rewrite update_eq.
  by apply sized_yaw_clamp, sized_update_axis, sized_update_axis,
    sized_update_axis.
Qed.

Lemma windup_update_axis axis s :
  windup_ok s ->
  windup_ok (fst (Stabilize.update_axis c rcCommand gyroADC angle axis s)).
Proof.
  intros H j Hj. rewrite errorGyroI_update_axis. cbv zeta.
  destruct (reset_condition rcCommand gyroADC axis).
  - apply (lookup_total_store (fun v => -16000 <= v <= 16000)); [lia |].
    apply (lookup_total_store (fun v => -16000 <= v <= 16000));
      [| by apply H].
    apply constrain_range; lia.
  - apply (lookup_total_store (fun v => -16000 <= v <= 16000));
      [| by apply H].
    apply constrain_range; lia.
Qed.

Lemma windup_update s :
  windup_ok s ->
  windup_ok (Stabilize.update c rcCommand gyroADC angle s).
Proof.
  intros H axis Hax. rewrite update_eq, errorGyroI_yaw_clamp.
  revert axis Hax.
  by apply windup_update_axis, windup_update_axis, windup_update_axis.
Qed.

End StabilizeFacts.

Lemma windup_step c s k :
  Stabilize.sized s /\ windup_ok s ->
  Stabilize.sized (Stabilize.step c s k) /\ windup_ok (Stabilize.step c s k).
Proof.
  intros [Hs Hw]. destruct k as [rcCommand gyroADC angle |]; cbn.
  - split; [by apply sized_update | by apply windup_update].
  - split; [by apply sized_resetIntegral |].
    intros axis Hax. rewrite errorGyroI_resetIntegral by done. lia.
Qed.

Lemma windup_run c ks : forall s,
  Stabilize.sized s /\ windup_ok s ->
  Stabilize.sized (Stabilize.run c ks s) /\ windup_ok (Stabilize.run c ks s).
Proof.
  induction ks as [| k ks IH]; intros s H; [exact H |].
  cbn. apply IH, windup_step, H.
Qed.

Lemma windup_init c mem :
  Stabilize.sized mem -> windup_ok (Stabilize.init c mem).
Proof.
  intros H axis Hax. unfold Stabilize.init.
  rewrite errorGyroI_resetIntegral; [lia | | done].
  revert H. unfold Stabilize.sized, Stabilize.init_axis. stabilize_exec.
  rewrite !length_insert. tauto.
Qed.

(** On 16-bit inputs and a non-zero 8-bit gain, starting within the windup
    bound, the 32-bit arithmetic of lines 51 to 56 is exact: nothing
    wraps on the way to the clamp. *)
Lemma integral_arithmetic_exact c rcCommand gyroADC angle axis s :
  (axis < 3)%nat -> windup_ok s ->
  in_int16 (rcCommand !!! axis) -> in_int16 (gyroADC !!! axis) ->
  0 < Stabilize.rate_p s !!! axis < 256 ->
  let l := snd (Stabilize.update_axis c rcCommand gyroADC angle axis s) in
  Stabilize.l_error l
  = rcCommand !!! axis * 10 * 8 ÷ Stabilize.rate_p s !!! axis
    - gyroADC !!! axis
  /\ I32.add (Stabilize.errorGyroI s !!! axis) (Stabilize.l_error l)
     = Stabilize.errorGyroI s !!! axis + Stabilize.l_error l.
Proof.
  intros Hax Hw Hrc Hg Hp l.
  assert (El : Stabilize.l_error l
               = I32.sub (I32.div (I32.mul (I32.mul (rcCommand !!! axis) 10) 8)
                                  (Stabilize.rate_p s !!! axis))
                         (gyroADC !!! axis)).
  { subst l. unfold Stabilize.update_axis.
    destruct (_ || _); destruct (axis <? 2)%nat; stabilize_exec; reflexivity. }
  specialize (Hw axis Hax). unfold in_int16 in *.
  set (rc := rcCommand !!! axis) in *. set (g := gyroADC !!! axis) in *.
  set (p := Stabilize.rate_p s !!! axis) in *.
  assert (Hq : Z.abs (rc * 10 * 8 ÷ p) <= 2621440).
  { apply quot_bound; lia. }
  assert (E : Stabilize.l_error l = rc * 10 * 8 ÷ p - g).
  { rewrite El. unfold I32.sub, I32.div, I32.mul.
    rewrite (int32_id (rc * 10)) by (unfold in_int32; lia).
    rewrite (int32_id (rc * 10 * 8)) by (unfold in_int32; lia).
    rewrite (int32_id (_ ÷ _)) by (unfold in_int32; lia).
    apply int32_id. unfold in_int32. lia. }
  split; [exact E |].
  unfold I32.add. apply int32_id. unfold in_int32. lia.
Qed.

(** ** The floating-point controller *)

#[local] Open Scope Q_scope.

Lemma Qgtb_spec a b : reflect (b < a) (Qgtb a b).
Proof.
  unfold Qgtb. destruct (Qle_bool a b) eqn:E; constructor.
  - apply Qle_bool_iff in E. lra.
  - apply Qnot_le_lt. intros H. apply Qle_bool_iff in H. congruence.
Qed.

Lemma Qltb_spec a b : reflect (a < b) (Qltb a b).
Proof. apply Qgtb_spec. Qed.

Lemma constrainMinMax_range val lo hi :
  lo <= hi -> lo <= Filter.constrainMinMax val lo hi <= hi.
Proof.
  intros H. unfold Filter.constrainMinMax.
  destruct (Qltb_spec val lo); [lra |].
  destruct (Qgtb_spec val hi); lra.
Qed.

Lemma constrainAbs_range val m :
  0 <= m -> Qabs (Filter.constrainAbs val m) <= m.
Proof.
  intros H. apply Qabs_Qle_condition, constrainMinMax_range. lra.
Qed.

(** A clamp whose bound is not below the magnitude of the value returns
    the value. *)
Lemma constrainAbs_id val m : Qabs val <= m -> Filter.constrainAbs val m = val.
Proof.
  intros H. apply Qabs_Qle_condition in H.
  unfold Filter.constrainAbs, Filter.constrainMinMax.
  destruct (Qltb_spec val (- m)); [lra |].
  destruct (Qgtb_spec val m); [lra | reflexivity].
Qed.

Ltac stabilizer_exec :=
  cbv zeta;
  cbn [fst snd fold_left
       Stabilizer._levelP Stabilizer._gyroCyclicP Stabilizer._gyroCyclicI
       Stabilizer._gyroCyclicD Stabilizer._gyroYawP Stabilizer._gyroYawI
       Stabilizer.lastGyro Stabilizer.gyroDelta1 Stabilizer.gyroDelta2
       Stabilizer.errorGyroI Stabilizer.bigGyroRate Stabilizer.maxArmingAngle
       Stabilizer.set_lastGyro Stabilizer.set_gyroDelta1
       Stabilizer.set_gyroDelta2 Stabilizer.set_errorGyroI
       Stabilizer.set_bigGyroRate Stabilizer.set_maxArmingAngle
       Stabilizer.roll Stabilizer.pitch Stabilizer.yaw
       Stabilizer.set_roll Stabilizer.set_pitch Stabilizer.set_yaw].

Section StabilizerFacts.

Lemma errorGyroI_computeITermGyro rateP rateI rcCommand gyro axis s :
  Stabilizer.errorGyroI
    (snd (Stabilizer.computeITermGyro rateP rateI rcCommand gyro axis s))
  = let l := <[axis := Filter.constrainAbs
                         (Stabilizer.errorGyroI s !!! axis
                          + (rcCommand * rateP - gyro !!! axis))
                         Stabilizer.gyroWindupMax]>
               (Stabilizer.errorGyroI s) in
    if reset_conditionQ rcCommand gyro axis s then <[axis := 0]> l else l.
Proof.
  unfold Stabilizer.computeITermGyro, reset_conditionQ. stabilizer_exec.
  destruct (_ || _); reflexivity.
Qed.

(** What [computeITermGyro] leaves alone. *)
Lemma frame_computeITermGyro rateP rateI rcCommand gyro axis s :
  let s' :=
    snd (Stabilizer.computeITermGyro rateP rateI rcCommand gyro axis s) in
  Stabilizer._levelP s' = Stabilizer._levelP s
  /\ Stabilizer._gyroCyclicP s' = Stabilizer._gyroCyclicP s
  /\ Stabilizer._gyroCyclicI s' = Stabilizer._gyroCyclicI s
  /\ Stabilizer._gyroCyclicD s' = Stabilizer._gyroCyclicD s
  /\ Stabilizer._gyroYawP s' = Stabilizer._gyroYawP s
  /\ Stabilizer._gyroYawI s' = Stabilizer._gyroYawI s
  /\ Stabilizer.lastGyro s' = Stabilizer.lastGyro s
  /\ Stabilizer.gyroDelta1 s' = Stabilizer.gyroDelta1 s
  /\ Stabilizer.gyroDelta2 s' = Stabilizer.gyroDelta2 s
  /\ Stabilizer.bigGyroRate s' = Stabilizer.bigGyroRate s
  /\ Stabilizer.maxArmingAngle s' = Stabilizer.maxArmingAngle s.
Proof.
  unfold Stabilizer.computeITermGyro. stabilizer_exec.
  destruct (_ || _); stabilizer_exec; repeat split.
Qed.

Lemma errorGyroI_computeCyclicPid rcCommand prop eulerAngles gyro axis s :
  Stabilizer.errorGyroI
    (snd (Stabilizer.computeCyclicPid rcCommand prop eulerAngles gyro axis
                                      s))
  = Stabilizer.errorGyroI
      (snd (Stabilizer.computeITermGyro (Stabilizer._gyroCyclicP s)
              (Stabilizer._gyroCyclicI s) rcCommand gyro axis s)).
Proof.
  unfold Stabilizer.computeCyclicPid.
  destruct (Stabilizer.computeITermGyro _ _ _ _ _ _) as [i s'].
  reflexivity.
Qed.

Lemma bigGyroRate_computeCyclicPid rcCommand prop eulerAngles gyro axis s :
  Stabilizer.bigGyroRate
    (snd (Stabilizer.computeCyclicPid rcCommand prop eulerAngles gyro axis
                                      s))
  = Stabilizer.bigGyroRate s.
Proof.
  unfold Stabilizer.computeCyclicPid.
  pose proof (frame_computeITermGyro (Stabilizer._gyroCyclicP s)
                (Stabilizer._gyroCyclicI s) rcCommand gyro axis s) as F.
  destruct (Stabilizer.computeITermGyro _ _ _ _ _ _) as [i s'].
  cbn in F |- *. tauto.
Qed.

Lemma windup_computeITermGyro rateP rateI rcCommand gyro axis s :
  windup_okQ s ->
  windup_okQ
    (snd (Stabilizer.computeITermGyro rateP rateI rcCommand gyro axis s)).
Proof.
  intros H j Hj. rewrite errorGyroI_computeITermGyro. cbv zeta.
  assert (Z : Qabs 0 <= Stabilizer.gyroWindupMax) by (by cbv).
  destruct (reset_conditionQ _ _ _ _).
  - apply (lookup_total_store
             (fun v => Qabs v <= Stabilizer.gyroWindupMax)); [exact Z |].
    apply (lookup_total_store
             (fun v => Qabs v <= Stabilizer.gyroWindupMax)); [| by apply H].
    apply constrainAbs_range. by cbv.
  - apply (lookup_total_store
             (fun v => Qabs v <= Stabilizer.gyroWindupMax)); [| by apply H].
    apply constrainAbs_range. by cbv.
Qed.

Lemma windup_computeCyclicPid rcCommand prop eulerAngles gyro axis s :
  windup_okQ s ->
  windup_okQ
    (snd (Stabilizer.computeCyclicPid rcCommand prop eulerAngles gyro axis
                                      s)).
Proof.
  intros H j Hj. rewrite errorGyroI_computeCyclicPid.
  by apply windup_computeITermGyro.
Qed.

(** [updateDemands] as the composition of its three axis computations. *)
Lemma snd_updateDemands eulerAngles gyroRates demands s :
  snd (Stabilizer.updateDemands eulerAngles gyroRates demands s)
  = let prop := Stabilizer.prop_of demands in
    let s1 := snd (Stabilizer.computeCyclicPid (Stabilizer.roll demands)
                     prop eulerAngles gyroRates AXIS_ROLL s) in
    let s2 := snd (Stabilizer.computeCyclicPid (Stabilizer.pitch demands)
                     prop eulerAngles gyroRates AXIS_PITCH s1) in
    snd (Stabilizer.computeITermGyro (Stabilizer._gyroYawP s2)
           (Stabilizer._gyroYawI s2) (Stabilizer.yaw demands) gyroRates
           AXIS_YAW s2).
Proof.
  unfold Stabilizer.updateDemands. cbv zeta.
  destruct (Stabilizer.computeCyclicPid (Stabilizer.roll demands) _ _ _ _ _)
    as [r s1]. stabilizer_exec.
  destruct (Stabilizer.computeCyclicPid (Stabilizer.pitch demands) _ _ _ _ _)
    as [p s2]. stabilizer_exec.
  destruct (Stabilizer.computeITermGyro _ _ _ _ _ _) as [i s3].
  reflexivity.
Qed.

Lemma windup_updateDemands eulerAngles gyroRates demands s :
  windup_okQ s ->
  windup_okQ (snd (Stabilizer.updateDemands eulerAngles gyroRates demands s)).
Proof.
  intros H. rewrite snd_updateDemands. cbv zeta.
  by apply windup_computeITermGyro, windup_computeCyclicPid,
    windup_computeCyclicPid.
Qed.

Lemma errorGyroI_resetIntegralQ s axis :
  length (Stabilizer.errorGyroI s) = 3%nat -> (axis < 3)%nat ->
  Stabilizer.errorGyroI (Stabilizer.resetIntegral s) !!! axis = 0.
Proof.
  intros H Hax. unfold Stabilizer.resetIntegral. stabilizer_exec.
  apply lookup_total_store3; lia.
Qed.

End StabilizerFacts.

(** ** The control loop *)

#[local] Open Scope Z_scope.

Ltac hackflight_exec :=
  cbv zeta;
  cbn [Hackflight.armed Hackflight.calibratingG
       Hackflight.calibratingGyroCycles Hackflight.calibratingAccCycles
       Hackflight.haveSmallAngle Hackflight.stab Hackflight.accCalibrated
       Hackflight.calibratingA Hackflight.currentTime Hackflight.taskOrder
       Hackflight.on Hackflight.trace
       Hackflight.set_armed Hackflight.set_calibratingG
       Hackflight.set_haveSmallAngle Hackflight.set_stab
       Hackflight.set_accCalibrated Hackflight.set_calibratingA
       Hackflight.set_currentTime Hackflight.set_taskOrder Hackflight.set_on
       Hackflight.emit negb andb orb].

Section HackflightFacts.

Variable c : Hackflight.Config.
Variable i : Hackflight.Inputs.

(** The IMU block and the extras block never touch the arm flag. *)
Lemma armed_imu_block s :
  Hackflight.armed (Hackflight.imu_block c i s) = Hackflight.armed s.
Proof.
  unfold Hackflight.imu_block.
  repeat match goal with
         | |- context [if ?b then _ else _] => destruct b
         end; reflexivity.
Qed.

Lemma armed_extras_block s :
  Hackflight.armed (Hackflight.extras_block i s) = Hackflight.armed s.
Proof.
  unfold Hackflight.extras_block. hackflight_exec.
  destruct (_ >=? _); reflexivity.
Qed.

(** The arm flag at the end of [update] is the one the receiver block
    leaves, or the old one when the receiver block does not run. *)
Lemma armed_update s :
  Hackflight.armed (Hackflight.update c i s)
  = if Hackflight.rcTask_due i || Hackflight.rcSerialReady i
    then Hackflight.armed
           (Hackflight.rc_block (Hackflight.codes c) (Hackflight.rc i) s)
    else Hackflight.armed s.
Proof.
  unfold Hackflight.update. cbv zeta.
  destruct (Hackflight.imuTask_due i); [rewrite armed_imu_block |];
    destruct (_ || _); cbn [Hackflight.armed Hackflight.set_currentTime];
    try reflexivity; apply armed_extras_block.
Qed.

End HackflightFacts.

Section ReceiverBlock.

Variable k : Hackflight.StickCodes.
Variable r : Hackflight.RC.

(** While armed, the block of [rc.changed()] clears the flag exactly on
    the disarm gesture. *)
Lemma armed_on_sticks_changed_armed s :
  Hackflight.armed s = true ->
  Hackflight.armed (Hackflight.on_sticks_changed k r s)
  = negb (Hackflight.sticks r =? Hackflight.gesture_disarm k).
Proof.
  intros Ea. unfold Hackflight.on_sticks_changed. rewrite Ea.
  destruct (_ =? _); hackflight_exec; [reflexivity | exact Ea].
Qed.

(** While disarmed, it sets the flag exactly under the arm gesture and the
    guards, the gyro countdown being read after the gyro-calibration
    gesture has been handled. *)
Lemma armed_on_sticks_changed_disarmed s :
  Hackflight.armed s = false ->
  Hackflight.armed (Hackflight.on_sticks_changed k r s)
  = (Hackflight.sticks r =? Hackflight.gesture_arm k)
    && ((if Hackflight.sticks r =? Hackflight.gesture_gyro_calibration k
         then Hackflight.calibratingGyroCycles s
         else Hackflight.calibratingG s) =? 0)
    && Hackflight.accCalibrated s
    && (Hackflight.auxState r =? 0).
Proof.
  destruct s as [a g gc ac h st acc ca ct to o tr]. cbn. intros ->.
  unfold Hackflight.on_sticks_changed. hackflight_exec.
  destruct (Hackflight.sticks r =? Hackflight.gesture_gyro_calibration k),
    (Hackflight.sticks r =? Hackflight.gesture_arm k),
    (Hackflight.sticks r =? Hackflight.gesture_accel_calibration k);
    hackflight_exec; try reflexivity;
    destruct (_ =? 0), acc; hackflight_exec; try reflexivity;
    destruct (_ =? 0); reflexivity.
Qed.

Lemma before_sticks_flight s :
  Hackflight.armed (before_sticks r s) = Hackflight.armed s
  /\ Hackflight.calibratingG (before_sticks r s) = Hackflight.calibratingG s
  /\ Hackflight.calibratingGyroCycles (before_sticks r s)
     = Hackflight.calibratingGyroCycles s
  /\ Hackflight.accCalibrated (before_sticks r s)
     = Hackflight.accCalibrated s.
Proof.
  destruct s as [a g gc ac h st acc ca ct to o tr]. unfold before_sticks.
  destruct a, (Hackflight.throttleIsDown r); repeat split.
Qed.

Lemma rc_block_eq s :
  Hackflight.rc_block k r s
  = Hackflight.emit Hackflight.extrasCheckSwitch
      (if Hackflight.changed r
       then Hackflight.on_sticks_changed k r (before_sticks r s)
       else before_sticks r s).
Proof. reflexivity. Qed.

(** The arm flag after the receiver block. *)
Lemma armed_rc_block_armed s :
  Hackflight.armed s = true ->
  Hackflight.armed (Hackflight.rc_block k r s)
  = negb (Hackflight.changed r
          && (Hackflight.sticks r =? Hackflight.gesture_disarm k)).
Proof.
  intros Ea. rewrite rc_block_eq. cbn [Hackflight.armed Hackflight.emit].
  destruct (before_sticks_flight s) as (E & _).
  destruct (Hackflight.changed r); cbn [andb negb].
  - apply armed_on_sticks_changed_armed. congruence.
  - congruence.
Qed.

Lemma armed_rc_block_disarmed s :
  Hackflight.armed s = false ->
  Hackflight.armed (Hackflight.rc_block k r s)
  = Hackflight.changed r
    && ((Hackflight.sticks r =? Hackflight.gesture_arm k)
        && ((if Hackflight.sticks r
                =? Hackflight.gesture_gyro_calibration k
             then Hackflight.calibratingGyroCycles s
             else Hackflight.calibratingG s) =? 0)
        && Hackflight.accCalibrated s
        && (Hackflight.auxState r =? 0)).
Proof.
  intros Ea. rewrite rc_block_eq. cbn [Hackflight.armed Hackflight.emit].
  destruct (before_sticks_flight s) as (E & Eg & Ec & Eacc).
  destruct (Hackflight.changed r); cbn [andb].
  - rewrite armed_on_sticks_changed_disarmed by congruence.
    by rewrite Eg, Ec, Eacc.
  - congruence.
Qed.

End ReceiverBlock.

(** ** Sequences of calls *)

#[local] Open Scope Q_scope.

Lemma length_errorGyroI_computeITermGyro rateP rateI rcCommand gyro axis s :
  length (Stabilizer.errorGyroI
            (snd (Stabilizer.computeITermGyro rateP rateI rcCommand gyro axis
                                              s)))
  = length (Stabilizer.errorGyroI s).
Proof.
  rewrite errorGyroI_computeITermGyro. cbv zeta.
  destruct (reset_conditionQ _ _ _ _); by rewrite !length_insert.
Qed.

Lemma length_errorGyroI_updateDemands eulerAngles gyroRates demands s :
  length (Stabilizer.errorGyroI
            (snd (Stabilizer.updateDemands eulerAngles gyroRates demands s)))
  = length (Stabilizer.errorGyroI s).
Proof.
  rewrite snd_updateDemands. cbv zeta.
  rewrite length_errorGyroI_computeITermGyro.
  rewrite errorGyroI_computeCyclicPid, length_errorGyroI_computeITermGyro.
  rewrite errorGyroI_computeCyclicPid, length_errorGyroI_computeITermGyro.
  reflexivity.
Qed.

Lemma length_errorGyroI_resetIntegral s :
  length (Stabilizer.errorGyroI (Stabilizer.resetIntegral s))
  = length (Stabilizer.errorGyroI s).
Proof.
  unfold Stabilizer.resetIntegral. stabilizer_exec. by rewrite !length_insert.
Qed.

Lemma windup_stepQ s k :
  length (Stabilizer.errorGyroI s) = 3%nat /\ windup_okQ s ->
  length (Stabilizer.errorGyroI (Stabilizer.step s k)) = 3%nat
  /\ windup_okQ (Stabilizer.step s k).
Proof.
  intros [Hs Hw].
  destruct k as [eulerAngles gyroRates demands |]; cbn [Stabilizer.step].
  - split; [by rewrite length_errorGyroI_updateDemands |].
    by apply windup_updateDemands.
  - split; [by rewrite length_errorGyroI_resetIntegral |].
    intros axis Hax. rewrite errorGyroI_resetIntegralQ by done. by cbv.
Qed.

Lemma windup_runQ ks : forall s,
  length (Stabilizer.errorGyroI s) = 3%nat /\ windup_okQ s ->
  length (Stabilizer.errorGyroI (Stabilizer.run ks s)) = 3%nat
  /\ windup_okQ (Stabilizer.run ks s).
Proof.
  unfold Stabilizer.run.
  induction ks as [| k ks IH]; intros s H; [exact H |].
  cbn [fold_left]. apply IH, windup_stepQ, H.
Qed.

Lemma length_errorGyroI_init s :
  length (Stabilizer.errorGyroI (Stabilizer.init s))
  = length (Stabilizer.errorGyroI s).
Proof.
  unfold Stabilizer.init. cbv zeta. rewrite length_errorGyroI_resetIntegral.
  reflexivity.
Qed.

Lemma windup_initQ s :
  length (Stabilizer.errorGyroI s) = 3%nat -> windup_okQ (Stabilizer.init s).
Proof.
  intros H axis Hax. unfold Stabilizer.init. cbv zeta.
  rewrite errorGyroI_resetIntegralQ; [by cbv | exact H | exact Hax].
Qed.

(** C1.  Whatever calls of [update] (with any demands, rates and angles) and
    of [resetIntegral] follow [init], every integral accumulator
    [errorGyroI[axis]] is within the windup bound when the call returns:
    16000 in the fixed-point controller, [gyroWindupMax] in the
    floating-point one. *)
Theorem C1_errorGyroI_within_windup_bound :
  (forall (c : Stabilize.Config) (mem : Stabilize.t)
          (ks : list Stabilize.call) (axis : nat),
      Stabilize.sized mem -> (axis < 3)%nat ->
      (Z.abs (Stabilize.errorGyroI
                (Stabilize.run c ks (Stabilize.init c mem)) !!! axis)
       <= 16000)%Z)
  /\ (forall (levelP gyroCyclicP gyroCyclicI gyroCyclicD gyroYawP gyroYawI : Q)
             (mem : Stabilizer.t) (ks : list Stabilizer.call) (axis : nat),
         Stabilizer.sized mem -> (axis < 3)%nat ->
         Qabs (Stabilizer.errorGyroI
                 (Stabilizer.run ks
                    (Stabilizer.init
                       (Stabilizer.Stabilizer levelP gyroCyclicP gyroCyclicI
                          gyroCyclicD gyroYawP gyroYawI mem))) !!! axis)
         <= Stabilizer.gyroWindupMax).
Proof.
  split.
  - intros c mem ks axis Hm Hax.
    destruct (windup_run c ks (Stabilize.init c mem)) as [_ H].
    { split; [by apply sized_init | by apply windup_init]. }
    specialize (H axis Hax). lia.
  - intros levelP gyroCyclicP gyroCyclicI gyroCyclicD gyroYawP gyroYawI mem ks
      axis (_ & _ & _ & Hm) Hax.
    set (s0 := Stabilizer.Stabilizer _ _ _ _ _ _ _).
    destruct (windup_runQ ks (Stabilizer.init s0)) as [_ H].
    { split; [by rewrite length_errorGyroI_init | by apply windup_initQ]. }
    exact (H axis Hax).
Qed.

Lemma C1_errorGyroI_within_windup_bound_witness :
  (Z.abs (Stabilize.errorGyroI
            (Stabilize.run example_config
               [Stabilize.Update [500; -500; 90; 1500] [-600; 600; 30]
                                 [100; -200; 0];
                Stabilize.Update [500; -500; 90; 1500] [-600; 600; 30]
                                 [100; -200; 0];
                Stabilize.ResetIntegral;
                Stabilize.Update [500; -500; 10; 1500] [-639; 640; -3]
                                 [100; -200; 0]]
               (Stabilize.init example_config example_storage)) !!! 0%nat)
   <= 16000)%Z
  /\ Qabs (Stabilizer.errorGyroI
             (Stabilizer.run
                [Stabilizer.UpdateDemands [0; 0; 0] [-(1 # 2); 1 # 2; 0]
                   {| Stabilizer.roll := 1; Stabilizer.pitch := -1;
                      Stabilizer.yaw := 1 # 16 |};
                 Stabilizer.ResetIntegral;
                 Stabilizer.UpdateDemands [0; 0; 0] [-(1 # 2); 1 # 2; 0]
                   {| Stabilizer.roll := 1; Stabilizer.pitch := -1;
                      Stabilizer.yaw := 1 # 16 |}]
                (Stabilizer.init
                   (Stabilizer.Stabilizer (1 # 4) (1 # 4) (1 # 64) (3 # 8)
                      (17 # 16) (1 # 128) example_storageQ))) !!! 2%nat)
     <= Stabilizer.gyroWindupMax.
Proof.
  split.
  - apply (proj1 C1_errorGyroI_within_windup_bound);
      [repeat split | lia].
  - apply (proj2 C1_errorGyroI_within_windup_bound);
      [repeat split | lia].
Defined.

(** ** The reset of the integral on a big rate or a big yaw demand *)

#[local] Open Scope Z_scope.

Lemma I32_abs_int16 z : in_int16 z -> I32.abs z = Z.abs z.
Proof.
  intros H. unfold I32.abs. apply int32_id. unfold in_int16, in_int32 in *.
  lia.
Qed.

Section StabilizeReset.

Variable c : Stabilize.Config.
Variables rcCommand gyroADC angle : list Z.

Lemma errorGyroI_update_axis_other axis j s :
  axis <> j ->
  Stabilize.errorGyroI
    (fst (Stabilize.update_axis c rcCommand gyroADC angle axis s)) !!! j
  = Stabilize.errorGyroI s !!! j.
Proof.
  intros Hne. rewrite errorGyroI_update_axis. cbv zeta.
  destruct (reset_condition rcCommand gyroADC axis);
    by rewrite !list_lookup_total_insert_ne.
Qed.

Lemma errorGyroI_update_axis_reset axis s :
  (axis < length (Stabilize.errorGyroI s))%nat ->
  reset_condition rcCommand gyroADC axis = true ->
  Stabilize.errorGyroI
    (fst (Stabilize.update_axis c rcCommand gyroADC angle axis s)) !!! axis
  = 0.
Proof.
  intros Hlt Hr. rewrite errorGyroI_update_axis. cbv zeta. rewrite Hr.
  apply list_lookup_total_insert_eq. by rewrite length_insert.
Qed.

Lemma errorGyroI_update_reset axis s :
  Stabilize.sized s -> (axis < 3)%nat ->
  reset_condition rcCommand gyroADC axis = true ->
  Stabilize.errorGyroI (Stabilize.update c rcCommand gyroADC angle s)
    !!! axis = 0.
Proof.
  intros Hs Hax Hr. rewrite update_eq, errorGyroI_yaw_clamp.
  pose proof (sized_update_axis c rcCommand gyroADC angle 0 s Hs) as Hs1.
  pose proof (sized_update_axis c rcCommand gyroADC angle 1 _ Hs1) as Hs2.
  assert (L : forall t, Stabilize.sized t ->
                        length (Stabilize.errorGyroI t) = 3%nat).
  { by intros t (_ & _ & _ & _ & _ & _ & H & _). }
  destruct axis as [| [| [| axis]]]; [| | | lia].
  - rewrite !errorGyroI_update_axis_other by lia.
    apply errorGyroI_update_axis_reset; [rewrite L by done; lia | done].
  - rewrite errorGyroI_update_axis_other by lia.
    apply errorGyroI_update_axis_reset; [rewrite L by done; lia | done].
  - apply errorGyroI_update_axis_reset; [rewrite L by done; lia | done].
Qed.

End StabilizeReset.

#[local] Open Scope Q_scope.

Ltac axis_lia := unfold AXIS_ROLL, AXIS_PITCH, AXIS_YAW in *; lia.

Section StabilizerReset.

Variables eulerAngles gyroRates : list Q.

Lemma errorGyroI_computeITermGyro_other rateP rateI rcCommand axis j s :
  axis <> j ->
  Stabilizer.errorGyroI
    (snd (Stabilizer.computeITermGyro rateP rateI rcCommand gyroRates axis
                                      s)) !!! j
  = Stabilizer.errorGyroI s !!! j.
Proof.
  intros Hne. rewrite errorGyroI_computeITermGyro. cbv zeta.
  destruct (reset_conditionQ _ _ _ _);
    by rewrite !list_lookup_total_insert_ne.
Qed.

Lemma errorGyroI_computeITermGyro_reset rateP rateI rcCommand axis s :
  (axis < length (Stabilizer.errorGyroI s))%nat ->
  reset_conditionQ rcCommand gyroRates axis s = true ->
  Stabilizer.errorGyroI
    (snd (Stabilizer.computeITermGyro rateP rateI rcCommand gyroRates axis
                                      s)) !!! axis
  = 0.
Proof.
  intros Hlt Hr. rewrite errorGyroI_computeITermGyro. cbv zeta. rewrite Hr.
  apply list_lookup_total_insert_eq. by rewrite length_insert.
Qed.

Lemma length_errorGyroI_computeCyclicPid rcCommand prop axis s :
  length (Stabilizer.errorGyroI
            (snd (Stabilizer.computeCyclicPid rcCommand prop eulerAngles
                    gyroRates axis s)))
  = length (Stabilizer.errorGyroI s).
Proof.
  by rewrite errorGyroI_computeCyclicPid,
    length_errorGyroI_computeITermGyro.
Qed.

(** The condition of line 90 in the state a cyclic computation leaves is
    the condition in the state it started from. *)
Lemma reset_conditionQ_computeCyclicPid rc prop axis rcCommand j s :
  reset_conditionQ rcCommand gyroRates j
    (snd (Stabilizer.computeCyclicPid rc prop eulerAngles gyroRates axis s))
  = reset_conditionQ rcCommand gyroRates j s.
Proof.
  unfold reset_conditionQ. by rewrite bigGyroRate_computeCyclicPid.
Qed.

Lemma errorGyroI_updateDemands_reset demands axis s :
  length (Stabilizer.errorGyroI s) = 3%nat -> (axis < 3)%nat ->
  reset_conditionQ
    (if (axis =? AXIS_YAW)%nat then Stabilizer.yaw demands else 0)
    gyroRates axis s = true ->
  Stabilizer.errorGyroI
    (snd (Stabilizer.updateDemands eulerAngles gyroRates demands s))
    !!! axis = 0.
Proof.
  intros Hs Hax Hr. rewrite snd_updateDemands. cbv zeta.
  destruct axis as [| [| [| axis]]]; [| | | lia].
  - rewrite errorGyroI_computeITermGyro_other by axis_lia.
    rewrite errorGyroI_computeCyclicPid.
    rewrite errorGyroI_computeITermGyro_other by axis_lia.
    rewrite errorGyroI_computeCyclicPid.
    apply errorGyroI_computeITermGyro_reset; [rewrite Hs; axis_lia |].
    revert Hr. unfold reset_conditionQ. cbn [Nat.eqb andb]. done.
  - rewrite errorGyroI_computeITermGyro_other by axis_lia.
    rewrite errorGyroI_computeCyclicPid.
    apply errorGyroI_computeITermGyro_reset.
    + rewrite length_errorGyroI_computeCyclicPid, Hs. axis_lia.
    + rewrite reset_conditionQ_computeCyclicPid.
      revert Hr. unfold reset_conditionQ. cbn [Nat.eqb andb]. done.
  - apply errorGyroI_computeITermGyro_reset.
    + rewrite !length_errorGyroI_computeCyclicPid, Hs. axis_lia.
    + by rewrite !reset_conditionQ_computeCyclicPid.
Qed.

End StabilizerReset.

(** C6.  On every update and every axis: if the magnitude of the measured
    rate on the axis exceeds the big-rate threshold, or the axis is yaw and
    the magnitude of the pilot's yaw demand exceeds the big-yaw-demand
    threshold, the accumulator [errorGyroI[axis]] is zero after the update.
    The thresholds are 640 and 100 in the fixed-point controller,
    [bigGyroRate] and [bigYawDemand], the float [0.1f], in the
    floating-point one. *)
Theorem C6_integral_reset_on_big_rate_or_yaw_demand :
  (forall (c : Stabilize.Config) (rcCommand gyroADC angle : list Z)
          (s : Stabilize.t) (axis : nat),
      Stabilize.sized s -> (axis < 3)%nat ->
      in_int16 (gyroADC !!! axis) -> in_int16 (rcCommand !!! DEMAND_YAW) ->
      (Z.abs (gyroADC !!! axis) > 640)%Z
      \/ (axis = AXIS_YAW /\ (Z.abs (rcCommand !!! DEMAND_YAW) > 100)%Z) ->
      Stabilize.errorGyroI (Stabilize.update c rcCommand gyroADC angle s)
        !!! axis = 0%Z)
  /\ (forall (eulerAngles gyroRates : list Q) (demands : Stabilizer.demands_t)
             (s : Stabilizer.t) (axis : nat),
         Stabilizer.sized s -> (axis < 3)%nat ->
         Stabilizer.bigGyroRate s < Qabs (gyroRates !!! axis)
         \/ (axis = AXIS_YAW
             /\ Stabilizer.bigYawDemand < Qabs (Stabilizer.yaw demands)) ->
         Stabilizer.errorGyroI
           (snd (Stabilizer.updateDemands eulerAngles gyroRates demands s))
           !!! axis = 0).
Proof.
  split.
  - intros c rcCommand gyroADC angle s axis Hs Hax Hg Hrc H.
    apply errorGyroI_update_reset; [done | done |].
    unfold reset_condition. rewrite (I32_abs_int16 _ Hg).
    destruct H as [H | [-> H]].
    + apply orb_true_iff. left. apply Z.gtb_lt. lia.
    + apply orb_true_iff. right. unfold AXIS_YAW, DEMAND_YAW in *.
      cbn [Nat.eqb andb]. rewrite (I32_abs_int16 _ Hrc). apply Z.gtb_lt.
      lia.
  - intros eulerAngles gyroRates demands s axis (_ & _ & _ & Hs) Hax H.
    apply errorGyroI_updateDemands_reset; [done | done |].
    unfold reset_conditionQ. apply orb_true_iff.
    destruct H as [H | [-> H]].
    + left. by destruct (Qgtb_spec (Qabs (gyroRates !!! axis))
                                   (Stabilizer.bigGyroRate s)).
    + right. cbn [Nat.eqb AXIS_YAW andb].
      by destruct (Qgtb_spec (Qabs (Stabilizer.yaw demands))
                             Stabilizer.bigYawDemand).
Qed.

Lemma C6_integral_reset_on_big_rate_or_yaw_demand_witness :
  Stabilize.errorGyroI
    (Stabilize.update example_config [400; 0; 101; 1500]%Z [641; 0; 0]%Z
       [0; 0; 0]%Z (Hackflight.stab example_disarmed)) !!! 2%nat = 0%Z
  /\ Stabilizer.errorGyroI
       (snd (Stabilizer.updateDemands [0; 0; 0] [7 # 10; 0; 0]
               {| Stabilizer.roll := 1 # 4; Stabilizer.pitch := 0;
                  Stabilizer.yaw := 0 |}
               (Stabilizer.set_errorGyroI [15; -3; 2] example_stabilizer)))
       !!! 0%nat = 0
  /\ Stabilizer.errorGyroI
       (snd (Stabilizer.updateDemands [0; 0; 0] [0; 0; 1 # 4]
               {| Stabilizer.roll := 0; Stabilizer.pitch := 0;
                  Stabilizer.yaw := - (1 # 8) |}
               (Stabilizer.set_errorGyroI [15; -3; 2] example_stabilizer)))
       !!! 2%nat = 0.
Proof.
  split; [| split].
  - apply (proj1 C6_integral_reset_on_big_rate_or_yaw_demand).
    + repeat split.
    + lia.
    + vm_compute. split; [discriminate | reflexivity].
    + vm_compute. split; [discriminate | reflexivity].
    + right. split; [reflexivity | vm_compute; reflexivity].
  - apply (proj2 C6_integral_reset_on_big_rate_or_yaw_demand).
    + repeat split.
    + lia.
    + left. vm_compute. reflexivity.
  - apply (proj2 C6_integral_reset_on_big_rate_or_yaw_demand).
    + repeat split.
    + lia.
    + right. split; [reflexivity | vm_compute; reflexivity].
Defined.

(** ** What [resetIntegral] leaves alone *)

(** C9.  [resetIntegral] changes the integral accumulators and nothing else:
    in both controllers the derivative history ([lastGyro] and the two
    deltas) and the gains are what they were, and so is every other member;
    the accumulators it writes are zero afterwards. *)
Theorem C9_resetIntegral_frame :
  (forall s : Stabilize.t,
      let s' := Stabilize.resetIntegral s in
      Stabilize.lastGyro s' = Stabilize.lastGyro s
      /\ Stabilize.delta1 s' = Stabilize.delta1 s
      /\ Stabilize.delta2 s' = Stabilize.delta2 s
      /\ Stabilize.rate_p s' = Stabilize.rate_p s
      /\ Stabilize.rate_i s' = Stabilize.rate_i s
      /\ Stabilize.rate_d s' = Stabilize.rate_d s
      /\ Stabilize.axisPID s' = Stabilize.axisPID s
      /\ Stabilize.errorGyroI s'
         = <[AXIS_YAW := 0%Z]>
             (<[AXIS_PITCH := 0%Z]>
                (<[AXIS_ROLL := 0%Z]> (Stabilize.errorGyroI s)))
      /\ Stabilize.errorAngleI s'
         = <[AXIS_PITCH := 0%Z]>
             (<[AXIS_ROLL := 0%Z]> (Stabilize.errorAngleI s)))
  /\ (forall s : Stabilizer.t,
         let s' := Stabilizer.resetIntegral s in
         Stabilizer.lastGyro s' = Stabilizer.lastGyro s
         /\ Stabilizer.gyroDelta1 s' = Stabilizer.gyroDelta1 s
         /\ Stabilizer.gyroDelta2 s' = Stabilizer.gyroDelta2 s
         /\ Stabilizer._levelP s' = Stabilizer._levelP s
         /\ Stabilizer._gyroCyclicP s' = Stabilizer._gyroCyclicP s
         /\ Stabilizer._gyroCyclicI s' = Stabilizer._gyroCyclicI s
         /\ Stabilizer._gyroCyclicD s' = Stabilizer._gyroCyclicD s
         /\ Stabilizer._gyroYawP s' = Stabilizer._gyroYawP s
         /\ Stabilizer._gyroYawI s' = Stabilizer._gyroYawI s
         /\ Stabilizer.bigGyroRate s' = Stabilizer.bigGyroRate s
         /\ Stabilizer.maxArmingAngle s' = Stabilizer.maxArmingAngle s
         /\ Stabilizer.errorGyroI s'
            = <[AXIS_YAW := 0]>
                (<[AXIS_PITCH := 0]>
                   (<[AXIS_ROLL := 0]> (Stabilizer.errorGyroI s)))).
Proof.
  split; intros s s'; subst s'.
  - unfold Stabilize.resetIntegral. stabilize_exec. repeat split.
  - unfold Stabilizer.resetIntegral. stabilizer_exec. repeat split.
Qed.

(** A reset between two updates keeps the derivative memory: the history
    the second update differentiates against is the one the first update
    stored. *)
Example resetIntegral_keeps_derivative_history :
  let s := Stabilize.update example_config [100; -50; 20; 1500]%Z
             [30; -20; 5]%Z [10; -20; 0]%Z
             (Stabilize.init example_config example_storage) in
  Stabilize.lastGyro (Stabilize.resetIntegral s) = [30; -20; 5]%Z
  /\ Stabilize.delta1 (Stabilize.resetIntegral s) = [30; -20; 5]%Z
  /\ Stabilize.errorGyroI s = [192; -91; 13]%Z
  /\ Stabilize.errorGyroI (Stabilize.resetIntegral s) = [0; 0; 0]%Z.
Proof. vm_compute. repeat split. Qed.

(** ** [init] followed by an update with zero inputs *)

#[local] Open Scope Q_scope.

(** The object [init] leaves, whatever its storage held. *)
Lemma Stabilizer_init_eq levelP gyroCyclicP gyroCyclicI gyroCyclicD gyroYawP
    gyroYawI mem :
  Stabilizer.sized mem ->
  Stabilizer.init
    (Stabilizer.Stabilizer levelP gyroCyclicP gyroCyclicI gyroCyclicD gyroYawP
                           gyroYawI mem)
  = {| Stabilizer._levelP := levelP; Stabilizer._gyroCyclicP := gyroCyclicP;
       Stabilizer._gyroCyclicI := gyroCyclicI;
       Stabilizer._gyroCyclicD := gyroCyclicD;
       Stabilizer._gyroYawP := gyroYawP; Stabilizer._gyroYawI := gyroYawI;
       Stabilizer.lastGyro := [0; 0]; Stabilizer.gyroDelta1 := [0; 0];
       Stabilizer.gyroDelta2 := [0; 0]; Stabilizer.errorGyroI := [0; 0; 0];
       Stabilizer.bigGyroRate :=
         Stabilizer.degreesToRadians Stabilizer.bigGyroDegreesPerSecond;
       Stabilizer.maxArmingAngle :=
         Stabilizer.degreesToRadians Stabilizer.maxArmingAngleDegrees |}.
Proof.
  destruct mem as [lP cP cI cD yP yI lg d1 d2 eI bg ma].
  unfold Stabilizer.sized. cbn. intros (Hlg & Hd1 & Hd2 & HeI).
  destruct lg as [| ? [| ? [| ? ?]]]; try discriminate Hlg.
  destruct d1 as [| ? [| ? [| ? ?]]]; try discriminate Hd1.
  destruct d2 as [| ? [| ? [| ? ?]]]; try discriminate Hd2.
  destruct eI as [| ? [| ? [| ? [| ? ?]]]]; try discriminate HeI.
  reflexivity.
Qed.

Lemma Stabilize_init_eq c mem :
  Stabilize.sized mem ->
  Stabilize.init c mem = Stabilize.initialised c (Stabilize.axisPID mem).
Proof.
  destruct mem as [rp ri rd lg d1 d2 eG eA pid].
  unfold Stabilize.sized. cbn.
  intros (Hrp & Hri & Hrd & Hlg & Hd1 & Hd2 & HeG & HeA & Hpid).
  destruct rp as [| ? [| ? [| ? [| ? ?]]]]; try discriminate Hrp.
  destruct ri as [| ? [| ? [| ? [| ? ?]]]]; try discriminate Hri.
  destruct rd as [| ? [| ? [| ? [| ? ?]]]]; try discriminate Hrd.
  destruct lg as [| ? [| ? [| ? [| ? ?]]]]; try discriminate Hlg.
  destruct d1 as [| ? [| ? [| ? [| ? ?]]]]; try discriminate Hd1.
  destruct d2 as [| ? [| ? [| ? [| ? ?]]]]; try discriminate Hd2.
  destruct eG as [| ? [| ? [| ? [| ? ?]]]]; try discriminate HeG.
  destruct eA as [| ? [| ? [| ? ?]]]; try discriminate HeA.
  reflexivity.
Qed.

#[local] Open Scope Z_scope.

Lemma errorAngle_of_zero c :
  0 <= Stabilize.CONFIG_MAX_ANGLE_INCLINATION c < 2 ^ 31 ->
  Stabilize.errorAngle_of c 0 0 = 0.
Proof.
  intros H. unfold Stabilize.errorAngle_of, I32.neg. cbv zeta.
  change (I32.mul 2 0) with 0.
  rewrite int32_id by (unfold in_int32; lia).
  destruct (Z.ltb_spec 0 (- Stabilize.CONFIG_MAX_ANGLE_INCLINATION c));
    [lia |].
  destruct (Z.gtb_spec 0 (Stabilize.CONFIG_MAX_ANGLE_INCLINATION c));
    [lia | reflexivity].
Qed.

(** With all inputs zero, one turn of the loop on the object [init] leaves
    stores 0 in [axisPID[axis]] and changes nothing else. *)
Lemma update_axis_at_rest c pid axis :
  0 <= Stabilize.CONFIG_MAX_ANGLE_INCLINATION c < 2 ^ 31 ->
  (axis < 3)%nat -> length pid = 3%nat ->
  fst (Stabilize.update_axis c [0; 0; 0; 0] [0; 0; 0] [0; 0; 0] axis
         (Stabilize.initialised c pid))
  = Stabilize.initialised c (<[axis := 0]> pid).
Proof.
  intros Hmax Hax Hpid. pose proof (errorAngle_of_zero c Hmax) as E.
  destruct pid as [| ? [| ? [| ? [| ? ?]]]]; try discriminate Hpid.
  unfold Stabilize.update_axis, Stabilize.initialised.
  destruct axis as [| [| [| axis]]]; [| | | lia];
    change (([0; 0; 0; 0] : list Z) !!! 0%nat) with 0;
    change (([0; 0; 0; 0] : list Z) !!! 1%nat) with 0;
    change (([0; 0; 0; 0] : list Z) !!! 2%nat) with 0;
    change (([0; 0; 0] : list Z) !!! 0%nat) with 0;
    change (([0; 0; 0] : list Z) !!! 1%nat) with 0;
    change (([0; 0; 0] : list Z) !!! 2%nat) with 0;
    rewrite ?E; vm_compute; reflexivity.
Qed.

(** C8.  [init] (after the constructor has stored the gains) followed at
    once by an update whose demands, angles and rates are all zero returns
    zero demands, for any gains: in the floating-point controller the three
    corrected demands are zero, in the fixed-point one the three entries of
    [axisPID] are (for a configuration whose divisors are not zero and
    whose maximal inclination is not negative). *)
Theorem C8_init_then_zero_update_is_zero :
  (forall (levelP gyroCyclicP gyroCyclicI gyroCyclicD gyroYawP gyroYawI : Q)
          (mem : Stabilizer.t),
      Stabilizer.sized mem ->
      let s := Stabilizer.init
                 (Stabilizer.Stabilizer levelP gyroCyclicP gyroCyclicI
                    gyroCyclicD gyroYawP gyroYawI mem) in
      let out := fst (Stabilizer.updateDemands [0; 0; 0]%Q [0; 0; 0]%Q
                        {| Stabilizer.roll := 0; Stabilizer.pitch := 0;
                           Stabilizer.yaw := 0 |} s) in
      (Stabilizer.roll out == 0 /\ Stabilizer.pitch out == 0
       /\ Stabilizer.yaw out == 0)%Q)
  /\ (forall (c : Stabilize.Config) (mem : Stabilize.t),
         Stabilize.sized mem -> Stabilize.well_configured c ->
         Stabilize.axisPID
           (Stabilize.update c [0; 0; 0; 0] [0; 0; 0] [0; 0; 0]
              (Stabilize.init c mem))
         = [0; 0; 0]).
Proof.
  split.
  - intros levelP gyroCyclicP gyroCyclicI gyroCyclicD gyroYawP gyroYawI mem Hm
      s out.
    subst out s. rewrite Stabilizer_init_eq by exact Hm.
    (* every product has a zero factor: the numerators compute to 0 with
       the gains left symbolic *)
    destruct levelP, gyroCyclicP, gyroCyclicI, gyroCyclicD, gyroYawP, gyroYawI.
    vm_compute. repeat split.
  - intros c mem Hm (_ & _ & Hmax).
    rewrite Stabilize_init_eq, update_eq by exact Hm.
    destruct Hm as (_ & _ & _ & _ & _ & _ & _ & _ & Hpid).
    rewrite !update_axis_at_rest by (rewrite ?length_insert; done || lia).
    destruct (Stabilize.axisPID mem) as [| ? [| ? [| ? [| ? ?]]]];
      try discriminate Hpid.
    reflexivity.
Qed.

Lemma C8_init_then_zero_update_is_zero_witness :
  (let s := Stabilizer.init
              (Stabilizer.Stabilizer (1 # 4) (1 # 4) (1 # 64) (3 # 8)
                 (17 # 16) (1 # 128) example_storageQ) in
   let out := fst (Stabilizer.updateDemands [0; 0; 0]%Q [0; 0; 0]%Q
                     {| Stabilizer.roll := 0; Stabilizer.pitch := 0;
                        Stabilizer.yaw := 0 |} s) in
   (Stabilizer.roll out == 0 /\ Stabilizer.pitch out == 0
    /\ Stabilizer.yaw out == 0)%Q)
  /\ Stabilize.axisPID
       (Stabilize.update example_config [0; 0; 0; 0] [0; 0; 0] [0; 0; 0]
          (Stabilize.init example_config example_storage))
     = [0; 0; 0].
Proof.
  split.
  - apply (proj1 C8_init_then_zero_update_is_zero). repeat split.
  - apply (proj2 C8_init_then_zero_update_is_zero).
    + repeat split.
    + vm_compute. repeat split; discriminate.
Defined.

(** ** The blend of angle levelling and rate control *)

#[local] Open Scope Q_scope.

Lemma Filter_max_spec a b :
  (b <= a /\ Filter.max a b = a) \/ (a <= b /\ Filter.max a b = b).
Proof.
  unfold Filter.max. destruct (Qgtb_spec a b); [left | right]; split;
    (reflexivity || lra).
Qed.

(** The proportion is the quotient itself: never negative, and within
    [[0, 1]] exactly when neither demand exceeds [deadbandNorm]. *)
Lemma prop_of_range demands :
  0 <= Stabilizer.prop_of demands
  /\ (Stabilizer.prop_of demands <= 1
      <-> Qabs (Stabilizer.roll demands) <= Stabilizer.deadbandNorm
          /\ Qabs (Stabilizer.pitch demands) <= Stabilizer.deadbandNorm).
Proof.
  unfold Stabilizer.prop_of, Stabilizer.deadbandNorm.
  pose proof (Qabs_nonneg (Stabilizer.roll demands)) as Hr.
  pose proof (Qabs_nonneg (Stabilizer.pitch demands)) as Hp.
  set (r := Qabs (Stabilizer.roll demands)) in *.
  set (p := Qabs (Stabilizer.pitch demands)) in *.
  assert (E : Filter.max r p / (1 # 2) == 2 * Filter.max r p) by field.
  rewrite E.
  destruct (Filter_max_spec r p) as [[H ->] | [H ->]]; repeat split;
    try lra; intros []; lra.
Qed.

Lemma prop_clamped_range demands :
  0 <= Stabilizer.prop_clamped demands <= 1.
Proof. apply constrainMinMax_range. lra. Qed.

(** The two ends of the floating-point blend. *)
Lemma cyclicPTerm_ends rcCommand prop eulerAngles imuAxis s :
  (prop == 0 ->
   Stabilizer.cyclicPTerm rcCommand prop eulerAngles imuAxis s
   == (rcCommand - eulerAngles !!! imuAxis) * Stabilizer._levelP s)
  /\ (prop == 1 ->
      Stabilizer.cyclicPTerm rcCommand prop eulerAngles imuAxis s
      == rcCommand).
Proof.
  unfold Stabilizer.cyclicPTerm, Stabilizer.PTermEuler, Filter.complementary.
  split; intros ->; ring.
Qed.

(** [computeCyclicPid] keeps the gains. *)
Lemma frame_computeCyclicPid rcCommand prop eulerAngles gyro imuAxis s :
  let s' :=
    snd (Stabilizer.computeCyclicPid rcCommand prop eulerAngles gyro imuAxis s)
  in
  Stabilizer._levelP s' = Stabilizer._levelP s
  /\ Stabilizer._gyroCyclicP s' = Stabilizer._gyroCyclicP s
  /\ Stabilizer._gyroYawP s' = Stabilizer._gyroYawP s.
Proof.
  unfold Stabilizer.computeCyclicPid.
  pose proof (frame_computeITermGyro (Stabilizer._gyroCyclicP s)
                (Stabilizer._gyroCyclicI s) rcCommand gyro imuAxis s) as F.
  destruct (Stabilizer.computeITermGyro _ _ _ _ _ _) as [i s'].
  cbn [snd] in F. destruct F as (FL & FP & _ & _ & FY & _). stabilizer_exec.
  by repeat split.
Qed.

(** The blended term is the proportional term [computeCyclicPid] hands to
    [computePid]. *)
Lemma computeCyclicPid_PTerm rcCommand prop eulerAngles gyro imuAxis s :
  exists ITerm DTerm,
    fst (Stabilizer.computeCyclicPid rcCommand prop eulerAngles gyro imuAxis s)
    = Stabilizer.computePid (Stabilizer._gyroCyclicP s)
        (Stabilizer.cyclicPTerm rcCommand prop eulerAngles imuAxis s)
        ITerm DTerm gyro imuAxis.
Proof.
  unfold Stabilizer.computeCyclicPid.
  pose proof (frame_computeITermGyro (Stabilizer._gyroCyclicP s)
                (Stabilizer._gyroCyclicI s) rcCommand gyro imuAxis s) as F.
  destruct (Stabilizer.computeITermGyro _ _ _ _ _ _) as [i s'].
  cbn [snd] in F. destruct F as (FL & FP & _). stabilizer_exec.
  eexists _, _. unfold Stabilizer.cyclicPTerm, Stabilizer.PTermEuler.
  rewrite FL, FP. reflexivity.
Qed.

#[local] Open Scope Z_scope.

(** The two ends of the fixed-point blend, when the products fit 32 bits. *)
Lemma blend_ends acc gyro :
  (in_int32 (acc * 500) -> Stabilize.blend acc gyro 0 = acc)
  /\ (in_int32 (gyro * 500) -> Stabilize.blend acc gyro 500 = gyro).
Proof.
  unfold Stabilize.blend, I32.div, I32.add, I32.mul, I32.sub.
  split; intros H.
  - change (int32_t (500 - 0)) with 500. rewrite Z.mul_0_r.
    change (int32_t 0) with 0. rewrite (int32_id _ H), Z.add_0_r.
    rewrite (int32_id _ H), Z.quot_mul by lia.
    apply int32_id. unfold in_int32 in *. lia.
  - change (int32_t (500 - 500)) with 0. rewrite Z.mul_0_r.
    change (int32_t 0) with 0. rewrite (int32_id _ H), Z.add_0_l.
    rewrite (int32_id _ H), Z.quot_mul by lia.
    apply int32_id. unfold in_int32 in *. lia.
Qed.

Lemma prop_of_int16 rcCommand :
  in_int16 (rcCommand !!! DEMAND_PITCH) -> in_int16 (rcCommand !!! DEMAND_ROLL) ->
  Stabilize.prop_of rcCommand
  = Z.max (Z.abs (rcCommand !!! DEMAND_PITCH)) (Z.abs (rcCommand !!! DEMAND_ROLL)).
Proof.
  intros Hp Hr. unfold Stabilize.prop_of, I32.max.
  rewrite !I32_abs_int16 by done.
  destruct (Z.gtb_spec (Z.abs (rcCommand !!! DEMAND_PITCH))
                       (Z.abs (rcCommand !!! DEMAND_ROLL))); lia.
Qed.

(** The locals of a roll or pitch turn of the loop. *)
Lemma update_axis_locals c rcCommand gyroADC angle axis s :
  (axis < 2)%nat ->
  let l := snd (Stabilize.update_axis c rcCommand gyroADC angle axis s) in
  Stabilize.l_prop l = Stabilize.prop_of rcCommand
  /\ Stabilize.l_PTermGYRO l = rcCommand !!! axis
  /\ Stabilize.l_PTermACC l
     = I32.div (I32.mul (Stabilize.errorAngle_of c (rcCommand !!! axis)
                                                 (angle !!! axis))
                        (Stabilize.CONFIG_LEVEL_P c)) 100
  /\ Stabilize.l_PTerm l
     = Stabilize.blend (Stabilize.l_PTermACC l) (Stabilize.l_PTermGYRO l)
                       (Stabilize.l_prop l).
Proof.
  intros Hax. unfold Stabilize.update_axis.
  destruct (Nat.ltb_spec axis 2); [| lia].
  destruct (_ || _); stabilize_exec; repeat split.
Qed.


#[local] Open Scope Q_scope.

(** The corrected roll and pitch demands are [computePid] of the blended
    term for the proportion [prop_of demands]. *)
Lemma updateDemands_cyclic eulerAngles gyroRates demands s :
  let out := fst (Stabilizer.updateDemands eulerAngles gyroRates demands s) in
  let prop := Stabilizer.prop_of demands in
  (exists ITerm DTerm,
      Stabilizer.roll out
      = Stabilizer.computePid (Stabilizer._gyroCyclicP s)
          (Stabilizer.cyclicPTerm (Stabilizer.roll demands) prop eulerAngles
                                  AXIS_ROLL s)
          ITerm DTerm gyroRates AXIS_ROLL)
  /\ (exists ITerm DTerm,
         Stabilizer.pitch out
         = Stabilizer.computePid (Stabilizer._gyroCyclicP s)
             (Stabilizer.cyclicPTerm (Stabilizer.pitch demands) prop
                                     eulerAngles AXIS_PITCH s)
             ITerm DTerm gyroRates AXIS_PITCH).
Proof.
  cbv zeta. unfold Stabilizer.updateDemands. cbv zeta.
  destruct (computeCyclicPid_PTerm (Stabilizer.roll demands)
              (Stabilizer.prop_of demands) eulerAngles gyroRates AXIS_ROLL s)
    as (I1 & D1 & E1).
  pose proof (frame_computeCyclicPid (Stabilizer.roll demands)
                (Stabilizer.prop_of demands) eulerAngles gyroRates AXIS_ROLL s)
    as (FL & FP & _).
  destruct (Stabilizer.computeCyclicPid (Stabilizer.roll demands) _ _ _ _ _)
    as [r s1]. cbn [fst snd] in E1, FL, FP. stabilizer_exec.
  destruct (computeCyclicPid_PTerm (Stabilizer.pitch demands)
              (Stabilizer.prop_of demands) eulerAngles gyroRates AXIS_PITCH s1)
    as (I2 & D2 & E2).
  destruct (Stabilizer.computeCyclicPid (Stabilizer.pitch demands) _ _ _ _ _)
    as [p s2]. cbn [fst] in E2. stabilizer_exec.
  destruct (Stabilizer.computeITermGyro _ _ _ _ _ _) as [i s3].
  stabilizer_exec. split.
  - exists I1, D1. exact E1.
  - exists I2, D2. rewrite E2.
    unfold Stabilizer.cyclicPTerm, Stabilizer.PTermEuler.
    by rewrite FL, FP.
Qed.

(** C7, as the code has it.  The blend proportion is
    [max(|demand.roll|, |demand.pitch|) / deadbandNorm] itself, not clamped:
    it is never negative, and it is at most 1 exactly when neither demand
    exceeds [deadbandNorm] (0.5 in the floating-point controller, 500 in the
    fixed-point one, where the proportion is kept multiplied by 500).  When
    the proportion is 0 the blended proportional term is the pure
    angle-levelling term [(demand - measuredAngle) * levelGain]; when it is
    1 it is the pure rate term, the demand itself. *)
Theorem C7_blend_proportion_and_ends :
  (forall demands : Stabilizer.demands_t,
      0 <= Stabilizer.prop_of demands
      /\ (Stabilizer.prop_of demands <= 1
          <-> Qabs (Stabilizer.roll demands) <= Stabilizer.deadbandNorm
              /\ Qabs (Stabilizer.pitch demands) <= Stabilizer.deadbandNorm))
  /\ (forall (eulerAngles gyroRates : list Q) (demands : Stabilizer.demands_t)
             (s : Stabilizer.t),
         let out :=
           fst (Stabilizer.updateDemands eulerAngles gyroRates demands s) in
         let prop := Stabilizer.prop_of demands in
         (exists ITerm DTerm,
             Stabilizer.roll out
             = Stabilizer.computePid (Stabilizer._gyroCyclicP s)
                 (Stabilizer.cyclicPTerm (Stabilizer.roll demands) prop
                                         eulerAngles AXIS_ROLL s)
                 ITerm DTerm gyroRates AXIS_ROLL)
         /\ (exists ITerm DTerm,
                Stabilizer.pitch out
                = Stabilizer.computePid (Stabilizer._gyroCyclicP s)
                    (Stabilizer.cyclicPTerm (Stabilizer.pitch demands) prop
                                            eulerAngles AXIS_PITCH s)
                    ITerm DTerm gyroRates AXIS_PITCH))
  /\ (forall (rcCommand prop : Q) (eulerAngles : list Q) (imuAxis : nat)
             (s : Stabilizer.t),
         (prop == 0 ->
          Stabilizer.cyclicPTerm rcCommand prop eulerAngles imuAxis s
          == (rcCommand - eulerAngles !!! imuAxis) * Stabilizer._levelP s)
         /\ (prop == 1 ->
             Stabilizer.cyclicPTerm rcCommand prop eulerAngles imuAxis s
             == rcCommand))
  /\ (forall (c : Stabilize.Config) (rcCommand gyroADC angle : list Z)
             (s : Stabilize.t) (axis : nat),
         (axis < 2)%nat ->
         Stabilize.well_configured c ->
         (Z.abs (Stabilize.CONFIG_LEVEL_P c) <= 10000)%Z ->
         in_int16 (rcCommand !!! DEMAND_ROLL) ->
         in_int16 (rcCommand !!! DEMAND_PITCH) ->
         in_int16 (angle !!! axis) ->
         let l := snd (Stabilize.update_axis c rcCommand gyroADC angle axis s)
         in
         Stabilize.l_prop l
         = Z.max (Z.abs (rcCommand !!! DEMAND_PITCH))
                 (Z.abs (rcCommand !!! DEMAND_ROLL))
         /\ (Stabilize.l_prop l = 0%Z ->
             Stabilize.l_PTerm l = Stabilize.l_PTermACC l
             /\ Stabilize.l_PTermACC l
                = ((2 * rcCommand !!! axis - angle !!! axis)
                   * Stabilize.CONFIG_LEVEL_P c ÷ 100)%Z)
         /\ (Stabilize.l_prop l = 500%Z ->
             Stabilize.l_PTerm l = rcCommand !!! axis)).
Proof.
  split; [exact prop_of_range |].
  split; [exact updateDemands_cyclic |].
  split; [exact cyclicPTerm_ends |].
  intros c rcCommand gyroADC angle s axis Hax (_ & _ & Hmax) HP Hr Hp Ha l.
  destruct (update_axis_locals c rcCommand gyroADC angle axis s Hax)
    as (Eprop & Egyro & Eacc & Eblend).
  fold l in Eprop, Egyro, Eacc, Eblend.
  rewrite Eblend, Egyro, Eprop. rewrite prop_of_int16 by done.
  assert (Hrc : in_int16 (rcCommand !!! axis)).
  { destruct axis as [| [| axis]]; [exact Hr | exact Hp | lia]. }
  split; [reflexivity |]. split.
  - intros H0.
    assert (E0 : rcCommand !!! axis = 0%Z).
    { unfold DEMAND_ROLL, DEMAND_PITCH in H0.
      destruct axis as [| [| axis]]; lia. }
    assert (Eang : Stabilize.errorAngle_of c 0 (angle !!! axis)
                   = (- angle !!! axis)%Z).
    { unfold Stabilize.errorAngle_of, I32.neg, I32.sub. cbv zeta.
      change (I32.mul 2 0) with 0%Z.
      rewrite int32_id by (unfold in_int32; lia).
      destruct (Z.ltb_spec 0 (- Stabilize.CONFIG_MAX_ANGLE_INCLINATION c));
        [lia |].
      destruct (Z.gtb_spec 0 (Stabilize.CONFIG_MAX_ANGLE_INCLINATION c));
        [lia |].
      apply int32_id. unfold in_int16, in_int32 in *. lia. }
    assert (Hprod : (Z.abs (- angle !!! axis * Stabilize.CONFIG_LEVEL_P c)
                     <= 327680000)%Z).
    { unfold in_int16 in Ha. rewrite Z.abs_mul. nia. }
    assert (Eacc' : Stabilize.l_PTermACC l
                    = ((- angle !!! axis) * Stabilize.CONFIG_LEVEL_P c ÷ 100)%Z).
    { rewrite Eacc, E0, Eang. unfold I32.div, I32.mul.
      rewrite (int32_id (_ * _)) by (unfold in_int32; lia).
      apply int32_id. unfold in_int32.
      pose proof (quot_bound _ 100 _ ltac:(lia) Hprod). lia. }
    split.
    + rewrite H0. apply (proj1 (blend_ends _ _)). rewrite Eacc'.
      unfold in_int32.
      pose proof (quot_bound _ 100 327680000 ltac:(lia) Hprod) as Q.
      assert (Z.abs ((- angle !!! axis) * Stabilize.CONFIG_LEVEL_P c ÷ 100)
              <= 3276800)%Z; [| lia].
      rewrite <- (Z.abs_eq 100) at 1 by lia. rewrite <- Z.quot_abs by lia.
      apply Z.quot_le_upper_bound; lia.
    + rewrite Eacc', E0. f_equal; lia.
  - intros H500. rewrite H500. apply (proj2 (blend_ends _ _)).
    unfold in_int16, in_int32 in *. lia.
Qed.

Lemma C7_blend_proportion_and_ends_witness :
  Stabilizer.cyclicPTerm (1 # 4) 1 [1 # 8; 0; 0] AXIS_ROLL example_stabilizer
  == 1 # 4
  /\ (let l := snd (Stabilize.update_axis example_config [0; 0; 30; 1500]%Z
                      [5; 6; 7]%Z [100; -50; 0]%Z 0
                      (Stabilize.init example_config example_storage)) in
      Stabilize.l_PTerm l = Stabilize.l_PTermACC l
      /\ Stabilize.l_PTermACC l
         = ((2 * [0; 0; 30; 1500] !!! 0%nat - [100; -50; 0] !!! 0%nat)
            * Stabilize.CONFIG_LEVEL_P example_config ÷ 100)%Z).
Proof.
  destruct C7_blend_proportion_and_ends as (_ & _ & Hfloat & Hfixed).
  split.
  - apply Hfloat. reflexivity.
  - apply Hfixed.
    + lia.
    + vm_compute. repeat split; discriminate.
    + vm_compute. discriminate.
    + vm_compute. split; [discriminate | reflexivity].
    + vm_compute. split; [discriminate | reflexivity].
    + vm_compute. split; [discriminate | reflexivity].
    + vm_compute. reflexivity.
Defined.

(** The proportion at full roll deflection is 2: it is not the clamped
    value, which is 1. *)
Lemma C7_counterexample_proportion_not_clamped :
  let demands := {| Stabilizer.roll := 1; Stabilizer.pitch := 0;
                    Stabilizer.yaw := 0 |} in
  Stabilizer.prop_of demands == 2
  /\ Stabilizer.prop_clamped demands == 1
  /\ ~ Stabilizer.prop_of demands == Stabilizer.prop_clamped demands.
Proof.
  cbv zeta. repeat split; vm_compute; discriminate.
Qed.

(** ** The yaw clamp *)

(** The clamp of [updateDemands] is applied to the yaw that has just been
    overwritten with the PID output, with a bound computed from that same
    output: it returns its argument. *)
Lemma yaw_clamp_is_identity y :
  Filter.constrainAbs y ((1 # 10) + Qabs y) = y.
Proof. apply constrainAbs_id. pose proof (Qabs_nonneg y). lra. Qed.

Lemma updateDemands_yaw eulerAngles gyroRates demands s :
  exists ITermGyroYaw,
    Stabilizer.yaw
      (fst (Stabilizer.updateDemands eulerAngles gyroRates demands s))
    = Stabilizer.computePid (Stabilizer._gyroYawP s) (Stabilizer.yaw demands)
        ITermGyroYaw 0 gyroRates AXIS_YAW.
Proof.
  unfold Stabilizer.updateDemands. cbv zeta.
  pose proof (frame_computeCyclicPid (Stabilizer.roll demands)
                (Stabilizer.prop_of demands) eulerAngles gyroRates AXIS_ROLL s)
    as F1.
  destruct (Stabilizer.computeCyclicPid (Stabilizer.roll demands) _ _ _ _ _)
    as [r s1]. cbn [snd] in F1. stabilizer_exec.
  pose proof (frame_computeCyclicPid (Stabilizer.pitch demands)
                (Stabilizer.prop_of demands) eulerAngles gyroRates AXIS_PITCH
                s1) as F2.
  destruct (Stabilizer.computeCyclicPid (Stabilizer.pitch demands) _ _ _ _ _)
    as [p s2]. cbn [snd] in F2. stabilizer_exec.
  pose proof (frame_computeITermGyro (Stabilizer._gyroYawP s2)
                (Stabilizer._gyroYawI s2) (Stabilizer.yaw demands) gyroRates
                AXIS_YAW s2) as F3.
  destruct (Stabilizer.computeITermGyro _ _ _ _ _ _) as [i s3].
  cbn [snd] in F3. stabilizer_exec.
  rewrite yaw_clamp_is_identity. exists i.
  destruct F1 as (_ & _ & F1), F2 as (_ & _ & F2),
    F3 as (_ & _ & _ & _ & F3 & _).
  by rewrite F3, F2, F1.
Qed.

(** C4 at the input where the floating-point controller leaves the claimed
    bound: no yaw demand, a yaw rate of -1 rad/s, yaw gain 17/16.  The
    corrected yaw demand is 17/16, more than [0.1 + |demand.yaw| = 0.1]. *)
Theorem C4_float_yaw_exceeds_bound :
  let demands := {| Stabilizer.roll := 0; Stabilizer.pitch := 0;
                    Stabilizer.yaw := 0 |} in
  let out := fst (Stabilizer.updateDemands [0; 0; 0] [0; 0; -1] demands
                    example_stabilizer) in
  Stabilizer.yaw out == 17 # 16
  /\ ~ Qabs (Stabilizer.yaw out) <= (1 # 10) + Qabs (Stabilizer.yaw demands).
Proof.
  cbv zeta. split; vm_compute; [reflexivity | intros H; apply H; reflexivity].
Qed.

#[local] Open Scope Z_scope.

Lemma axisPID_update_axis c rcCommand gyroADC angle axis s :
  exists v,
    Stabilize.axisPID
      (fst (Stabilize.update_axis c rcCommand gyroADC angle axis s))
    = <[axis := int16_t v]> (Stabilize.axisPID s).
Proof.
  unfold Stabilize.update_axis.
  destruct (_ || _); destruct (axis <? 2)%nat; stabilize_exec;
    eexists; reflexivity.
Qed.

(** The fixed-point controller clamps against the pilot's demand, which it
    never overwrites: its yaw output is within the bound. *)
Lemma Stabilize_yaw_within_bound c rcCommand gyroADC angle s :
  Stabilize.sized s -> in_int16 (rcCommand !!! DEMAND_YAW) ->
  Z.abs (Stabilize.axisPID (Stabilize.update c rcCommand gyroADC angle s)
           !!! AXIS_YAW)
  <= 100 + Z.abs (rcCommand !!! DEMAND_YAW).
Proof.
  intros Hs Hrc. rewrite update_eq.
  set (s3 := fst (Stabilize.update_axis c rcCommand gyroADC angle 2 _)).
  assert (Hs3 : Stabilize.sized s3)
    by (by apply sized_update_axis, sized_update_axis, sized_update_axis).
  assert (H16 : in_int16 (Stabilize.axisPID s3 !!! AXIS_YAW)).
  { subst s3.
    destruct (axisPID_update_axis c rcCommand gyroADC angle 2
                (fst (Stabilize.update_axis c rcCommand gyroADC angle 1
                   (fst (Stabilize.update_axis c rcCommand gyroADC angle 0
                                               s))))) as [v ->].
    rewrite list_lookup_total_insert_eq; [apply int16_range |].
    pose proof (sized_update_axis c rcCommand gyroADC angle 0 s Hs) as H0.
    apply (sized_update_axis c rcCommand gyroADC angle 1) in H0.
    destruct H0 as (_ & _ & _ & _ & _ & _ & _ & _ & ->). lia. }
  unfold Stabilize.yaw_clamp. stabilize_exec.
  destruct Hs3 as (_ & _ & _ & _ & _ & _ & _ & _ & Hpid).
  rewrite list_lookup_total_insert_eq by (rewrite Hpid; unfold AXIS_YAW; lia).
  rewrite I32_abs_int16 by done.
  set (a := Z.abs (rcCommand !!! DEMAND_YAW)).
  assert (Ha : 0 <= a <= 32768) by (unfold in_int16 in Hrc; lia).
  unfold I32.sub, I32.add.
  rewrite !int32_id by (unfold in_int32; lia).
  pose proof (constrain_range (Stabilize.axisPID s3 !!! AXIS_YAW)
                (-100 - a) (100 + a) ltac:(lia)) as Hc.
  destruct (constrain_cases (Stabilize.axisPID s3 !!! AXIS_YAW)
              (-100 - a) (100 + a)) as [E | [E | E]].
  - unfold constrain in E |- *.
    destruct (Z.ltb_spec (Stabilize.axisPID s3 !!! AXIS_YAW) (-100 - a)).
    + rewrite int16_id; [lia |]. unfold in_int16 in *. lia.
    + rewrite int16_id; [lia |]. unfold in_int16 in *.
      destruct (Z.gtb_spec (Stabilize.axisPID s3 !!! AXIS_YAW) (100 + a));
        lia.
  - unfold constrain in E |- *.
    destruct (Z.ltb_spec (Stabilize.axisPID s3 !!! AXIS_YAW) (-100 - a)).
    + rewrite int16_id; [lia |]. unfold in_int16 in *. lia.
    + rewrite int16_id; [lia |]. unfold in_int16 in *.
      destruct (Z.gtb_spec (Stabilize.axisPID s3 !!! AXIS_YAW) (100 + a));
        lia.
  - rewrite E, int16_id by done. lia.
Qed.

(** ** Arming, disarming and the ground-idle reset *)

#[local] Open Scope Z_scope.

(** C2 as stated fails on a tick that carries the arm gesture while the
    receiver reports no stick change: the four guards hold and the craft
    stays disarmed. *)
Lemma C2_counterexample_arm_gesture_unchanged :
  let r := example_rc (Hackflight.gesture_arm example_codes) false in
  let i := example_inputs r false in
  Hackflight.rcTask_due i || Hackflight.rcSerialReady i = true
  /\ Hackflight.sticks (Hackflight.rc i) = Hackflight.gesture_arm example_codes
  /\ arming_guards r example_disarmed
  /\ Hackflight.armed
       (Hackflight.update example_hackflight_config i example_disarmed)
     = false.
Proof. vm_compute. repeat split. Qed.

(** C2, as the code has it.  On a receiver tick that carries the arm gesture
    and on which the receiver reports a stick change ([rc.changed()]), the
    arm flag goes from false to true if and only if the four guards hold:
    gyro countdown zero, accelerometer calibrated, aux switch neutral, not
    already armed; if a guard fails the flag stays false.  Without a
    reported change the flag keeps its value. *)
Theorem C2_arming_iff_guards_on_stick_change
    (c : Hackflight.Config) (i : Hackflight.Inputs) (s : Hackflight.t) :
  Hackflight.rcTask_due i || Hackflight.rcSerialReady i = true ->
  Hackflight.sticks (Hackflight.rc i)
  = Hackflight.gesture_arm (Hackflight.codes c) ->
  Hackflight.gesture_arm (Hackflight.codes c)
  <> Hackflight.gesture_gyro_calibration (Hackflight.codes c) ->
  (Hackflight.changed (Hackflight.rc i) = true ->
   ((Hackflight.armed s = false
     /\ Hackflight.armed (Hackflight.update c i s) = true)
    <-> arming_guards (Hackflight.rc i) s)
   /\ (Hackflight.armed s = false -> ~ arming_guards (Hackflight.rc i) s ->
       Hackflight.armed (Hackflight.update c i s) = false))
  /\ (Hackflight.changed (Hackflight.rc i) = false ->
      Hackflight.armed (Hackflight.update c i s) = Hackflight.armed s).
Proof.
  intros Hrc Hst Hne. rewrite armed_update, Hrc. unfold arming_guards.
  assert (Hg : (Hackflight.sticks (Hackflight.rc i)
                =? Hackflight.gesture_gyro_calibration (Hackflight.codes c))
               = false) by (apply Z.eqb_neq; congruence).
  assert (Ha : (Hackflight.sticks (Hackflight.rc i)
                =? Hackflight.gesture_arm (Hackflight.codes c)) = true)
    by (by apply Z.eqb_eq).
  destruct (Hackflight.armed s) eqn:Ea.
  - rewrite armed_rc_block_armed by done. split.
    + intros _. split; [split |]; [intros [? _] | intros (_ & _ & _ & ?) |];
        discriminate.
    + intros ->. reflexivity.
  - rewrite armed_rc_block_disarmed by done. rewrite Hg, Ha. split.
    + intros ->. cbn [andb].
      destruct (Z.eqb_spec (Hackflight.calibratingG s) 0) as [Eg | Eg],
        (Hackflight.accCalibrated s),
        (Z.eqb_spec (Hackflight.auxState (Hackflight.rc i)) 0) as [Ex | Ex];
        cbn [andb]; (split; [split |]); try tauto; try discriminate;
        try (intros (? & ?); discriminate);
        try (intros (? & ? & ? & ?); congruence).
    + intros ->. reflexivity.
Qed.

Lemma C2_arming_iff_guards_on_stick_change_witness :
  let r := example_rc (Hackflight.gesture_arm example_codes) true in
  let i := example_inputs r false in
  (Hackflight.armed example_disarmed = false
   /\ Hackflight.armed
        (Hackflight.update example_hackflight_config i example_disarmed)
      = true)
  <-> arming_guards r example_disarmed.
Proof.
  cbv zeta.
  apply (C2_arming_iff_guards_on_stick_change example_hackflight_config
           (example_inputs
              (example_rc (Hackflight.gesture_arm example_codes) true) false)
           example_disarmed);
    [reflexivity | reflexivity | vm_compute; discriminate | reflexivity].
Defined.

(** C3 as stated fails on a tick that carries the disarm gesture while the
    receiver reports no stick change: the craft stays armed. *)
Lemma C3_counterexample_disarm_gesture_unchanged :
  let r := example_rc (Hackflight.gesture_disarm example_codes) false in
  let i := example_inputs r false in
  Hackflight.armed example_armed = true
  /\ Hackflight.rcTask_due i || Hackflight.rcSerialReady i = true
  /\ Hackflight.sticks (Hackflight.rc i)
     = Hackflight.gesture_disarm example_codes
  /\ Hackflight.armed
       (Hackflight.update example_hackflight_config i example_armed)
     = true.
Proof. vm_compute. repeat split. Qed.

(** While armed, one call of [update] clears the arm flag exactly on a
    disarm event. *)
Lemma armed_update_armed c i s :
  Hackflight.armed s = true ->
  (Hackflight.armed (Hackflight.update c i s) = false <-> disarm_event c i).
Proof.
  intros Ea. unfold disarm_event. rewrite armed_update.
  destruct (_ || _).
  - rewrite armed_rc_block_armed by done.
    destruct (Hackflight.changed (Hackflight.rc i)),
      (Z.eqb_spec (Hackflight.sticks (Hackflight.rc i))
                  (Hackflight.gesture_disarm (Hackflight.codes c)));
      cbn [andb negb]; split; try tauto; try discriminate;
      intros (_ & ? & ?); congruence.
  - rewrite Ea. split; [discriminate | intros (? & _); discriminate].
Qed.

Lemma armed_run_armed c inputs : forall s,
  Hackflight.armed s = true ->
  Forall (fun i => ~ disarm_event c i) inputs ->
  Hackflight.armed (Hackflight.run c inputs s) = true.
Proof.
  unfold Hackflight.run.
  induction inputs as [| i inputs IH]; intros s Ea Hno; [exact Ea |].
  cbn [fold_left]. inversion Hno as [| ? ? Hi His]; subst.
  apply IH; [| exact His].
  destruct (Hackflight.armed (Hackflight.update c i s)) eqn:E;
    [reflexivity |].
  exfalso. apply Hi. exact (proj1 (armed_update_armed c i s Ea) E).
Qed.

(** C3, as the code has it.  While armed, one call of [update] clears the
    arm flag if and only if the receiver block runs, the receiver reports a
    stick change and the sticks show the disarm gesture: nothing else in the
    loop (countdowns, calibration, the IMU block) clears it, and the gesture
    clears it whatever the calibration counters are.  Hence, over any
    sequence of calls without such an event, an armed craft stays armed. *)
Theorem C3_armed_cleared_iff_disarm_gesture_on_stick_change :
  (forall (c : Hackflight.Config) (i : Hackflight.Inputs) (s : Hackflight.t),
      Hackflight.armed s = true ->
      (Hackflight.armed (Hackflight.update c i s) = false
       <-> disarm_event c i))
  /\ (forall (c : Hackflight.Config) (inputs : list Hackflight.Inputs)
             (s : Hackflight.t),
         Hackflight.armed s = true ->
         Forall (fun i => ~ disarm_event c i) inputs ->
         Hackflight.armed (Hackflight.run c inputs s) = true).
Proof.
  split.
  - intros c i s. apply armed_update_armed.
  - intros c inputs s. apply armed_run_armed.
Qed.

Lemma C3_armed_cleared_iff_disarm_gesture_on_stick_change_witness :
  let r := example_rc (Hackflight.gesture_disarm example_codes) true in
  let i := example_inputs r true in
  Hackflight.armed (Hackflight.update example_hackflight_config i example_armed)
  = false.
Proof.
  cbv zeta.
  apply (proj1 C3_armed_cleared_iff_disarm_gesture_on_stick_change
           example_hackflight_config
           (example_inputs
              (example_rc (Hackflight.gesture_disarm example_codes) true) true)
           example_armed);
    [reflexivity | repeat split].
Defined.

(** The stabiliser after the receiver block: reset when the throttle is
    down, untouched otherwise, whatever the sticks and the arm flag. *)
Lemma stab_on_sticks_changed k r s :
  Hackflight.stab (Hackflight.on_sticks_changed k r s) = Hackflight.stab s.
Proof.
  unfold Hackflight.on_sticks_changed.
  repeat match goal with
         | |- context [if ?b then _ else _] => destruct b
         end; reflexivity.
Qed.

Lemma stab_rc_block k r s :
  Hackflight.stab (Hackflight.rc_block k r s)
  = if Hackflight.throttleIsDown r
    then Stabilize.resetIntegral (Hackflight.stab s)
    else Hackflight.stab s.
Proof.
  rewrite rc_block_eq. cbn [Hackflight.stab Hackflight.emit].
  assert (E : Hackflight.stab (before_sticks r s)
              = if Hackflight.throttleIsDown r
                then Stabilize.resetIntegral (Hackflight.stab s)
                else Hackflight.stab s).
  { unfold before_sticks.
    destruct (Hackflight.armed s), (Hackflight.throttleIsDown r);
      reflexivity. }
  destruct (Hackflight.changed r); [rewrite stab_on_sticks_changed |];
    exact E.
Qed.

Lemma stab_update c i s :
  Hackflight.stab (Hackflight.update c i s)
  = let st := if Hackflight.rcTask_due i || Hackflight.rcSerialReady i
              then Hackflight.stab
                     (Hackflight.rc_block (Hackflight.codes c)
                                          (Hackflight.rc i) s)
              else Hackflight.stab s in
    if Hackflight.imuTask_due i
    then Stabilize.update (Hackflight.stab_config c) (Hackflight.rc_command i)
                          (Hackflight.gyroADC i) (Hackflight.imu_angle i) st
    else st.
Proof.
  unfold Hackflight.update. cbv zeta.
  set (s1 := if Hackflight.rcTask_due i || Hackflight.rcSerialReady i
             then _ else _).
  assert (E : Hackflight.stab s1
              = if Hackflight.rcTask_due i || Hackflight.rcSerialReady i
                then Hackflight.stab
                       (Hackflight.rc_block (Hackflight.codes c)
                                            (Hackflight.rc i) s)
                else Hackflight.stab s).
  { subst s1. destruct (_ || _); [reflexivity |].
    unfold Hackflight.extras_block. hackflight_exec.
    destruct (_ >=? _); reflexivity. }
  rewrite <- E. generalize s1. intros s2.
  destruct (Hackflight.imuTask_due i); [| reflexivity].
  unfold Hackflight.imu_block.
  repeat match goal with
         | |- context [if ?b then _ else _] => destruct b
         end; reflexivity.
Qed.

(** C5 as stated fails when the IMU block runs in the same call of [update]
    as the receiver block: the throttle is down, [resetIntegral] runs, and
    [stab.update] (line 220) then accumulates that call's error, so that
    none of the three [errorGyroI] is zero when [update] returns. *)
Lemma C5_counterexample_imu_block_after_reset :
  let r := example_rc (Hackflight.gesture_arm example_codes) false in
  let i := example_inputs r true in
  let s' := Hackflight.update example_hackflight_config i example_armed in
  Hackflight.rcTask_due i || Hackflight.rcSerialReady i = true
  /\ Hackflight.throttleIsDown (Hackflight.rc i) = true
  /\ Stabilize.errorGyroI (Hackflight.stab s') = [-3; 2; -1]
  /\ ~ (forall axis, (axis < 3)%nat ->
          Stabilize.errorGyroI (Hackflight.stab s') !!! axis = 0).
Proof.
  cbv zeta. split; [reflexivity |]. split; [reflexivity |].
  assert (E : Stabilize.errorGyroI
                (Hackflight.stab
                   (Hackflight.update example_hackflight_config
                      (example_inputs
                         (example_rc (Hackflight.gesture_arm example_codes)
                                     false) true)
                      example_armed)) = [-3; 2; -1])
    by (vm_compute; reflexivity).
  split; [exact E |].
  intros H. specialize (H 0%nat ltac:(lia)). rewrite E in H. discriminate H.
Qed.

(** C5, as the code has it.  On every receiver tick on which the receiver
    finds the throttle down, [resetIntegral] runs whether or not the sticks
    changed and whatever the arm flag is: when the receiver block ends, the
    stabiliser is [resetIntegral] of what it was, so the three [errorGyroI]
    (and the two [errorAngleI]) are zero whatever they had accumulated.
    They are still zero when [update] returns if the IMU block does not run
    in the same call; if it does, the stabiliser [update] returns with is
    one PID update of the reset one: the accumulators hold that update's
    contribution alone. *)
Theorem C5_ground_idle_resets_integral
    (c : Hackflight.Config) (i : Hackflight.Inputs) (s : Hackflight.t) :
  Stabilize.sized (Hackflight.stab s) ->
  Hackflight.throttleIsDown (Hackflight.rc i) = true ->
  let s' := Hackflight.rc_block (Hackflight.codes c) (Hackflight.rc i) s in
  Hackflight.stab s' = Stabilize.resetIntegral (Hackflight.stab s)
  /\ (forall axis, (axis < 3)%nat ->
        Stabilize.errorGyroI (Hackflight.stab s') !!! axis = 0)
  /\ (forall axis, (axis < 2)%nat ->
        Stabilize.errorAngleI (Hackflight.stab s') !!! axis = 0)
  /\ (Hackflight.rcTask_due i || Hackflight.rcSerialReady i = true ->
      (Hackflight.imuTask_due i = false ->
       forall axis, (axis < 3)%nat ->
         Stabilize.errorGyroI (Hackflight.stab (Hackflight.update c i s))
           !!! axis = 0)
      /\ (Hackflight.imuTask_due i = true ->
          Hackflight.stab (Hackflight.update c i s)
          = Stabilize.update (Hackflight.stab_config c)
              (Hackflight.rc_command i) (Hackflight.gyroADC i)
              (Hackflight.imu_angle i)
              (Stabilize.resetIntegral (Hackflight.stab s)))).
Proof.
  intros Hs Hthr s'. subst s'.
  assert (E : Hackflight.stab
                (Hackflight.rc_block (Hackflight.codes c) (Hackflight.rc i) s)
              = Stabilize.resetIntegral (Hackflight.stab s))
    by (by rewrite stab_rc_block, Hthr).
  split; [exact E |]. rewrite E.
  split; [intros axis Hax; by apply errorGyroI_resetIntegral |].
  split; [intros axis Hax; by apply errorAngleI_resetIntegral |].
  intros Hrc. rewrite stab_update, Hrc, E. cbv zeta. split.
  - intros -> axis Hax. by apply errorGyroI_resetIntegral.
  - intros ->. reflexivity.
Qed.

Lemma C5_ground_idle_resets_integral_witness :
  let r := example_rc (Hackflight.gesture_arm example_codes) false in
  Stabilize.errorGyroI (Hackflight.stab example_armed) = [15000; -16000; 700]
  /\ (forall axis, (axis < 3)%nat ->
        Stabilize.errorGyroI
          (Hackflight.stab
             (Hackflight.rc_block example_codes r example_armed)) !!! axis
        = 0)
  /\ (forall axis, (axis < 3)%nat ->
        Stabilize.errorGyroI
          (Hackflight.stab
             (Hackflight.update example_hackflight_config
                                (example_inputs r false) example_armed))
          !!! axis = 0)
  /\ Hackflight.stab
       (Hackflight.update example_hackflight_config (example_inputs r true)
                          example_armed)
     = Stabilize.update example_config [0; 0; 0; 1000] [3; -2; 1] [10; -5; 0]
         (Stabilize.resetIntegral (Hackflight.stab example_armed)).
Proof.
  cbv zeta. split; [reflexivity |].
  assert (Hs : Stabilize.sized (Hackflight.stab example_armed))
    by (repeat split).
  destruct (C5_ground_idle_resets_integral example_hackflight_config
              (example_inputs
                 (example_rc (Hackflight.gesture_arm example_codes) false)
                 false)
              example_armed Hs eq_refl) as (_ & H & _ & H0).
  destruct (C5_ground_idle_resets_integral example_hackflight_config
              (example_inputs
                 (example_rc (Hackflight.gesture_arm example_codes) false)
                 true)
              example_armed Hs eq_refl) as (_ & _ & _ & H1).
  split; [exact H |].
  split; [exact (proj1 (H0 eq_refl) eq_refl) |].
  exact (proj2 (H1 eq_refl) eq_refl).
Defined.

(** ** The simulator receiver *)

Lemma run_disarming ks : forall c,
  Forall (fun kr => fst kr = Sim.Disarming -> snd kr = Some false)
         (Sim.run ks c).
Proof.
  induction ks as [| k ks IH]; intros c; cbn [Sim.run]; [constructor |].
  destruct k as [| | vals thr btn]; cbn [Sim.step Sim.arming Sim.disarming
    Sim.Controller_Receiver Sim.Controller_arming Sim.Controller_disarming];
    (constructor; [cbn; intros; (discriminate || reflexivity) | apply IH]).
Qed.

(** The arm flag of the polling vehicle is never cleared with the simulator
    receiver. *)
Lemma vehicle_step_keeps_armed deadband v e :
  Sim.v_armed v = true -> Sim.v_armed (Sim.vehicle_step deadband v e) = true.
Proof.
  intros Ha. destruct e as [axes buttons baseline | changed guards];
    [exact Ha |].
  cbn [Sim.vehicle_step]. unfold Sim.onReceiverTick.
  cbn [Sim.arming Sim.disarming Sim.Controller_Receiver
       Sim.Controller_arming Sim.Controller_disarming Sim.v_armed].
  rewrite Ha. by destruct changed.
Qed.

Lemma vehicle_run_keeps_armed deadband es : forall v,
  Sim.v_armed v = true -> Sim.v_armed (Sim.vehicle_run deadband es v) = true.
Proof.
  unfold Sim.vehicle_run.
  induction es as [| e es IH]; intros v Ha; [exact Ha |].
  cbn [fold_left]. by apply IH, vehicle_step_keeps_armed.
Qed.



#[local] Open Scope Z_scope.

(** * Further properties of the code *)

(** ** The fixed-point controller *)

Section StabilizeMore.

Variable c : Stabilize.Config.
Variables rcCommand gyroADC angle : list Z.

(** The angle accumulators after one turn of the loop. *)
Lemma errorAngleI_update_axis axis s :
  Stabilize.errorAngleI
    (fst (Stabilize.update_axis c rcCommand gyroADC angle axis s))
  = if (axis <? 2)%nat
    then <[axis := constrain
                     (I32.add (Stabilize.errorAngleI s !!! axis)
                              (Stabilize.errorAngle_of c (rcCommand !!! axis)
                                                       (angle !!! axis)))
                     (-10000) 10000]> (Stabilize.errorAngleI s)
    else Stabilize.errorAngleI s.
Proof.
  unfold Stabilize.update_axis.
  destruct (_ || _); destruct (axis <? 2)%nat; stabilize_exec; reflexivity.
Qed.

Lemma angle_windup_update_axis axis s :
  angle_windup_ok s ->
  angle_windup_ok
    (fst (Stabilize.update_axis c rcCommand gyroADC angle axis s)).
Proof.
  intros H j Hj. rewrite errorAngleI_update_axis.
  destruct (axis <? 2)%nat; [| by apply H].
  apply (lookup_total_store (fun v => -10000 <= v <= 10000)); [| by apply H].
  apply constrain_range; lia.
Qed.

Lemma errorAngleI_yaw_clamp s :
  Stabilize.errorAngleI (Stabilize.yaw_clamp rcCommand s)
  = Stabilize.errorAngleI s.
Proof. reflexivity. Qed.

Lemma gains_yaw_clamp s :
  Stabilize.rate_p (Stabilize.yaw_clamp rcCommand s) = Stabilize.rate_p s
  /\ Stabilize.rate_i (Stabilize.yaw_clamp rcCommand s) = Stabilize.rate_i s
  /\ Stabilize.rate_d (Stabilize.yaw_clamp rcCommand s) = Stabilize.rate_d s.
Proof. done. Qed.

Lemma angle_windup_update s :
  angle_windup_ok s ->
  angle_windup_ok (Stabilize.update c rcCommand gyroADC angle s).
Proof.
  intros H axis Hax. rewrite update_eq, errorAngleI_yaw_clamp.
  revert axis Hax.
  by apply angle_windup_update_axis, angle_windup_update_axis,
    angle_windup_update_axis.
Qed.

End StabilizeMore.

Lemma angle_windup_resetIntegral s :
  Stabilize.sized s -> angle_windup_ok (Stabilize.resetIntegral s).
Proof.
  intros Hs axis Hax. rewrite errorAngleI_resetIntegral by done. lia.
Qed.

Lemma sized_run c ks : forall s,
  Stabilize.sized s -> Stabilize.sized (Stabilize.run c ks s).
Proof.
  unfold Stabilize.run.
  induction ks as [| k ks IH]; intros s Hs; [exact Hs |].
  cbn [fold_left]. apply IH.
  destruct k; cbn [Stabilize.step];
    [by apply sized_update | by apply sized_resetIntegral].
Qed.

Lemma angle_windup_run c ks : forall s,
  Stabilize.sized s -> angle_windup_ok s ->
  angle_windup_ok (Stabilize.run c ks s).
Proof.
  unfold Stabilize.run.
  induction ks as [| k ks IH]; intros s Hs Hw; [exact Hw |].
  cbn [fold_left]. destruct k as [rcCommand gyroADC angle |];
    cbn [Stabilize.step].
  - apply IH; [by apply sized_update | by apply angle_windup_update].
  - apply IH; [by apply sized_resetIntegral |
               by apply angle_windup_resetIntegral].
Qed.

Lemma errorAngleI_resetIntegral_init c mem axis :
  Stabilize.sized mem -> (axis < 2)%nat ->
  Stabilize.errorAngleI (Stabilize.init c mem) !!! axis = 0.
Proof.
  intros Hm Hax. rewrite Stabilize_init_eq by done.
  destruct axis as [| [| axis]]; [reflexivity | reflexivity | lia].
Qed.

(** X1.  The second integral of the fixed-point controller, the angle
    accumulator [errorAngleI] of roll and pitch, never leaves
    [-10000, 10000], whatever updates and resets follow [init]. *)
Theorem X1_errorAngleI_within_windup_bound
    (c : Stabilize.Config) (mem : Stabilize.t) (ks : list Stabilize.call)
    (axis : nat) :
  Stabilize.sized mem -> (axis < 2)%nat ->
  Z.abs (Stabilize.errorAngleI (Stabilize.run c ks (Stabilize.init c mem))
           !!! axis) <= 10000.
Proof.
  intros Hm Hax.
  assert (Hw : angle_windup_ok (Stabilize.init c mem)).
  { intros j Hj. rewrite errorAngleI_resetIntegral_init by done. lia. }
  pose proof (angle_windup_run c ks _ (sized_init c mem Hm) Hw axis Hax).
  lia.
Qed.

Lemma X1_errorAngleI_within_windup_bound_witness :
  Z.abs (Stabilize.errorAngleI
           (Stabilize.run example_config
              [Stabilize.Update [400; -400; 0; 1500] [0; 0; 0]
                                [-300; 300; 0];
               Stabilize.Update [400; -400; 0; 1500] [0; 0; 0]
                                [-300; 300; 0]]
              (Stabilize.init example_config example_storage)) !!! 1%nat)
  <= 10000.
Proof.
  apply X1_errorAngleI_within_windup_bound; [repeat split | lia].
Defined.

(** X2.  The yaw output of the fixed-point controller is clamped against
    the pilot's yaw demand: after every update
    [|axisPID[YAW]| <= 100 + |rcCommand[DEMAND_YAW]|]. *)
Theorem X2_fixed_yaw_output_within_bound
    (c : Stabilize.Config) (rcCommand gyroADC angle : list Z)
    (s : Stabilize.t) :
  Stabilize.sized s -> in_int16 (rcCommand !!! DEMAND_YAW) ->
  Z.abs (Stabilize.axisPID (Stabilize.update c rcCommand gyroADC angle s)
           !!! AXIS_YAW)
  <= 100 + Z.abs (rcCommand !!! DEMAND_YAW).
Proof. apply Stabilize_yaw_within_bound. Qed.

Lemma X2_fixed_yaw_output_within_bound_witness :
  Stabilize.axisPID
    (Stabilize.update example_config [0; 0; 20; 1500] [0; 0; 700] [0; 0; 0]
       (Stabilize.init example_config example_storage)) !!! AXIS_YAW = -120
  /\ Z.abs (Stabilize.axisPID
              (Stabilize.update example_config [0; 0; 20; 1500] [0; 0; 700]
                 [0; 0; 0] (Stabilize.init example_config example_storage))
              !!! AXIS_YAW)
     <= 100 + Z.abs ([0; 0; 20; 1500] !!! DEMAND_YAW).
Proof.
  split; [reflexivity |].
  apply X2_fixed_yaw_output_within_bound;
    [repeat split | vm_compute; split; [discriminate | reflexivity]].
Defined.

(** The angle error of line 67 on 16-bit operands: below the lower bound it
    is the bound itself, without the angle; from the lower bound on it is
    the demand, capped at the upper bound, minus the angle. *)
Lemma errorAngle_of_cases c rc a :
  0 <= Stabilize.CONFIG_MAX_ANGLE_INCLINATION c < 2 ^ 31 ->
  in_int16 rc -> in_int16 a ->
  Stabilize.errorAngle_of c rc a
  = if 2 * rc <? - Stabilize.CONFIG_MAX_ANGLE_INCLINATION c
    then - Stabilize.CONFIG_MAX_ANGLE_INCLINATION c
    else Z.min (2 * rc) (Stabilize.CONFIG_MAX_ANGLE_INCLINATION c) - a.
Proof.
  intros Hmax Hrc Ha. unfold Stabilize.errorAngle_of, I32.neg, I32.mul, I32.sub.
  cbv zeta. unfold in_int16 in *.
  rewrite (int32_id (2 * rc)) by (unfold in_int32; lia).
  rewrite (int32_id (- _)) by (unfold in_int32; lia).
  destruct (Z.ltb_spec (2 * rc)
              (- Stabilize.CONFIG_MAX_ANGLE_INCLINATION c)); [reflexivity |].
  destruct (Z.gtb_spec (2 * rc) (Stabilize.CONFIG_MAX_ANGLE_INCLINATION c)).
  - rewrite Z.min_r by lia. apply int32_id. unfold in_int32. lia.
  - rewrite Z.min_l by lia. apply int32_id. unfold in_int32. lia.
Qed.

(** X3.  The levelling error is not symmetric.  The [constrain] macro
    expands without outer parentheses, so [- angle[axis]] belongs to its
    second branch only: when twice the demand is below
    [-CONFIG_MAX_ANGLE_INCLINATION] the angle-levelling term is
    [-MAX * LEVEL_P / 100] whatever the measured angle is; otherwise it is
    [(min(2 * demand, MAX) - angle) * LEVEL_P / 100]. *)
Theorem X3_levelling_term_ignores_angle_below_lower_bound
    (c : Stabilize.Config) (rcCommand gyroADC angle : list Z)
    (s : Stabilize.t) (axis : nat) :
  (axis < 2)%nat ->
  0 <= Stabilize.CONFIG_MAX_ANGLE_INCLINATION c < 2 ^ 31 ->
  Z.abs (Stabilize.CONFIG_LEVEL_P c) <= 10000 ->
  in_int16 (rcCommand !!! axis) -> in_int16 (angle !!! axis) ->
  let l := snd (Stabilize.update_axis c rcCommand gyroADC angle axis s) in
  let MAX := Stabilize.CONFIG_MAX_ANGLE_INCLINATION c in
  (2 * rcCommand !!! axis < - MAX ->
   Stabilize.l_PTermACC l = - MAX * Stabilize.CONFIG_LEVEL_P c ÷ 100)
  /\ (- MAX <= 2 * rcCommand !!! axis ->
      Stabilize.l_PTermACC l
      = (Z.min (2 * rcCommand !!! axis) MAX - angle !!! axis)
        * Stabilize.CONFIG_LEVEL_P c ÷ 100).
Proof.
  intros Hax Hmax HP Hrc Ha l MAX.
  destruct (update_axis_locals c rcCommand gyroADC angle axis s Hax)
    as (_ & _ & Eacc & _).
  fold l in Eacc. rewrite Eacc, errorAngle_of_cases by done. fold MAX.
  unfold in_int16 in *.
  assert (Hfit : forall e, Z.abs e <= 98304 ->
            I32.div (I32.mul e (Stabilize.CONFIG_LEVEL_P c)) 100
            = e * Stabilize.CONFIG_LEVEL_P c ÷ 100).
  { intros e He. unfold I32.div, I32.mul.
    assert (Hp : Z.abs (e * Stabilize.CONFIG_LEVEL_P c) <= 983040000)
      by (rewrite Z.abs_mul; nia).
    rewrite (int32_id (e * _)) by (unfold in_int32; lia).
    apply int32_id. unfold in_int32.
    pose proof (quot_bound _ 100 _ ltac:(lia) Hp). lia. }
  split; intros H.
  - destruct (Z.ltb_spec (2 * rcCommand !!! axis) (- MAX)); [| lia].
    apply Hfit. lia.
  - destruct (Z.ltb_spec (2 * rcCommand !!! axis) (- MAX)); [lia |].
    apply Hfit. lia.
Qed.

Lemma X3_levelling_term_ignores_angle_below_lower_bound_witness :
  Stabilize.l_PTermACC
    (snd (Stabilize.update_axis example_config [-300; 0; 0; 1500] [0; 0; 0]
            [77; 0; 0] 0 (Stabilize.init example_config example_storage)))
  = - 500 * 90 ÷ 100
  /\ Stabilize.l_PTermACC
       (snd (Stabilize.update_axis example_config [300; 0; 0; 1500] [0; 0; 0]
               [77; 0; 0] 0 (Stabilize.init example_config example_storage)))
     = (Z.min (2 * 300) 500 - 77) * 90 ÷ 100.
Proof.
  split.
  - apply (X3_levelling_term_ignores_angle_below_lower_bound example_config
             [-300; 0; 0; 1500] [0; 0; 0] [77; 0; 0]
             (Stabilize.init example_config example_storage) 0%nat);
      vm_compute; try lia; try (split; [discriminate | reflexivity]);
      try discriminate; reflexivity.
  - apply (X3_levelling_term_ignores_angle_below_lower_bound example_config
             [300; 0; 0; 1500] [0; 0; 0] [77; 0; 0]
             (Stabilize.init example_config example_storage) 0%nat);
      vm_compute; try lia; try (split; [discriminate | reflexivity]);
      try discriminate; reflexivity.
Defined.

(** X4.  On 16-bit demands and rates, a non-zero 8-bit gain and an
    accumulator within the windup bound, the 32-bit arithmetic that leads to
    the clamp of the integral is exact: the error is
    [rcCommand * 80 / rate_p - gyroADC] and adding it to the accumulator does
    not wrap. *)
Theorem X4_integral_arithmetic_does_not_wrap
    (c : Stabilize.Config) (rcCommand gyroADC angle : list Z) (axis : nat)
    (s : Stabilize.t) :
  (axis < 3)%nat -> windup_ok s ->
  in_int16 (rcCommand !!! axis) -> in_int16 (gyroADC !!! axis) ->
  0 < Stabilize.rate_p s !!! axis < 256 ->
  let l := snd (Stabilize.update_axis c rcCommand gyroADC angle axis s) in
  Stabilize.l_error l
  = rcCommand !!! axis * 10 * 8 ÷ Stabilize.rate_p s !!! axis
    - gyroADC !!! axis
  /\ I32.add (Stabilize.errorGyroI s !!! axis) (Stabilize.l_error l)
     = Stabilize.errorGyroI s !!! axis + Stabilize.l_error l.
Proof. apply integral_arithmetic_exact. Qed.

Lemma X4_integral_arithmetic_does_not_wrap_witness :
  Stabilize.l_error
    (snd (Stabilize.update_axis example_config [500; 0; 0; 1500]
            [-32768; 0; 0] [0; 0; 0] 0
            (Stabilize.init example_config example_storage)))
  = 500 * 10 * 8 ÷ 36 - -32768.
Proof.
  apply (X4_integral_arithmetic_does_not_wrap example_config
           [500; 0; 0; 1500] [-32768; 0; 0] [0; 0; 0] 0%nat
           (Stabilize.init example_config example_storage)).
  - lia.
  - apply windup_init. repeat split.
  - vm_compute. split; [discriminate | reflexivity].
  - vm_compute. split; [discriminate | reflexivity].
  - vm_compute. split; reflexivity.
Defined.

(** The gains and the derivative history after one turn of the loop. *)
Lemma update_axis_history c rcCommand gyroADC angle axis s :
  let r := Stabilize.update_axis c rcCommand gyroADC angle axis s in
  let g := gyroADC !!! axis in
  let delta := I32.sub g (Stabilize.lastGyro s !!! axis) in
  Stabilize.rate_p (fst r) = Stabilize.rate_p s
  /\ Stabilize.rate_i (fst r) = Stabilize.rate_i s
  /\ Stabilize.rate_d (fst r) = Stabilize.rate_d s
  /\ Stabilize.lastGyro (fst r) = <[axis := g]> (Stabilize.lastGyro s)
  /\ Stabilize.delta1 (fst r) = <[axis := delta]> (Stabilize.delta1 s)
  /\ Stabilize.delta2 (fst r)
     = <[axis := Stabilize.delta1 s !!! axis]> (Stabilize.delta2 s)
  /\ Stabilize.l_DTerm (snd r)
     = I32.div
         (I32.mul
            (I32.add (I32.add (Stabilize.delta1 s !!! axis)
                              (Stabilize.delta2 s !!! axis)) delta)
            (Stabilize.rate_d s !!! axis)) 32.
Proof.
  unfold Stabilize.update_axis.
  destruct (_ || _); destruct (axis <? 2)%nat; stabilize_exec; repeat split.
Qed.

(** X5.  The derivative term is taken over three samples.  When the history
    of an axis holds the last three rates [g1], [g2], [g3] (16-bit values,
    8-bit gain), the D term of the next update is
    [(gyroADC[axis] - g3) * rate_d[axis] / 32], the change of the rate over
    three samples, and the history moves on by one sample. *)
Theorem X5_derivative_spans_three_samples
    (c : Stabilize.Config) (rcCommand gyroADC angle : list Z)
    (s : Stabilize.t) (axis : nat) (g1 g2 g3 : Z) :
  Stabilize.sized s -> (axis < 3)%nat ->
  in_int16 (gyroADC !!! axis) -> in_int16 g1 -> in_int16 g2 -> in_int16 g3 ->
  0 <= Stabilize.rate_d s !!! axis < 256 ->
  rate_history s axis g1 g2 g3 ->
  let r := Stabilize.update_axis c rcCommand gyroADC angle axis s in
  Stabilize.l_DTerm (snd r)
  = (gyroADC !!! axis - g3) * Stabilize.rate_d s !!! axis ÷ 32
  /\ rate_history (fst r) axis (gyroADC !!! axis) g1 g2.
Proof.
  intros Hs Hax Hg H1 H2 H3 Hd (El & Ed1 & Ed2) r.
  destruct (update_axis_history c rcCommand gyroADC angle axis s)
    as (_ & _ & _ & EL & ED1 & ED2 & EDT).
  fold r in EL, ED1, ED2, EDT.
  destruct Hs as (_ & _ & _ & Ll & L1 & L2 & _).
  unfold in_int16 in *.
  assert (Edelta : I32.sub (gyroADC !!! axis) (Stabilize.lastGyro s !!! axis)
                   = gyroADC !!! axis - g1).
  { rewrite El. apply int32_id. unfold in_int32. lia. }
  split.
  - rewrite EDT, Edelta, Ed1, Ed2. unfold I32.div, I32.mul, I32.add.
    rewrite (int32_id (g1 - g2 + (g2 - g3))) by (unfold in_int32; lia).
    rewrite (int32_id (g1 - g2 + (g2 - g3) + _)) by (unfold in_int32; lia).
    replace (g1 - g2 + (g2 - g3) + (gyroADC !!! axis - g1))
      with (gyroADC !!! axis - g3) by lia.
    assert (Hp : Z.abs ((gyroADC !!! axis - g3)
                        * Stabilize.rate_d s !!! axis) <= 16711680)
      by (rewrite Z.abs_mul; nia).
    rewrite (int32_id (_ * _)) by (unfold in_int32; lia).
    apply int32_id. unfold in_int32.
    pose proof (quot_bound _ 32 _ ltac:(lia) Hp). lia.
  - unfold rate_history. rewrite EL, ED1, ED2, Edelta.
    rewrite !list_lookup_total_insert_eq by lia. by rewrite Ed1.
Qed.

Lemma X5_derivative_spans_three_samples_witness :
  let s := Stabilize.run example_config
             [Stabilize.Update [0; 0; 0; 1500] [10; 0; 0] [0; 0; 0];
              Stabilize.Update [0; 0; 0; 1500] [30; 0; 0] [0; 0; 0];
              Stabilize.Update [0; 0; 0; 1500] [60; 0; 0] [0; 0; 0]]
             (Stabilize.init example_config example_storage) in
  Stabilize.l_DTerm
    (snd (Stabilize.update_axis example_config [0; 0; 0; 1500] [100; 0; 0]
            [0; 0; 0] 0 s))
  = (100 - 10) * 23 ÷ 32.
Proof.
  cbv zeta.
  refine (proj1 (X5_derivative_spans_three_samples example_config
                   [0; 0; 0; 1500] [100; 0; 0] [0; 0; 0] _ 0%nat 60 30 10
                   _ _ _ _ _ _ _ _));
    vm_compute; repeat split; try discriminate; lia.
Defined.

(** The controller after [init] and any calls: the gains are those of
    the configuration. *)
Lemma gains_update c rcCommand gyroADC angle s :
  Stabilize.rate_p (Stabilize.update c rcCommand gyroADC angle s)
  = Stabilize.rate_p s
  /\ Stabilize.rate_i (Stabilize.update c rcCommand gyroADC angle s)
     = Stabilize.rate_i s
  /\ Stabilize.rate_d (Stabilize.update c rcCommand gyroADC angle s)
     = Stabilize.rate_d s.
Proof.
  rewrite update_eq.
  set (s1 := fst (Stabilize.update_axis c rcCommand gyroADC angle 0 s)).
  set (s2 := fst (Stabilize.update_axis c rcCommand gyroADC angle 1 s1)).
  destruct (update_axis_history c rcCommand gyroADC angle 0 s)
    as (P0 & I0 & D0 & _).
  destruct (update_axis_history c rcCommand gyroADC angle 1 s1)
    as (P1 & I1 & D1 & _).
  destruct (update_axis_history c rcCommand gyroADC angle 2 s2)
    as (P2 & I2 & D2 & _).
  fold s1 in P0, I0, D0. fold s2 in P1, I1, D1.
  destruct (gains_yaw_clamp rcCommand
              (fst (Stabilize.update_axis c rcCommand gyroADC angle 2 s2)))
    as (-> & -> & ->).
  rewrite P2, P1, P0, I2, I1, I0, D2, D1, D0. done.
Qed.

Lemma gains_run c ks : forall s,
  Stabilize.rate_p (Stabilize.run c ks s) = Stabilize.rate_p s
  /\ Stabilize.rate_i (Stabilize.run c ks s) = Stabilize.rate_i s
  /\ Stabilize.rate_d (Stabilize.run c ks s) = Stabilize.rate_d s.
Proof.
  unfold Stabilize.run.
  induction ks as [| k ks IH]; intros s; [done |].
  cbn [fold_left]. destruct (IH (Stabilize.step c s k)) as (-> & -> & ->).
  destruct k as [rcCommand gyroADC angle |]; cbn [Stabilize.step];
    [apply gains_update | done].
Qed.

(** X6.  Nothing but [init] writes the gains, and yaw has no derivative
    term: after [init] and any sequence of updates and resets the three
    gain arrays are the (8-bit) configuration constants, with
    [rate_d[YAW] = 0], so the D term of the yaw axis is 0 on every update. *)
Theorem X6_gains_fixed_and_yaw_has_no_derivative
    (c : Stabilize.Config) (mem : Stabilize.t) (ks : list Stabilize.call)
    (rcCommand gyroADC angle : list Z) :
  Stabilize.sized mem ->
  let s := Stabilize.run c ks (Stabilize.init c mem) in
  Stabilize.rate_p s
  = [uint8_t (Stabilize.CONFIG_RATE_PITCHROLL_P c);
     uint8_t (Stabilize.CONFIG_RATE_PITCHROLL_P c);
     uint8_t (Stabilize.CONFIG_YAW_P c)]
  /\ Stabilize.rate_i s
     = [uint8_t (Stabilize.CONFIG_RATE_PITCHROLL_I c);
        uint8_t (Stabilize.CONFIG_RATE_PITCHROLL_I c);
        uint8_t (Stabilize.CONFIG_YAW_I c)]
  /\ Stabilize.rate_d s
     = [uint8_t (Stabilize.CONFIG_RATE_PITCHROLL_D c);
        uint8_t (Stabilize.CONFIG_RATE_PITCHROLL_D c); 0]
  /\ Stabilize.l_DTerm
       (snd (Stabilize.update_axis c rcCommand gyroADC angle AXIS_YAW s))
     = 0.
Proof.
  intros Hm s.
  destruct (gains_run c ks (Stabilize.init c mem)) as (EP & EI & ED).
  fold s in EP, EI, ED. rewrite Stabilize_init_eq in EP, EI, ED by done.
  cbn [Stabilize.initialised Stabilize.rate_p Stabilize.rate_i
       Stabilize.rate_d] in EP, EI, ED.
  repeat split; [exact EP | exact EI | exact ED |].
  destruct (update_axis_history c rcCommand gyroADC angle AXIS_YAW s)
    as (_ & _ & _ & _ & _ & _ & ->).
  rewrite ED. unfold I32.div, I32.mul.
  change ([?a; ?b; 0] !!! AXIS_YAW) with 0. by rewrite Z.mul_0_r.
Qed.

Lemma X6_gains_fixed_and_yaw_has_no_derivative_witness :
  let s := Stabilize.run example_config
             [Stabilize.Update [0; 0; 50; 1500] [0; 0; 300] [0; 0; 0];
              Stabilize.ResetIntegral]
             (Stabilize.init example_config example_storage) in
  Stabilize.rate_d s = [23; 23; 0]
  /\ Stabilize.l_DTerm
       (snd (Stabilize.update_axis example_config [0; 0; 50; 1500]
               [0; 0; -300] [0; 0; 0] AXIS_YAW s)) = 0.
Proof.
  cbv zeta.
  destruct (X6_gains_fixed_and_yaw_has_no_derivative example_config
              example_storage
              [Stabilize.Update [0; 0; 50; 1500] [0; 0; 300] [0; 0; 0];
               Stabilize.ResetIntegral]
              [0; 0; 50; 1500] [0; 0; -300] [0; 0; 0])
    as (_ & _ & HD & HT); [repeat split |].
  split; [exact HD | exact HT].
Defined.

Lemma same_but_axisPID_eq s s' :
  same_but_axisPID s s' -> Stabilize.axisPID s = Stabilize.axisPID s' ->
  s = s'.
Proof.
  destruct s, s'. unfold same_but_axisPID. cbn.
  intros (-> & -> & -> & -> & -> & -> & -> & ->) ->. reflexivity.
Qed.

(** A turn of the loop reads nothing of [axisPID]: on two controllers that
    differ only there it stores the same value and leaves them differing
    only there. *)
Lemma update_axis_same_but_axisPID c rcCommand gyroADC angle axis s s' :
  same_but_axisPID s s' ->
  exists v,
    Stabilize.axisPID
      (fst (Stabilize.update_axis c rcCommand gyroADC angle axis s))
    = <[axis := v]> (Stabilize.axisPID s)
    /\ Stabilize.axisPID
         (fst (Stabilize.update_axis c rcCommand gyroADC angle axis s'))
       = <[axis := v]> (Stabilize.axisPID s')
    /\ same_but_axisPID
         (fst (Stabilize.update_axis c rcCommand gyroADC angle axis s))
         (fst (Stabilize.update_axis c rcCommand gyroADC angle axis s')).
Proof.
  destruct s, s'. unfold same_but_axisPID. cbn.
  intros (-> & -> & -> & -> & -> & -> & -> & ->).
  unfold Stabilize.update_axis. stabilize_exec.
  destruct (_ || _); destruct (axis <? 2)%nat; stabilize_exec;
    eexists; repeat split.
Qed.

(** X7.  [init] does not write [axisPID], but the first update overwrites
    all three entries without reading them: the controller after [init] and
    one update is the same whatever the storage of the object held
    before. *)
Theorem X7_first_update_independent_of_storage
    (c : Stabilize.Config) (rcCommand gyroADC angle : list Z)
    (mem1 mem2 : Stabilize.t) :
  Stabilize.sized mem1 -> Stabilize.sized mem2 ->
  Stabilize.update c rcCommand gyroADC angle (Stabilize.init c mem1)
  = Stabilize.update c rcCommand gyroADC angle (Stabilize.init c mem2).
Proof.
  intros H1 H2. rewrite !Stabilize_init_eq, !update_eq by done.
  destruct H1 as (_ & _ & _ & _ & _ & _ & _ & _ & L1).
  destruct H2 as (_ & _ & _ & _ & _ & _ & _ & _ & L2).
  set (p1 := Stabilize.axisPID mem1) in *.
  set (p2 := Stabilize.axisPID mem2) in *.
  assert (S0 : same_but_axisPID (Stabilize.initialised c p1)
                                (Stabilize.initialised c p2))
    by (repeat split).
  destruct (update_axis_same_but_axisPID c rcCommand gyroADC angle 0 _ _ S0)
    as (v0 & E0 & E0' & S1).
  destruct (update_axis_same_but_axisPID c rcCommand gyroADC angle 1 _ _ S1)
    as (v1 & E1 & E1' & S2).
  destruct (update_axis_same_but_axisPID c rcCommand gyroADC angle 2 _ _ S2)
    as (v2 & E2 & E2' & S3).
  apply (f_equal (Stabilize.yaw_clamp rcCommand)).
  apply same_but_axisPID_eq; [exact S3 |].
  rewrite E2, E2', E1, E1', E0, E0'.
  change (Stabilize.axisPID (Stabilize.initialised c ?p)) with p.
  destruct p1 as [| ? [| ? [| ? [| ? ?]]]]; try discriminate L1.
  destruct p2 as [| ? [| ? [| ? [| ? ?]]]]; try discriminate L2.
  reflexivity.
Qed.

Lemma X7_first_update_independent_of_storage_witness :
  Stabilize.update example_config [100; -50; 20; 1500] [30; -20; 5]
    [10; -20; 0] (Stabilize.init example_config example_storage)
  = Stabilize.update example_config [100; -50; 20; 1500] [30; -20; 5]
      [10; -20; 0]
      (Stabilize.init example_config (Hackflight.stab Hackflight.zeroed)).
Proof.
  apply X7_first_update_independent_of_storage; repeat split.
Defined.

(** X8.  No history is carried over a reset.  For 16-bit demands and rates
    and non-zero 8-bit gains, the accumulator [errorGyroI[axis]] after
    [resetIntegral] and one update is the clamp of that update's error
    alone, [rcCommand * 80 / rate_p - gyroADC], or 0 when the rate or yaw
    demand is big: what had been accumulated before the reset plays no
    part. *)
Theorem X8_integral_after_reset_is_single_sample
    (c : Stabilize.Config) (rcCommand gyroADC angle : list Z)
    (s : Stabilize.t) (axis : nat) :
  Stabilize.sized s -> (axis < 3)%nat ->
  in_int16 (rcCommand !!! axis) -> in_int16 (gyroADC !!! axis) ->
  0 < Stabilize.rate_p s !!! axis < 256 ->
  Stabilize.errorGyroI
    (Stabilize.update c rcCommand gyroADC angle (Stabilize.resetIntegral s))
    !!! axis
  = if reset_condition rcCommand gyroADC axis then 0
    else constrain (rcCommand !!! axis * 10 * 8 ÷ Stabilize.rate_p s !!! axis
                    - gyroADC !!! axis) (-16000) 16000.
Proof.
  intros Hs Hax Hrc Hg Hp.
  set (s0 := Stabilize.resetIntegral s).
  assert (Hs0 : Stabilize.sized s0) by (by apply sized_resetIntegral).
  assert (Z0 : forall j, (j < 3)%nat -> Stabilize.errorGyroI s0 !!! j = 0)
    by (intros j Hj; by apply errorGyroI_resetIntegral).
  assert (P0 : Stabilize.rate_p s0 = Stabilize.rate_p s) by reflexivity.
  (* the turn of [axis] starts from a state [t] that still has 0 there *)
  assert (Hturn : forall t,
            Stabilize.sized t -> Stabilize.errorGyroI t !!! axis = 0 ->
            Stabilize.rate_p t = Stabilize.rate_p s ->
            Stabilize.errorGyroI
              (fst (Stabilize.update_axis c rcCommand gyroADC angle axis t))
              !!! axis
            = if reset_condition rcCommand gyroADC axis then 0
              else constrain
                     (rcCommand !!! axis * 10 * 8
                      ÷ Stabilize.rate_p s !!! axis - gyroADC !!! axis)
                     (-16000) 16000).
  { intros t Ht Et Ep. rewrite errorGyroI_update_axis. cbv zeta.
    assert (Lt : (axis < length (Stabilize.errorGyroI t))%nat).
    { destruct Ht as (_ & _ & _ & _ & _ & _ & -> & _). lia. }
    assert (El : Stabilize.l_error
                   (snd (Stabilize.update_axis c rcCommand gyroADC angle axis
                                               t))
                 = rcCommand !!! axis * 10 * 8 ÷ Stabilize.rate_p s !!! axis
                   - gyroADC !!! axis).
    { unfold Stabilize.update_axis.
      destruct (_ || _); destruct (axis <? 2)%nat; stabilize_exec;
        rewrite Ep; unfold I32.sub, I32.div, I32.mul; unfold in_int16 in *;
        set (rc := rcCommand !!! axis) in *;
        set (p := Stabilize.rate_p s !!! axis) in *;
        (assert (Hq : Z.abs (rc * 10 * 8 ÷ p) <= 2621440)
          by (apply quot_bound; lia));
        rewrite (int32_id (rc * 10)) by (unfold in_int32; lia);
        rewrite (int32_id (rc * 10 * 8)) by (unfold in_int32; lia);
        rewrite (int32_id (_ ÷ _)) by (unfold in_int32; lia);
        apply int32_id; unfold in_int32; lia. }
    rewrite El, Et. unfold I32.add. rewrite Z.add_0_l.
    assert (Hq : Z.abs (rcCommand !!! axis * 10 * 8
                        ÷ Stabilize.rate_p s !!! axis) <= 2621440)
      by (apply quot_bound; unfold in_int16 in *; lia).
    rewrite int32_id by (unfold in_int16, in_int32 in *; lia).
    destruct (reset_condition rcCommand gyroADC axis).
    - apply list_lookup_total_insert_eq. by rewrite length_insert.
    - by apply list_lookup_total_insert_eq. }
  rewrite update_eq, errorGyroI_yaw_clamp.
  pose proof (sized_update_axis c rcCommand gyroADC angle 0 s0 Hs0) as Hs1.
  pose proof (sized_update_axis c rcCommand gyroADC angle 1 _ Hs1) as Hs2.
  destruct (update_axis_history c rcCommand gyroADC angle 0 s0)
    as (Q0 & _).
  destruct (update_axis_history c rcCommand gyroADC angle 1
              (fst (Stabilize.update_axis c rcCommand gyroADC angle 0 s0)))
    as (Q1 & _).
  destruct axis as [| [| [| axis]]]; [| | | lia].
  - rewrite !errorGyroI_update_axis_other by lia.
    apply Hturn; [done | by apply Z0 | done].
  - rewrite errorGyroI_update_axis_other by lia.
    apply Hturn; [done | | congruence].
    rewrite errorGyroI_update_axis_other by lia. by apply Z0.
  - apply Hturn; [done | | congruence].
    rewrite !errorGyroI_update_axis_other by lia. by apply Z0.
Qed.

Lemma X8_integral_after_reset_is_single_sample_witness :
  Stabilize.errorGyroI
    (Stabilize.update example_config [100; 0; 0; 1500] [30; 0; 0] [0; 0; 0]
       (Stabilize.resetIntegral (Hackflight.stab example_disarmed)))
    !!! 0%nat
  = 192.
Proof.
  etransitivity.
  - apply (X8_integral_after_reset_is_single_sample example_config
             [100; 0; 0; 1500] [30; 0; 0] [0; 0; 0]
             (Hackflight.stab example_disarmed) 0%nat);
      vm_compute; repeat split; try discriminate; lia.
  - reflexivity.
Defined.

(** ** The floating-point controller *)

#[local] Open Scope Q_scope.

Lemma constrainMinMax_proper x y lo hi :
  x == y -> Filter.constrainMinMax x lo hi == Filter.constrainMinMax y lo hi.
Proof.
  intros E. unfold Filter.constrainMinMax.
  destruct (Qltb_spec x lo), (Qltb_spec y lo); try lra.
  destruct (Qgtb_spec x hi), (Qgtb_spec y hi); lra.
Qed.

Lemma constrainAbs_proper x y m :
  x == y -> Filter.constrainAbs x m == Filter.constrainAbs y m.
Proof. apply constrainMinMax_proper. Qed.

(** [computeCyclicPid] as the sum it returns and the history it stores. *)
Lemma computeCyclicPid_eq rcCommand prop eulerAngles gyro imuAxis s :
  let r := Stabilizer.computeCyclicPid rcCommand prop eulerAngles gyro
                                       imuAxis s in
  let g := gyro !!! imuAxis in
  let delta := g - Stabilizer.lastGyro s !!! imuAxis in
  fst r
  = Stabilizer.cyclicPTerm rcCommand prop eulerAngles imuAxis s
    - g * Stabilizer._gyroCyclicP s
    + fst (Stabilizer.computeITermGyro (Stabilizer._gyroCyclicP s)
             (Stabilizer._gyroCyclicI s) rcCommand gyro imuAxis s) * prop
    - (Stabilizer.gyroDelta1 s !!! imuAxis
       + Stabilizer.gyroDelta2 s !!! imuAxis + delta)
      * Stabilizer._gyroCyclicD s
  /\ Stabilizer.lastGyro (snd r) = <[imuAxis := g]> (Stabilizer.lastGyro s)
  /\ Stabilizer.gyroDelta1 (snd r)
     = <[imuAxis := delta]> (Stabilizer.gyroDelta1 s)
  /\ Stabilizer.gyroDelta2 (snd r)
     = <[imuAxis := Stabilizer.gyroDelta1 s !!! imuAxis]>
         (Stabilizer.gyroDelta2 s).
Proof.
  cbv zeta. unfold Stabilizer.computeCyclicPid.
  pose proof (frame_computeITermGyro (Stabilizer._gyroCyclicP s)
                (Stabilizer._gyroCyclicI s) rcCommand gyro imuAxis s) as F.
  destruct (Stabilizer.computeITermGyro _ _ _ _ _ _) as [i s'].
  cbn [fst snd] in F |- *.
  destruct F as (FL & FP & _ & FD & _ & _ & Fl & F1 & F2 & _).
  stabilizer_exec. unfold Stabilizer.computePid, Stabilizer.cyclicPTerm,
    Stabilizer.PTermEuler.
  rewrite FL, FP, FD, Fl, F1, F2. repeat split.
Qed.

(** X9.  The derivative term of roll and pitch is taken over three
    samples.  When the history of the axis holds the last three rates [g1],
    [g2], [g3], [computeCyclicPid] returns
    [P + I - (gyro[axis] - g3) * gyroCyclicD] with
    [P = blended term - gyro[axis] * gyroCyclicP] and
    [I = ITermGyro * prop], and the history moves on by one sample. *)
Theorem X9_cyclic_pid_derivative_spans_three_samples
    (rcCommand prop : Q) (eulerAngles gyro : list Q) (imuAxis : nat)
    (s : Stabilizer.t) (g1 g2 g3 : Q) :
  Stabilizer.sized s -> (imuAxis < 2)%nat ->
  rate_historyQ s imuAxis g1 g2 g3 ->
  let r := Stabilizer.computeCyclicPid rcCommand prop eulerAngles gyro
                                       imuAxis s in
  fst r
  == Stabilizer.cyclicPTerm rcCommand prop eulerAngles imuAxis s
     - gyro !!! imuAxis * Stabilizer._gyroCyclicP s
     + fst (Stabilizer.computeITermGyro (Stabilizer._gyroCyclicP s)
              (Stabilizer._gyroCyclicI s) rcCommand gyro imuAxis s) * prop
     - (gyro !!! imuAxis - g3) * Stabilizer._gyroCyclicD s
  /\ rate_historyQ (snd r) imuAxis (gyro !!! imuAxis) g1 g2.
Proof.
  intros (Ll & L1 & L2 & _) Hax (El & E1 & E2) r.
  destruct (computeCyclicPid_eq rcCommand prop eulerAngles gyro imuAxis s)
    as (Ef & EL & ED1 & ED2).
  fold r in Ef, EL, ED1, ED2. split.
  - rewrite Ef, E1, E2, El. ring.
  - unfold rate_historyQ. rewrite EL, ED1, ED2.
    rewrite !list_lookup_total_insert_eq by lia.
    rewrite El, E1. repeat split; reflexivity.
Qed.

Lemma X9_cyclic_pid_derivative_spans_three_samples_witness :
  let s := Stabilizer.run
             [Stabilizer.UpdateDemands [0; 0; 0] [1 # 8; 0; 0]
                {| Stabilizer.roll := 0; Stabilizer.pitch := 0;
                   Stabilizer.yaw := 0 |};
              Stabilizer.UpdateDemands [0; 0; 0] [1 # 4; 0; 0]
                {| Stabilizer.roll := 0; Stabilizer.pitch := 0;
                   Stabilizer.yaw := 0 |}]
             example_stabilizer in
  rate_historyQ
    (snd (Stabilizer.computeCyclicPid 0 0 [0; 0; 0] [1 # 2; 0; 0] AXIS_ROLL s))
    AXIS_ROLL (1 # 2) (1 # 4) (1 # 8).
Proof.
  cbv zeta.
  refine (proj2 (X9_cyclic_pid_derivative_spans_three_samples 0 0 [0; 0; 0]
                   [1 # 2; 0; 0] AXIS_ROLL _ (1 # 4) (1 # 8) 0 _ _ _)).
  - repeat split.
  - unfold AXIS_ROLL. lia.
  - vm_compute. repeat split.
Defined.

(** X10.  [constrainCyclicDemand] scales a demand down with the tilt: for a
    positive [maxArmingAngle] and a tilt of at most that angle the result
    has the sign of the demand and at most its magnitude, it is the demand
    itself on the level and 0 at the maximal angle; beyond the maximal angle
    the factor is negative, so the result has the opposite sign. *)
Theorem X10_constrainCyclicDemand_scales_with_tilt
    (eulerAngle demand : Q) (s : Stabilizer.t) :
  0 < Stabilizer.maxArmingAngle s ->
  let r := Stabilizer.constrainCyclicDemand eulerAngle demand s in
  (Qabs eulerAngle <= Stabilizer.maxArmingAngle s ->
   0 <= demand * r /\ Qabs r <= Qabs demand)
  /\ (eulerAngle == 0 -> r == demand)
  /\ (Qabs eulerAngle == Stabilizer.maxArmingAngle s -> r == 0)
  /\ (Stabilizer.maxArmingAngle s < Qabs eulerAngle -> demand * r <= 0).
Proof.
  intros Hm r. subst r. unfold Stabilizer.constrainCyclicDemand.
  set (m := Stabilizer.maxArmingAngle s) in *.
  pose proof (Qabs_nonneg eulerAngle) as Ha.
  assert (Ha0 : eulerAngle == 0 -> Qabs eulerAngle == 0)
    by (intros ->; reflexivity).
  set (a := Qabs eulerAngle) in *.
  assert (Et : (1 - a / m) * m == m - a) by (field; lra).
  set (t := 1 - a / m) in *. clearbody t a m.
  assert (Hsq : 0 <= demand * demand) by nra.
  assert (Hpos : forall x, 0 <= x * m -> 0 <= x).
  { intros x Hx. destruct (Qlt_le_dec x 0) as [Hn |]; [| done].
    pose proof (Qmult_lt_0_compat (- x) m ltac:(lra) Hm). lra. }
  assert (Hmul : forall x : Q, 0 <= x -> 0 <= demand * (demand * x)).
  { intros x Hx. pose proof (Qmult_le_0_compat _ _ Hsq Hx). lra. }
  split; [intros Hle; split | split; [| split]].
  - apply Hmul, Hpos. lra.
  - assert (Ht : 0 <= t) by (apply Hpos; lra).
    assert (Ht1 : 0 <= 1 - t) by (apply Hpos; lra).
    rewrite Qabs_Qmult, (Qabs_pos t) by done.
    pose proof (Qabs_nonneg demand) as Hd.
    pose proof (Qmult_le_0_compat _ _ Hd Ht1). lra.
  - intros E. apply Ha0 in E.
    assert (0 <= t - 1) by (apply Hpos; lra).
    assert (0 <= 1 - t) by (apply Hpos; lra).
    assert (Et1 : t == 1) by lra. rewrite Et1. ring.
  - intros E.
    assert (0 <= t) by (apply Hpos; lra).
    assert (0 <= - t) by (apply Hpos; lra).
    assert (Et0 : t == 0) by lra. rewrite Et0. ring.
  - intros Hgt. assert (Ht : 0 <= - t) by (apply Hpos; lra).
    pose proof (Hmul _ Ht). lra.
Qed.

Lemma X10_constrainCyclicDemand_scales_with_tilt_witness :
  Stabilizer.constrainCyclicDemand
    (Stabilizer.degreesToRadians Stabilizer.maxArmingAngleDegrees) (1 # 2)
    example_stabilizer
  == 0.
Proof.
  refine (proj1 (proj2 (proj2
           (X10_constrainCyclicDemand_scales_with_tilt _ _ example_stabilizer
              _))) _);
    vm_compute; reflexivity.
Defined.

(** The accumulator [computeITermGyro] leaves for an axis that was zero. *)
Lemma errorGyroI_computeITermGyro_from_zero rateP rateI rcCommand gyro axis s :
  (axis < length (Stabilizer.errorGyroI s))%nat ->
  Stabilizer.errorGyroI s !!! axis = 0 ->
  Stabilizer.errorGyroI
    (snd (Stabilizer.computeITermGyro rateP rateI rcCommand gyro axis s))
    !!! axis
  == (if reset_conditionQ rcCommand gyro axis s then 0
      else Filter.constrainAbs (rcCommand * rateP - gyro !!! axis)
                               Stabilizer.gyroWindupMax).
Proof.
  intros Hlt E0. rewrite errorGyroI_computeITermGyro. cbv zeta.
  destruct (reset_conditionQ rcCommand gyro axis s).
  - rewrite list_lookup_total_insert_eq by (by rewrite length_insert).
    reflexivity.
  - rewrite list_lookup_total_insert_eq by done. rewrite E0.
    apply constrainAbs_proper. ring.
Qed.

(** X11.  No history is carried over a reset in the floating-point
    controller either: after [resetIntegral] and one [updateDemands], each
    accumulator is the clamp of that update's error alone,
    [demand * rateP - gyro], or 0 when the rate or the yaw demand is big. *)
Theorem X11_float_integral_after_reset_is_single_sample
    (eulerAngles gyroRates : list Q) (demands : Stabilizer.demands_t)
    (s : Stabilizer.t) :
  Stabilizer.sized s ->
  let s' := snd (Stabilizer.updateDemands eulerAngles gyroRates demands
                   (Stabilizer.resetIntegral s)) in
  let single rc rateP axis :=
    if reset_conditionQ rc gyroRates axis s then 0
    else Filter.constrainAbs (rc * rateP - gyroRates !!! axis)
                             Stabilizer.gyroWindupMax in
  Stabilizer.errorGyroI s' !!! AXIS_ROLL
  == single (Stabilizer.roll demands) (Stabilizer._gyroCyclicP s) AXIS_ROLL
  /\ Stabilizer.errorGyroI s' !!! AXIS_PITCH
     == single (Stabilizer.pitch demands) (Stabilizer._gyroCyclicP s)
               AXIS_PITCH
  /\ Stabilizer.errorGyroI s' !!! AXIS_YAW
     == single (Stabilizer.yaw demands) (Stabilizer._gyroYawP s) AXIS_YAW.
Proof.
  intros (_ & _ & _ & Hl) s' single. subst s' single. cbv beta.
  set (s0 := Stabilizer.resetIntegral s).
  assert (L0 : length (Stabilizer.errorGyroI s0) = 3%nat)
    by (subst s0; by rewrite length_errorGyroI_resetIntegral).
  assert (Z0 : forall j, (j < 3)%nat -> Stabilizer.errorGyroI s0 !!! j = 0)
    by (intros j Hj; by apply errorGyroI_resetIntegralQ).
  assert (R0 : forall rc j, reset_conditionQ rc gyroRates j s0
                            = reset_conditionQ rc gyroRates j s)
    by reflexivity.
  rewrite snd_updateDemands. cbv zeta.
  set (prop := Stabilizer.prop_of demands).
  set (s1 := snd (Stabilizer.computeCyclicPid (Stabilizer.roll demands) prop
                    eulerAngles gyroRates AXIS_ROLL s0)).
  set (s2 := snd (Stabilizer.computeCyclicPid (Stabilizer.pitch demands) prop
                    eulerAngles gyroRates AXIS_PITCH s1)).
  assert (L1 : length (Stabilizer.errorGyroI s1) = 3%nat)
    by (subst s1; by rewrite length_errorGyroI_computeCyclicPid).
  assert (L2 : length (Stabilizer.errorGyroI s2) = 3%nat)
    by (subst s2; by rewrite length_errorGyroI_computeCyclicPid).
  pose proof (frame_computeCyclicPid (Stabilizer.roll demands) prop
                eulerAngles gyroRates AXIS_ROLL s0) as (_ & FP1 & FY1).
  pose proof (frame_computeCyclicPid (Stabilizer.pitch demands) prop
                eulerAngles gyroRates AXIS_PITCH s1) as (_ & FP2 & FY2).
  fold s1 in FP1, FY1. fold s2 in FP2, FY2.
  change (Stabilizer._gyroCyclicP s0) with (Stabilizer._gyroCyclicP s)
    in FP1.
  change (Stabilizer._gyroYawP s0) with (Stabilizer._gyroYawP s) in FY1.
  (* the accumulators of the axes whose turn has not come are still 0 *)
  assert (E1 : forall j, j <> AXIS_ROLL ->
                 Stabilizer.errorGyroI s1 !!! j
                 = Stabilizer.errorGyroI s0 !!! j).
  { intros j Hj. subst s1. rewrite errorGyroI_computeCyclicPid.
    by apply errorGyroI_computeITermGyro_other. }
  assert (E2 : forall j, j <> AXIS_PITCH ->
                 Stabilizer.errorGyroI s2 !!! j
                 = Stabilizer.errorGyroI s1 !!! j).
  { intros j Hj. subst s2. rewrite errorGyroI_computeCyclicPid.
    by apply errorGyroI_computeITermGyro_other. }
  split; [| split].
  - rewrite errorGyroI_computeITermGyro_other by (unfold AXIS_YAW, AXIS_ROLL; lia).
    rewrite E2 by (unfold AXIS_PITCH, AXIS_ROLL; lia).
    subst s1. rewrite errorGyroI_computeCyclicPid.
    rewrite errorGyroI_computeITermGyro_from_zero
      by (rewrite ?L0; unfold AXIS_ROLL; (lia || apply Z0; lia)).
    rewrite R0. reflexivity.
  - rewrite errorGyroI_computeITermGyro_other
      by (unfold AXIS_YAW, AXIS_PITCH; lia).
    subst s2. rewrite errorGyroI_computeCyclicPid.
    rewrite errorGyroI_computeITermGyro_from_zero.
    + rewrite FP1. unfold s1.
      rewrite reset_conditionQ_computeCyclicPid, R0. reflexivity.
    + rewrite L1. unfold AXIS_PITCH. lia.
    + rewrite E1 by (unfold AXIS_PITCH, AXIS_ROLL; lia).
      apply Z0. unfold AXIS_PITCH. lia.
  - rewrite errorGyroI_computeITermGyro_from_zero.
    + rewrite FY2, FY1. unfold s2, s1.
      rewrite !reset_conditionQ_computeCyclicPid, R0. reflexivity.
    + rewrite L2. unfold AXIS_YAW. lia.
    + rewrite E2, E1 by (unfold AXIS_YAW, AXIS_PITCH, AXIS_ROLL; lia).
      apply Z0. unfold AXIS_YAW. lia.
Qed.

Lemma X11_float_integral_after_reset_is_single_sample_witness :
  Stabilizer.errorGyroI
    (snd (Stabilizer.updateDemands [0; 0; 0] [1 # 4; 0; 0]
            {| Stabilizer.roll := 1 # 4; Stabilizer.pitch := 0;
               Stabilizer.yaw := 0 |}
            (Stabilizer.resetIntegral
               (Stabilizer.set_errorGyroI [15; -3; 2] example_stabilizer))))
    !!! AXIS_ROLL
  == - (3 # 16).
Proof.
  etransitivity.
  - refine (proj1 (X11_float_integral_after_reset_is_single_sample
                     [0; 0; 0] [1 # 4; 0; 0]
                     {| Stabilizer.roll := 1 # 4; Stabilizer.pitch := 0;
                        Stabilizer.yaw := 0 |}
                     (Stabilizer.set_errorGyroI [15; -3; 2] example_stabilizer)
                     _)).
    repeat split.
  - vm_compute. reflexivity.
Defined.

(** The integral term [computeITermGyro] returns is the accumulator it
    leaves, times the integral gain. *)
Lemma fst_computeITermGyro rateP rateI rcCommand gyro axis s :
  fst (Stabilizer.computeITermGyro rateP rateI rcCommand gyro axis s)
  = Stabilizer.errorGyroI
      (snd (Stabilizer.computeITermGyro rateP rateI rcCommand gyro axis s))
      !!! axis * rateI.
Proof. reflexivity. Qed.

(** What a cyclic axis computation leaves for the yaw computation. *)
Lemma yaw_frame_computeCyclicPid rcCommand prop eulerAngles gyro imuAxis s :
  let s' :=
    snd (Stabilizer.computeCyclicPid rcCommand prop eulerAngles gyro imuAxis s)
  in
  Stabilizer._gyroYawP s' = Stabilizer._gyroYawP s
  /\ Stabilizer._gyroYawI s' = Stabilizer._gyroYawI s
  /\ Stabilizer.bigGyroRate s' = Stabilizer.bigGyroRate s
  /\ length (Stabilizer.errorGyroI s') = length (Stabilizer.errorGyroI s)
  /\ forall j, j <> imuAxis ->
       Stabilizer.errorGyroI s' !!! j = Stabilizer.errorGyroI s !!! j.
Proof.
  cbv zeta. split; [| split; [| split; [| split]]].
  - apply frame_computeCyclicPid.
  - unfold Stabilizer.computeCyclicPid.
    pose proof (frame_computeITermGyro (Stabilizer._gyroCyclicP s)
                  (Stabilizer._gyroCyclicI s) rcCommand gyro imuAxis s) as F.
    destruct (Stabilizer.computeITermGyro _ _ _ _ _ _) as [i s'].
    cbn [snd] in F. stabilizer_exec. tauto.
  - apply bigGyroRate_computeCyclicPid.
  - apply length_errorGyroI_computeCyclicPid.
  - intros j Hj. rewrite errorGyroI_computeCyclicPid.
    by apply errorGyroI_computeITermGyro_other.
Qed.

(** The accumulator [computeITermGyro] leaves for its axis depends on the
    state through that accumulator and the big-rate threshold only. *)
Lemma errorGyroI_computeITermGyro_ext rateP rateI rcCommand gyro axis s s' :
  (axis < length (Stabilizer.errorGyroI s))%nat ->
  length (Stabilizer.errorGyroI s') = length (Stabilizer.errorGyroI s) ->
  Stabilizer.errorGyroI s' !!! axis = Stabilizer.errorGyroI s !!! axis ->
  Stabilizer.bigGyroRate s' = Stabilizer.bigGyroRate s ->
  Stabilizer.errorGyroI
    (snd (Stabilizer.computeITermGyro rateP rateI rcCommand gyro axis s'))
    !!! axis
  = Stabilizer.errorGyroI
      (snd (Stabilizer.computeITermGyro rateP rateI rcCommand gyro axis s))
      !!! axis.
Proof.
  intros Hlt Hl He Hb. rewrite !errorGyroI_computeITermGyro. cbv zeta.
  unfold reset_conditionQ. rewrite Hb, He.
  destruct (_ || _).
  - rewrite !list_lookup_total_insert_eq; rewrite ?length_insert, ?Hl; done.
  - rewrite !list_lookup_total_insert_eq; rewrite ?Hl; done.
Qed.

(** X12.  The yaw correction uses no angle and no derivative, and nothing of
    the roll and pitch computations that run before it: the corrected yaw
    demand is the pilot's demand minus [gyroYawP] times the measured rate,
    plus [gyroYawI] times the yaw accumulator, and that accumulator is the
    one [computeITermGyro] would leave on the state before the update. *)
Theorem X12_float_yaw_output_closed_form
    (eulerAngles gyroRates : list Q) (demands : Stabilizer.demands_t)
    (s : Stabilizer.t) :
  Stabilizer.sized s ->
  let r := Stabilizer.updateDemands eulerAngles gyroRates demands s in
  let errorI :=
    Stabilizer.errorGyroI
      (snd (Stabilizer.computeITermGyro (Stabilizer._gyroYawP s)
              (Stabilizer._gyroYawI s) (Stabilizer.yaw demands) gyroRates
              AXIS_YAW s)) !!! AXIS_YAW in
  Stabilizer.errorGyroI (snd r) !!! AXIS_YAW = errorI
  /\ Stabilizer.yaw (fst r)
     == Stabilizer.yaw demands
        - gyroRates !!! AXIS_YAW * Stabilizer._gyroYawP s
        + errorI * Stabilizer._gyroYawI s.
Proof.
  intros (_ & _ & _ & Hl). cbv zeta.
  pose proof (yaw_frame_computeCyclicPid (Stabilizer.roll demands)
                (Stabilizer.prop_of demands) eulerAngles gyroRates AXIS_ROLL
                s) as F1.
  cbv zeta in F1.
  set (s1 := snd (Stabilizer.computeCyclicPid (Stabilizer.roll demands)
                    (Stabilizer.prop_of demands) eulerAngles gyroRates
                    AXIS_ROLL s)) in F1.
  pose proof (yaw_frame_computeCyclicPid (Stabilizer.pitch demands)
                (Stabilizer.prop_of demands) eulerAngles gyroRates AXIS_PITCH
                s1) as F2.
  cbv zeta in F2.
  set (s2 := snd (Stabilizer.computeCyclicPid (Stabilizer.pitch demands)
                    (Stabilizer.prop_of demands) eulerAngles gyroRates
                    AXIS_PITCH s1)) in F2.
  destruct F1 as (P1 & I1 & B1 & L1 & E1), F2 as (P2 & I2 & B2 & L2 & E2).
  assert (EI : Stabilizer.errorGyroI
                 (snd (Stabilizer.computeITermGyro (Stabilizer._gyroYawP s2)
                         (Stabilizer._gyroYawI s2) (Stabilizer.yaw demands)
                         gyroRates AXIS_YAW s2)) !!! AXIS_YAW
               = Stabilizer.errorGyroI
                   (snd (Stabilizer.computeITermGyro (Stabilizer._gyroYawP s)
                           (Stabilizer._gyroYawI s) (Stabilizer.yaw demands)
                           gyroRates AXIS_YAW s)) !!! AXIS_YAW).
  { rewrite P2, P1, I2, I1. apply errorGyroI_computeITermGyro_ext.
    - rewrite Hl. unfold AXIS_YAW. lia.
    - by rewrite L2, L1.
    - rewrite E2, E1 by (unfold AXIS_YAW, AXIS_PITCH, AXIS_ROLL; lia). done.
    - by rewrite B2, B1. }
  split.
  - rewrite snd_updateDemands. cbv zeta. fold s1. fold s2. exact EI.
  - rewrite <- EI. unfold Stabilizer.updateDemands. cbv zeta.
    subst s2 s1.
    destruct (Stabilizer.computeCyclicPid (Stabilizer.roll demands) _ _ _ _ _)
      as [r s1]. cbn [snd] in *. stabilizer_exec.
    destruct (Stabilizer.computeCyclicPid (Stabilizer.pitch demands) _ _ _ _ _)
      as [p s2]. cbn [snd] in *. stabilizer_exec.
    pose proof (fst_computeITermGyro (Stabilizer._gyroYawP s2)
                  (Stabilizer._gyroYawI s2) (Stabilizer.yaw demands)
                  gyroRates AXIS_YAW s2) as Fi.
    pose proof (frame_computeITermGyro (Stabilizer._gyroYawP s2)
                  (Stabilizer._gyroYawI s2) (Stabilizer.yaw demands)
                  gyroRates AXIS_YAW s2) as F3.
    destruct (Stabilizer.computeITermGyro _ _ _ _ _ _) as [i s3].
    cbn [fst snd] in *. stabilizer_exec.
    destruct F3 as (_ & _ & _ & _ & F3 & _).
    rewrite yaw_clamp_is_identity. unfold Stabilizer.computePid.
    rewrite Fi, F3, P2, P1, I2, I1. ring.
Qed.

Lemma X12_float_yaw_output_closed_form_witness :
  Stabilizer.yaw
    (fst (Stabilizer.updateDemands [1 # 2; - (1 # 4); 3] [1; 2; 1 # 2]
            {| Stabilizer.roll := 1 # 4; Stabilizer.pitch := 1 # 8;
               Stabilizer.yaw := 1 # 16 |}
            example_stabilizer))
  == (1 # 16) - (1 # 2) * Stabilizer._gyroYawP example_stabilizer
     + ((1 # 16) * Stabilizer._gyroYawP example_stabilizer - (1 # 2))
       * Stabilizer._gyroYawI example_stabilizer.
Proof.
  etransitivity.
  - refine (proj2 (X12_float_yaw_output_closed_form
                     [1 # 2; - (1 # 4); 3] [1; 2; 1 # 2]
                     {| Stabilizer.roll := 1 # 4; Stabilizer.pitch := 1 # 8;
                        Stabilizer.yaw := 1 # 16 |}
                     example_stabilizer _)).
    repeat split.
  - vm_compute. reflexivity.
Defined.

#[local] Open Scope Z_scope.

(** ** The flight loop: [initialize], [update], [setup] and [loop] *)

(** Case analysis on a condition that has no conditional inside. *)
Ltac destruct_innermost_if :=
  match goal with
  | |- context [if ?b then _ else _] =>
      lazymatch b with
      | context [if _ then _ else _] => fail
      | _ => destruct b
      end
  end.

Section HackflightBlocks.

Variable c : Hackflight.Config.
Variable i : Hackflight.Inputs.

(** What the block of [rc.changed()] does to the members the arming logic
    reads. *)
Lemma flight_on_sticks_changed k r s :
  let s' := Hackflight.on_sticks_changed k r s in
  Hackflight.calibratingGyroCycles s' = Hackflight.calibratingGyroCycles s
  /\ Hackflight.accCalibrated s' = Hackflight.accCalibrated s
  /\ Hackflight.calibratingG s'
     = (if negb (Hackflight.armed s)
           && (Hackflight.sticks r =? Hackflight.gesture_gyro_calibration k)
        then Hackflight.calibratingGyroCycles s
        else Hackflight.calibratingG s)
  /\ Hackflight.calibratingA s'
     = (if negb (Hackflight.armed s)
           && (Hackflight.sticks r =? Hackflight.gesture_accel_calibration k)
        then Hackflight.calibratingAccCycles s
        else Hackflight.calibratingA s)
  /\ Hackflight.taskOrder s' = Hackflight.taskOrder s.
Proof.
  destruct s as [a g gc ac h st acc ca ct to o tr].
  unfold Hackflight.on_sticks_changed. hackflight_exec.
  destruct a; hackflight_exec.
  - destruct (_ =? _); hackflight_exec; repeat split.
  - destruct (_ =? Hackflight.gesture_gyro_calibration k),
      (_ =? Hackflight.gesture_arm k),
      (_ =? Hackflight.gesture_accel_calibration k); hackflight_exec;
      repeat match goal with
             | |- context [if ?b then _ else _] => destruct b
             end; repeat split.
Qed.

Lemma flight_rc_block k r s :
  let s' := Hackflight.rc_block k r s in
  Hackflight.calibratingGyroCycles s' = Hackflight.calibratingGyroCycles s
  /\ Hackflight.accCalibrated s' = Hackflight.accCalibrated s
  /\ Hackflight.calibratingG s'
     = (if Hackflight.changed r && negb (Hackflight.armed s)
           && (Hackflight.sticks r =? Hackflight.gesture_gyro_calibration k)
        then Hackflight.calibratingGyroCycles s
        else Hackflight.calibratingG s)
  /\ Hackflight.calibratingA s'
     = (if Hackflight.changed r && negb (Hackflight.armed s)
           && (Hackflight.sticks r =? Hackflight.gesture_accel_calibration k)
        then Hackflight.calibratingAccCycles s
        else Hackflight.calibratingA s)
  /\ Hackflight.taskOrder s' = Hackflight.taskOrder s.
Proof.
  cbv zeta. rewrite rc_block_eq.
  assert (B : Hackflight.armed (before_sticks r s) = Hackflight.armed s
              /\ Hackflight.calibratingG (before_sticks r s)
                 = Hackflight.calibratingG s
              /\ Hackflight.calibratingGyroCycles (before_sticks r s)
                 = Hackflight.calibratingGyroCycles s
              /\ Hackflight.accCalibrated (before_sticks r s)
                 = Hackflight.accCalibrated s
              /\ Hackflight.calibratingA (before_sticks r s)
                 = Hackflight.calibratingA s
              /\ Hackflight.calibratingAccCycles (before_sticks r s)
                 = Hackflight.calibratingAccCycles s
              /\ Hackflight.taskOrder (before_sticks r s)
                 = Hackflight.taskOrder s).
  { destruct s as [a g gc ac h st acc ca ct to o tr]. unfold before_sticks.
    destruct a, (Hackflight.throttleIsDown r); repeat split. }
  destruct B as (Ba & Bg & Bgc & Bacc & Bca & Bac & Bto).
  cbn [Hackflight.emit Hackflight.calibratingGyroCycles
       Hackflight.accCalibrated Hackflight.calibratingG
       Hackflight.calibratingA Hackflight.taskOrder].
  destruct (Hackflight.changed r); cbn [andb].
  - pose proof (flight_on_sticks_changed k r (before_sticks r s)) as F.
    cbv zeta in F. rewrite Ba, Bg, Bgc, Bacc, Bca, Bac, Bto in F. exact F.
  - by rewrite Bg, Bgc, Bacc, Bca, Bto.
Qed.

Lemma flight_extras_block s :
  let s' := Hackflight.extras_block i s in
  Hackflight.calibratingGyroCycles s' = Hackflight.calibratingGyroCycles s
  /\ Hackflight.accCalibrated s' = Hackflight.accCalibrated s
  /\ Hackflight.calibratingG s' = Hackflight.calibratingG s
  /\ Hackflight.calibratingA s' = Hackflight.calibratingA s.
Proof.
  unfold Hackflight.extras_block. hackflight_exec.
  destruct (_ >=? _); repeat split.
Qed.

(** The IMU block as the sequence of its stages. *)
Lemma imu_block_eq s :
  Hackflight.imu_block c i s
  = let s := imu_countdown s in
    let s := Hackflight.set_haveSmallAngle
               ((I32.abs (Hackflight.imu_angle i !!! 0%nat)
                 <? Hackflight.CONFIG_SMALL_ANGLE c)
                && (I32.abs (Hackflight.imu_angle i !!! 1%nat)
                    <? Hackflight.CONFIG_SMALL_ANGLE c)) s in
    let s := Hackflight.set_currentTime (Hackflight.micros2 i) s in
    let s := imu_leds s in
    let s := imu_accel_check i s in
    let s := Hackflight.set_stab
               (Stabilize.update (Hackflight.stab_config c)
                  (Hackflight.rc_command i) (Hackflight.gyroADC i)
                  (Hackflight.imu_angle i) (Hackflight.stab s)) s in
    let s := Hackflight.emit (Hackflight.mixer_update (Hackflight.armed s)) s
    in
    Hackflight.emit (Hackflight.msp_update (Hackflight.armed s)) s.
Proof.
  cbv beta delta [Hackflight.imu_block imu_countdown imu_leds
                  imu_accel_check].
  reflexivity.
Qed.

Lemma flight_imu_countdown s :
  let s' := imu_countdown s in
  Hackflight.armed s' = Hackflight.armed s
  /\ Hackflight.calibratingGyroCycles s' = Hackflight.calibratingGyroCycles s
  /\ Hackflight.accCalibrated s' = Hackflight.accCalibrated s
  /\ Hackflight.calibratingG s'
     = (if Hackflight.calibratingG s >? 0 then Hackflight.calibratingG s - 1
        else Hackflight.calibratingG s)
  /\ Hackflight.calibratingA s'
     = (if Hackflight.calibratingA s >? 0 then Hackflight.calibratingA s - 1
        else Hackflight.calibratingA s)
  /\ Hackflight.taskOrder s' = Hackflight.taskOrder s
  /\ Hackflight.trace s'
     = Hackflight.trace s
       ++ [Hackflight.imu_update (Hackflight.armed s)
             (Hackflight.calibratingA s) (Hackflight.calibratingG s)].
Proof.
  destruct s as [a g gc ac h st acc ca ct to o tr].
  unfold imu_countdown. hackflight_exec.
  destruct (ca >? 0); hackflight_exec; destruct (g >? 0); repeat split.
Qed.

(** The LED stage changes nothing but the trace. *)
Lemma flight_imu_leds s :
  let s' := imu_leds s in
  Hackflight.armed s' = Hackflight.armed s
  /\ Hackflight.calibratingGyroCycles s' = Hackflight.calibratingGyroCycles s
  /\ Hackflight.accCalibrated s' = Hackflight.accCalibrated s
  /\ Hackflight.calibratingG s' = Hackflight.calibratingG s
  /\ Hackflight.calibratingA s' = Hackflight.calibratingA s
  /\ Hackflight.taskOrder s' = Hackflight.taskOrder s
  /\ Hackflight.haveSmallAngle s' = Hackflight.haveSmallAngle s.
Proof.
  destruct s as [a g gc ac h st acc ca ct to o tr].
  unfold imu_leds. hackflight_exec.
  destruct (_ || _); [by repeat split |].
  destruct acc; hackflight_exec; destruct a; by repeat split.
Qed.

Lemma flight_imu_accel_check s :
  let s' := imu_accel_check i s in
  Hackflight.armed s' = Hackflight.armed s
  /\ Hackflight.calibratingGyroCycles s' = Hackflight.calibratingGyroCycles s
  /\ Hackflight.accCalibrated s'
     = (if Hackflight.accelCalibrationTask_due i
        then Hackflight.haveSmallAngle s else Hackflight.accCalibrated s)
  /\ Hackflight.calibratingG s' = Hackflight.calibratingG s
  /\ Hackflight.calibratingA s' = Hackflight.calibratingA s
  /\ Hackflight.taskOrder s' = Hackflight.taskOrder s.
Proof.
  destruct s as [a g gc ac h st acc ca ct to o tr].
  unfold imu_accel_check. hackflight_exec.
  destruct (Hackflight.accelCalibrationTask_due i); [| by repeat split].
  destruct h; hackflight_exec; [by repeat split |].
  destruct o; by repeat split.
Qed.

Lemma flight_imu_block s :
  let s' := Hackflight.imu_block c i s in
  Hackflight.calibratingGyroCycles s' = Hackflight.calibratingGyroCycles s
  /\ Hackflight.accCalibrated s'
     = (if Hackflight.accelCalibrationTask_due i
        then (I32.abs (Hackflight.imu_angle i !!! 0%nat)
              <? Hackflight.CONFIG_SMALL_ANGLE c)
             && (I32.abs (Hackflight.imu_angle i !!! 1%nat)
                 <? Hackflight.CONFIG_SMALL_ANGLE c)
        else Hackflight.accCalibrated s)
  /\ Hackflight.calibratingG s'
     = (if Hackflight.calibratingG s >? 0 then Hackflight.calibratingG s - 1
        else Hackflight.calibratingG s)
  /\ Hackflight.calibratingA s'
     = (if Hackflight.calibratingA s >? 0 then Hackflight.calibratingA s - 1
        else Hackflight.calibratingA s)
  /\ Hackflight.taskOrder s' = Hackflight.taskOrder s.
Proof.
  cbv zeta. rewrite imu_block_eq. cbv zeta.
  pose proof (flight_imu_countdown s) as (_ & C2 & C3 & C4 & C5 & C6 & _).
  set (s1 := imu_countdown s) in *.
  set (s3 := Hackflight.set_currentTime _ (Hackflight.set_haveSmallAngle _ s1)).
  pose proof (flight_imu_leds s3) as (_ & L2 & L3 & L4 & L5 & L6 & L7).
  set (s4 := imu_leds s3) in *.
  pose proof (flight_imu_accel_check s4) as (_ & A2 & A3 & A4 & A5 & A6).
  set (s5 := imu_accel_check i s4) in *.
  cbn [Hackflight.emit Hackflight.set_stab Hackflight.calibratingGyroCycles
       Hackflight.accCalibrated Hackflight.calibratingG
       Hackflight.calibratingA Hackflight.taskOrder].
  rewrite A2, A3, A4, A5, A6, L2, L3, L4, L5, L6, L7. subst s3.
  cbn [Hackflight.set_currentTime Hackflight.set_haveSmallAngle
       Hackflight.calibratingGyroCycles Hackflight.accCalibrated
       Hackflight.calibratingG Hackflight.calibratingA Hackflight.taskOrder
       Hackflight.haveSmallAngle].
  by rewrite C2, C3, C4, C5, C6.
Qed.

End HackflightBlocks.

(** The members the arming logic reads, after one pass of [update]. *)
Lemma flight_update c i s :
  let s' := Hackflight.update c i s in
  let rcpass := Hackflight.rcTask_due i || Hackflight.rcSerialReady i in
  let g1 :=
    if rcpass && Hackflight.changed (Hackflight.rc i)
       && negb (Hackflight.armed s)
       && (Hackflight.sticks (Hackflight.rc i)
           =? Hackflight.gesture_gyro_calibration (Hackflight.codes c))
    then Hackflight.calibratingGyroCycles s else Hackflight.calibratingG s in
  let a1 :=
    if rcpass && Hackflight.changed (Hackflight.rc i)
       && negb (Hackflight.armed s)
       && (Hackflight.sticks (Hackflight.rc i)
           =? Hackflight.gesture_accel_calibration (Hackflight.codes c))
    then Hackflight.calibratingAccCycles s else Hackflight.calibratingA s in
  Hackflight.calibratingGyroCycles s' = Hackflight.calibratingGyroCycles s
  /\ Hackflight.accCalibrated s'
     = (if Hackflight.imuTask_due i && Hackflight.accelCalibrationTask_due i
        then (I32.abs (Hackflight.imu_angle i !!! 0%nat)
              <? Hackflight.CONFIG_SMALL_ANGLE c)
             && (I32.abs (Hackflight.imu_angle i !!! 1%nat)
                 <? Hackflight.CONFIG_SMALL_ANGLE c)
        else Hackflight.accCalibrated s)
  /\ Hackflight.calibratingG s'
     = (if Hackflight.imuTask_due i && (g1 >? 0) then g1 - 1 else g1)
  /\ Hackflight.calibratingA s'
     = (if Hackflight.imuTask_due i && (a1 >? 0) then a1 - 1 else a1).
Proof.
  cbv zeta. unfold Hackflight.update. cbv zeta.
  set (s1 := if Hackflight.rcTask_due i || Hackflight.rcSerialReady i
             then Hackflight.rc_block (Hackflight.codes c) (Hackflight.rc i) s
             else Hackflight.extras_block i s).
  assert (F1 :
    Hackflight.calibratingGyroCycles s1 = Hackflight.calibratingGyroCycles s
    /\ Hackflight.accCalibrated s1 = Hackflight.accCalibrated s
    /\ Hackflight.calibratingG s1
       = (if (Hackflight.rcTask_due i || Hackflight.rcSerialReady i)
             && Hackflight.changed (Hackflight.rc i)
             && negb (Hackflight.armed s)
             && (Hackflight.sticks (Hackflight.rc i)
                 =? Hackflight.gesture_gyro_calibration (Hackflight.codes c))
          then Hackflight.calibratingGyroCycles s
          else Hackflight.calibratingG s)
    /\ Hackflight.calibratingA s1
       = (if (Hackflight.rcTask_due i || Hackflight.rcSerialReady i)
             && Hackflight.changed (Hackflight.rc i)
             && negb (Hackflight.armed s)
             && (Hackflight.sticks (Hackflight.rc i)
                 =? Hackflight.gesture_accel_calibration (Hackflight.codes c))
          then Hackflight.calibratingAccCycles s
          else Hackflight.calibratingA s)).
  { subst s1. destruct (_ || _); cbn [andb].
    - pose proof (flight_rc_block (Hackflight.codes c) (Hackflight.rc i) s)
        as F. cbv zeta in F. tauto.
    - pose proof (flight_extras_block i s) as F. cbv zeta in F. tauto. }
  clearbody s1. destruct F1 as (Fc & Facc & Fg & Fa).
  rewrite <- Fg, <- Fa, <- Facc, <- Fc.
  destruct (Hackflight.imuTask_due i); cbn [andb]; [| by repeat split].
  pose proof (flight_imu_block c i
                (Hackflight.set_currentTime (Hackflight.micros1 i) s1)) as F.
  cbv zeta in F. tauto.
Qed.

(** The passes counted so far are never negative. *)
Lemma imu_passes_nonneg inputs : 0 <= imu_passes inputs.
Proof. unfold imu_passes. lia. Qed.

Lemma imu_passes_cons i inputs :
  imu_passes (i :: inputs)
  = (if Hackflight.imuTask_due i then 1 else 0) + imu_passes inputs.
Proof.
  unfold imu_passes. cbn [List.filter].
  destruct (Hackflight.imuTask_due i); cbn [length]; lia.
Qed.

(** The invariant behind the start-up interlock: [n] IMU passes have run,
    [e] tells whether one of them was a level accelerometer check. *)
Lemma arming_interlock_step c i s G n e :
  0 <= n ->
  Hackflight.calibratingGyroCycles s = G ->
  G <= Hackflight.calibratingG s + n ->
  (Hackflight.accCalibrated s = true -> e = true) ->
  (Hackflight.armed s = true -> G <= n /\ e = true) ->
  let s' := Hackflight.update c i s in
  let n' := (if Hackflight.imuTask_due i then 1 else 0) + n in
  let e' := e || level_check c i in
  Hackflight.calibratingGyroCycles s' = G
  /\ G <= Hackflight.calibratingG s' + n'
  /\ (Hackflight.accCalibrated s' = true -> e' = true)
  /\ (Hackflight.armed s' = true -> G <= n' /\ e' = true).
Proof.
  intros Hn HG Hg Hacc Harm. cbv zeta.
  pose proof (flight_update c i s) as (Fc & Facc & Fg & _).
  unfold level_check.
  split; [congruence |]. split; [| split].
  - rewrite Fg, HG.
    repeat match goal with
           | |- context [if ?b then _ else _] => destruct b eqn:?
           end; try lia;
      match goal with
      | H : _ && (_ >? 0) = true |- _ =>
          apply andb_prop in H; destruct H as [_ H]; lia
      end.
  - rewrite Facc. intros H.
    destruct (Hackflight.imuTask_due i && Hackflight.accelCalibrationTask_due i);
      cbn [andb].
    + rewrite H. apply orb_true_r.
    + rewrite (Hacc H). reflexivity.
  - rewrite armed_update.
    assert (Hm : forall b : bool, (if b then 1 else 0) + n >= n)
      by (intros []; lia).
    destruct (Hackflight.armed s) eqn:Ea.
    + destruct (Harm eq_refl) as [H1 H2]. intros _. rewrite H2.
      split; [| reflexivity]. specialize (Hm (Hackflight.imuTask_due i)). lia.
    + intros H. destruct (_ || _); [| discriminate].
      rewrite armed_rc_block_disarmed in H by done.
      apply andb_prop in H. destruct H as [_ H].
      apply andb_prop in H. destruct H as [H Haux].
      apply andb_prop in H. destruct H as [H Hc].
      apply andb_prop in H. destruct H as [_ H].
      rewrite (Hacc Hc). split; [| reflexivity].
      specialize (Hm (Hackflight.imuTask_due i)).
      destruct (_ =? Hackflight.gesture_gyro_calibration _); lia.
Qed.

Lemma arming_interlock_run c G : forall inputs s n e,
  0 <= n ->
  Hackflight.calibratingGyroCycles s = G ->
  G <= Hackflight.calibratingG s + n ->
  (Hackflight.accCalibrated s = true -> e = true) ->
  (Hackflight.armed s = true -> G <= n /\ e = true) ->
  Hackflight.armed (Hackflight.run c inputs s) = true ->
  G <= imu_passes inputs + n
  /\ e || existsb (level_check c) inputs = true.
Proof.
  unfold Hackflight.run.
  induction inputs as [| i inputs IH]; intros s n e Hn HG Hg Hacc Harm Ha.
  - cbn [fold_left] in Ha. destruct (Harm Ha) as [H1 H2].
    cbn [existsb]. rewrite orb_false_r. unfold imu_passes.
    cbn [List.filter length]. split; [lia | exact H2].
  - cbn [fold_left] in Ha.
    pose proof (arming_interlock_step c i s G n e Hn HG Hg Hacc Harm)
      as (Sc & Sg & Sacc & Sarm).
    assert (Hn' : 0 <= (if Hackflight.imuTask_due i then 1 else 0) + n)
      by (destruct (Hackflight.imuTask_due i); lia).
    destruct (IH _ _ _ Hn' Sc Sg Sacc Sarm Ha) as [H1 H2].
    rewrite imu_passes_cons. cbn [existsb]. rewrite orb_assoc.
    split; [lia | exact H2].
Qed.

(** X13.  The start-up interlock.  From [setup], however the passes of
    [loop] go, the craft is armed only after the gyro countdown loaded by
    [initialize] has run out, which takes at least that many IMU passes,
    and after an accelerometer check has found roll and pitch below
    [CONFIG_SMALL_ANGLE]. *)
Theorem X13_no_arming_before_calibration
    (b : Hackflight.BoardInit) (CONFIG_CALIBRATING_ACC_MSEC : Z)
    (c : Hackflight.Config) (inputs : list Hackflight.Inputs) :
  Hackflight.armed
    (Hackflight.run c inputs
       (Hackflight.setup b CONFIG_CALIBRATING_ACC_MSEC c)) = true ->
  Hackflight.calibration_cycles (Hackflight.gyroCalibrationMsec b)
                                (Hackflight.looptimeUsec b)
  <= imu_passes inputs
  /\ existsb (level_check c) inputs = true.
Proof.
  intros Ha.
  destruct (arming_interlock_run c
              (Hackflight.calibration_cycles (Hackflight.gyroCalibrationMsec b)
                 (Hackflight.looptimeUsec b))
              inputs (Hackflight.setup b CONFIG_CALIBRATING_ACC_MSEC c)
              0 false) as [H1 H2]; try done.
  - cbn [Hackflight.setup Hackflight.initialize Hackflight.calibratingG].
    unfold Hackflight.setup, Hackflight.initialize.
    cbn [Hackflight.calibratingG]. lia.
  - split; [lia | exact H2].
Qed.

Lemma X13_no_arming_before_calibration_witness :
  Hackflight.armed
    (Hackflight.run example_hackflight_config example_flight
       (Hackflight.setup example_board 4000 example_hackflight_config)) = true
  /\ 3 <= imu_passes example_flight.
Proof.
  assert (H : Hackflight.armed
                (Hackflight.run example_hackflight_config example_flight
                   (Hackflight.setup example_board 4000
                      example_hackflight_config)) = true)
    by (vm_compute; reflexivity).
  split; [exact H |].
  exact (proj1 (X13_no_arming_before_calibration example_board 4000
                  example_hackflight_config example_flight H)).
Defined.

(** *** The calls [update] makes on its collaborators *)

Section Traces.

Context {B : Type}.
Variable f : Hackflight.event -> option B.
Hypothesis f_display : forall e, display_only e = true -> f e = None.

Variable c : Hackflight.Config.
Variable i : Hackflight.Inputs.

Ltac trace_exec :=
  rewrite ?omap_app; cbn [omap list_omap];
  rewrite ?(f_display Hackflight.ledGreenOn eq_refl),
    ?(f_display Hackflight.ledGreenOff eq_refl),
    ?(f_display Hackflight.ledRedOn eq_refl),
    ?(f_display Hackflight.ledRedOff eq_refl),
    ?(f_display Hackflight.extrasCheckSwitch eq_refl),
    ?(f_display Hackflight.accelCalibrationTask_update eq_refl),
    ?(f_display (Hackflight.showAuxStatus _) eq_refl);
  rewrite ?app_nil_r, <- ?app_assoc.

(** The receiver block shows the arm flag when it has changed it, and
    otherwise makes display calls only. *)
Lemma trace_rc_block k r s :
  let s' := Hackflight.rc_block k r s in
  omap f (Hackflight.trace s')
  = omap f (Hackflight.trace s)
    ++ (if Bool.eqb (Hackflight.armed s) (Hackflight.armed s') then []
        else omap f [Hackflight.showArmedStatus (Hackflight.armed s')]).
Proof.
  destruct s as [a g gc ac h st acc ca ct to o tr].
  unfold Hackflight.rc_block, Hackflight.on_sticks_changed.
  repeat (hackflight_exec; cbn [Bool.eqb]; destruct_innermost_if);
    hackflight_exec; cbn [Bool.eqb]; trace_exec; reflexivity.
Qed.

(** The extras branch performs the task [taskOrder] holds. *)
Lemma trace_extras_block s :
  Hackflight.trace (Hackflight.extras_block i s)
  = Hackflight.trace s
    ++ [Hackflight.extrasPerformTask (Hackflight.taskOrder s)].
Proof.
  unfold Hackflight.extras_block. hackflight_exec.
  destruct (_ >=? _); reflexivity.
Qed.

Lemma trace_imu_leds s :
  omap f (Hackflight.trace (imu_leds s)) = omap f (Hackflight.trace s).
Proof.
  destruct s as [a g gc ac h st acc ca ct to o tr].
  unfold imu_leds. hackflight_exec.
  destruct (_ || _); hackflight_exec; [by trace_exec |].
  destruct acc; hackflight_exec; destruct a; hackflight_exec; by trace_exec.
Qed.

Lemma trace_imu_accel_check s :
  omap f (Hackflight.trace (imu_accel_check i s))
  = omap f (Hackflight.trace s).
Proof.
  destruct s as [a g gc ac h st acc ca ct to o tr].
  unfold imu_accel_check. hackflight_exec.
  destruct (Hackflight.accelCalibrationTask_due i); [| done].
  destruct h; hackflight_exec; [done |].
  destruct o; hackflight_exec; by trace_exec.
Qed.

(** The IMU block updates the IMU, then the mixer, then the serial link,
    all three with the arm flag it found, and otherwise makes display calls
    only. *)
Lemma trace_imu_block s :
  omap f (Hackflight.trace (Hackflight.imu_block c i s))
  = omap f (Hackflight.trace s)
    ++ omap f [Hackflight.imu_update (Hackflight.armed s)
                 (Hackflight.calibratingA s) (Hackflight.calibratingG s);
               Hackflight.mixer_update (Hackflight.armed s);
               Hackflight.msp_update (Hackflight.armed s)].
Proof.
  rewrite imu_block_eq. cbv zeta.
  pose proof (flight_imu_countdown s) as (C1 & _ & _ & _ & _ & _ & C7).
  set (s1 := imu_countdown s) in *.
  set (s3 := Hackflight.set_currentTime _ (Hackflight.set_haveSmallAngle _ s1)).
  pose proof (flight_imu_leds s3) as (L1 & _).
  pose proof (trace_imu_leds s3) as TL.
  set (s4 := imu_leds s3) in *.
  pose proof (flight_imu_accel_check i s4) as (A1 & _).
  pose proof (trace_imu_accel_check s4) as TA.
  set (s5 := imu_accel_check i s4) in *.
  cbn [Hackflight.emit Hackflight.set_stab Hackflight.armed Hackflight.trace].
  rewrite !omap_app, TA, TL, A1, L1. subst s3.
  cbn [Hackflight.set_currentTime Hackflight.set_haveSmallAngle
       Hackflight.armed Hackflight.trace].
  rewrite C1, C7, omap_app, <- !app_assoc.
  match goal with
  | |- _ = _ ++ omap f [?x; ?y; ?z] =>
      change [x; y; z] with ([x] ++ [y] ++ [z])
  end.
  by rewrite !omap_app.
Qed.

(** One pass of [update], seen through [f]. *)
Lemma trace_update s :
  let s' := Hackflight.update c i s in
  omap f (Hackflight.trace s')
  = omap f (Hackflight.trace s)
    ++ (if Hackflight.rcTask_due i || Hackflight.rcSerialReady i
        then if Bool.eqb (Hackflight.armed s) (Hackflight.armed s') then []
             else omap f [Hackflight.showArmedStatus (Hackflight.armed s')]
        else omap f [Hackflight.extrasPerformTask (Hackflight.taskOrder s)])
    ++ (if Hackflight.imuTask_due i
        then omap f [Hackflight.imu_update (Hackflight.armed s')
                       (Hackflight.calibratingA
                          (if Hackflight.rcTask_due i
                              || Hackflight.rcSerialReady i
                           then Hackflight.rc_block (Hackflight.codes c)
                                  (Hackflight.rc i) s
                           else s))
                       (Hackflight.calibratingG
                          (if Hackflight.rcTask_due i
                              || Hackflight.rcSerialReady i
                           then Hackflight.rc_block (Hackflight.codes c)
                                  (Hackflight.rc i) s
                           else s));
                     Hackflight.mixer_update (Hackflight.armed s');
                     Hackflight.msp_update (Hackflight.armed s')]
        else []).
Proof.
  cbv zeta. rewrite armed_update. unfold Hackflight.update. cbv zeta.
  destruct (Hackflight.rcTask_due i || Hackflight.rcSerialReady i).
  - pose proof (trace_rc_block (Hackflight.codes c) (Hackflight.rc i) s)
      as T.
    cbv zeta in T.
    set (s1 := Hackflight.rc_block (Hackflight.codes c) (Hackflight.rc i) s)
      in *.
    destruct (Hackflight.imuTask_due i).
    + rewrite trace_imu_block. hackflight_exec. rewrite T.
      by rewrite <- app_assoc.
    + hackflight_exec. rewrite T. by rewrite app_nil_r.
  - pose proof (trace_extras_block s) as T.
    pose proof (flight_extras_block i s) as (_ & _ & Eg & Ea).
    pose proof (armed_extras_block i s) as Earm.
    set (s1 := Hackflight.extras_block i s) in *.
    destruct (Hackflight.imuTask_due i).
    + rewrite trace_imu_block. hackflight_exec. rewrite T, Eg, Ea, Earm.
      rewrite omap_app. by rewrite <- app_assoc.
    + hackflight_exec. rewrite T, omap_app. by rewrite app_nil_r.
Qed.

End Traces.

(** The arm flag and the trace after [setup]. *)
Lemma setup_disarmed b acc c :
  Hackflight.armed (Hackflight.setup b acc c) = false
  /\ Hackflight.trace (Hackflight.setup b acc c) = Hackflight.startup_flash
  /\ Hackflight.taskOrder (Hackflight.setup b acc c) = 0.
Proof. repeat split. Qed.

(** One pass of [update] shows the arm flag when the pass has changed it,
    and at no other time. *)
Lemma announcements_update c i s :
  armed_announcements (Hackflight.trace (Hackflight.update c i s))
  = armed_announcements (Hackflight.trace s)
    ++ (if Bool.eqb (Hackflight.armed s)
                    (Hackflight.armed (Hackflight.update c i s))
        then [] else [Hackflight.armed (Hackflight.update c i s)]).
Proof.
  unfold armed_announcements.
  rewrite (trace_update shown_armed ltac:(by intros []) c i s). cbv zeta.
  pose proof (armed_update c i s) as Ea.
  destruct (Hackflight.rcTask_due i || Hackflight.rcSerialReady i).
  - destruct (Hackflight.imuTask_due i), (Bool.eqb _ _); cbn [omap list_omap];
      by rewrite ?app_nil_r.
  - rewrite Ea, Bool.eqb_reflx.
    destruct (Hackflight.imuTask_due i); cbn [omap list_omap];
      by rewrite ?app_nil_r.
Qed.

Lemma announcements_run c : forall inputs s,
  Hackflight.armed s
  = default false (last (armed_announcements (Hackflight.trace s))) ->
  Hackflight.armed (Hackflight.run c inputs s)
  = default false
      (last (armed_announcements
               (Hackflight.trace (Hackflight.run c inputs s)))).
Proof.
  unfold Hackflight.run.
  induction inputs as [| i inputs IH]; intros s Hs; [exact Hs |].
  cbn [fold_left]. apply IH. rewrite announcements_update.
  destruct (Bool.eqb _ _) eqn:E.
  - rewrite app_nil_r, <- Hs. symmetry. by apply Bool.eqb_prop.
  - by rewrite last_snoc.
Qed.

(** X14.  [Board::showArmedStatus] is called exactly when a pass of [update]
    has changed the arm flag, with the new flag; so, from [setup] on, the
    flag last shown is the arm flag (and the craft is disarmed as long as
    none has been shown). *)
Theorem X14_armed_status_shown_at_every_change :
  (forall (c : Hackflight.Config) (i : Hackflight.Inputs) (s : Hackflight.t),
      armed_announcements (Hackflight.trace (Hackflight.update c i s))
      = armed_announcements (Hackflight.trace s)
        ++ (if Bool.eqb (Hackflight.armed s)
                        (Hackflight.armed (Hackflight.update c i s))
            then [] else [Hackflight.armed (Hackflight.update c i s)]))
  /\ (forall (b : Hackflight.BoardInit) (acc : Z) (c : Hackflight.Config)
             (inputs : list Hackflight.Inputs),
         let s := Hackflight.run c inputs (Hackflight.setup b acc c) in
         Hackflight.armed s
         = default false
             (last (armed_announcements (Hackflight.trace s)))).
Proof.
  split; [apply announcements_update |].
  intros b acc c inputs. cbv zeta. apply announcements_run. reflexivity.
Qed.

(** X15.  The mixer and the serial link are updated in the passes in which
    the IMU task is due and in no other, once each, and both are handed the
    arm flag the pass ends with: a gesture accepted by the receiver block
    reaches the motors in the same pass. *)
Theorem X15_mixer_and_msp_get_the_flag_of_the_pass
    (c : Hackflight.Config) (i : Hackflight.Inputs) (s : Hackflight.t) :
  let s' := Hackflight.update c i s in
  mixer_updates (Hackflight.trace s')
  = mixer_updates (Hackflight.trace s)
    ++ (if Hackflight.imuTask_due i then [Hackflight.armed s'] else [])
  /\ msp_updates (Hackflight.trace s')
     = msp_updates (Hackflight.trace s)
       ++ (if Hackflight.imuTask_due i then [Hackflight.armed s'] else []).
Proof.
  cbv zeta. unfold mixer_updates, msp_updates.
  rewrite (trace_update mixer_flag ltac:(by intros []) c i s),
    (trace_update msp_flag ltac:(by intros []) c i s). cbv zeta.
  split; destruct (Hackflight.rcTask_due i || Hackflight.rcSerialReady i),
    (Hackflight.imuTask_due i); try destruct (Bool.eqb _ _); reflexivity.
Qed.

(** X16.  No calibration can be started in flight: in a pass that starts
    armed, whatever the sticks show, the gyro and accelerometer countdowns
    are not reloaded; they only go one step down, in the IMU block, while
    they are positive. *)
Theorem X16_no_calibration_starts_while_armed
    (c : Hackflight.Config) (i : Hackflight.Inputs) (s : Hackflight.t) :
  Hackflight.armed s = true ->
  Hackflight.calibratingG (Hackflight.update c i s)
  = (if Hackflight.imuTask_due i && (Hackflight.calibratingG s >? 0)
     then Hackflight.calibratingG s - 1 else Hackflight.calibratingG s)
  /\ Hackflight.calibratingA (Hackflight.update c i s)
     = (if Hackflight.imuTask_due i && (Hackflight.calibratingA s >? 0)
        then Hackflight.calibratingA s - 1 else Hackflight.calibratingA s).
Proof.
  intros Ea. pose proof (flight_update c i s) as (_ & _ & Fg & Fa).
  rewrite Ea in Fg, Fa. cbn [negb] in Fg, Fa.
  rewrite andb_false_r in Fg, Fa. cbn [andb] in Fg, Fa. by split.
Qed.

Lemma X16_no_calibration_starts_while_armed_witness :
  let i := example_inputs
             (example_rc (Hackflight.gesture_gyro_calibration example_codes)
                         true) true in
  Hackflight.calibratingG
    (Hackflight.update example_hackflight_config i example_armed) = 0
  /\ Hackflight.calibratingG
       (Hackflight.update example_hackflight_config i example_disarmed) = 999.
Proof.
  cbv zeta. split; [| vm_compute; reflexivity].
  exact (proj1 (X16_no_calibration_starts_while_armed
                  example_hackflight_config
                  (example_inputs
                     (example_rc
                        (Hackflight.gesture_gyro_calibration example_codes)
                        true) true)
                  example_armed eq_refl)).
Defined.

(** *** The extras tasks *)

Lemma taskOrder_update c i s :
  Hackflight.taskOrder (Hackflight.update c i s)
  = if Hackflight.rcTask_due i || Hackflight.rcSerialReady i
    then Hackflight.taskOrder s
    else if int32_t (Hackflight.taskOrder s + 1)
            >=? Hackflight.extrasTaskCount i
         then 0 else int32_t (Hackflight.taskOrder s + 1).
Proof.
  cbv beta delta [Hackflight.update]. cbv zeta.
  assert (E : forall s1,
             Hackflight.taskOrder
               (if Hackflight.imuTask_due i
                then Hackflight.imu_block c i
                       (Hackflight.set_currentTime (Hackflight.micros1 i) s1)
                else Hackflight.set_currentTime (Hackflight.micros1 i) s1)
             = Hackflight.taskOrder s1).
  { intros s1. destruct (Hackflight.imuTask_due i); [| reflexivity].
    pose proof (flight_imu_block c i
                  (Hackflight.set_currentTime (Hackflight.micros1 i) s1))
      as (_ & _ & _ & _ & F).
    exact F. }
  rewrite E. destruct (_ || _).
  - pose proof (flight_rc_block (Hackflight.codes c) (Hackflight.rc i) s)
      as (_ & _ & _ & _ & F).
    exact F.
  - unfold Hackflight.extras_block. hackflight_exec.
    destruct (_ >=? _); reflexivity.
Qed.

Lemma performed_tasks_update c i s :
  performed_tasks (Hackflight.trace (Hackflight.update c i s))
  = performed_tasks (Hackflight.trace s)
    ++ (if Hackflight.rcTask_due i || Hackflight.rcSerialReady i then []
        else [Hackflight.taskOrder s]).
Proof.
  unfold performed_tasks.
  rewrite (trace_update performed_task ltac:(by intros []) c i s). cbv zeta.
  destruct (Hackflight.rcTask_due i || Hackflight.rcSerialReady i),
    (Hackflight.imuTask_due i); try destruct (Bool.eqb _ _);
    cbn [omap list_omap]; by rewrite ?app_nil_r.
Qed.

(** The turn after the [j]-th, as [update] computes it. *)
Lemma round_robin_succ n j :
  n < 2 ^ 31 ->
  (if int32_t (round_robin n j + 1) >=? n then 0
   else int32_t (round_robin n j + 1))
  = round_robin n (S j).
Proof.
  intros Hn. unfold round_robin. destruct (Z.leb_spec n 0) as [Hle | Hgt].
  - rewrite int32_id by (unfold in_int32; lia).
    rewrite Z.geb_leb. destruct (Z.leb_spec n (0 + 1)); [reflexivity | lia].
  - pose proof (Z.mod_pos_bound (Z.of_nat j) n Hgt) as Hr.
    pose proof (Z.div_mod (Z.of_nat j) n ltac:(lia)) as Hd.
    rewrite int32_id by (unfold in_int32; lia).
    rewrite Z.geb_leb.
    destruct (Z.leb_spec n (Z.of_nat j mod n + 1)) as [Hge | Hlt].
    + apply (Z.mod_unique_pos _ _ (Z.of_nat j / n + 1)); lia.
    + apply (Z.mod_unique_pos _ _ (Z.of_nat j / n)); lia.
Qed.

Lemma round_robin_run c n : forall inputs s m,
  n < 2 ^ 31 ->
  Forall (fun i => Hackflight.extrasTaskCount i = n) inputs ->
  Hackflight.taskOrder s = round_robin n m ->
  performed_tasks (Hackflight.trace s) = map (round_robin n) (seq 0 m) ->
  performed_tasks (Hackflight.trace (Hackflight.run c inputs s))
  = map (round_robin n) (seq 0 (m + extras_passes inputs)).
Proof.
  unfold Hackflight.run.
  induction inputs as [| i inputs IH]; intros s m Hn Hall Hto Hp.
  - cbn [fold_left]. unfold extras_passes. cbn [List.filter length].
    by rewrite Nat.add_0_r.
  - cbn [fold_left]. inversion Hall as [| ? ? Hi Hrest]; subst.
    unfold extras_passes. cbn [List.filter].
    pose proof (taskOrder_update c i s) as Et.
    pose proof (performed_tasks_update c i s) as Ep.
    destruct (Hackflight.rcTask_due i || Hackflight.rcSerialReady i);
      cbn [negb length].
    + apply IH; [done | done | congruence |].
      by rewrite Ep, app_nil_r.
    + replace (m + S (length (List.filter
                 (fun i0 => negb (Hackflight.rcTask_due i0
                                  || Hackflight.rcSerialReady i0)) inputs)))%nat
        with (S m + extras_passes inputs)%nat by (unfold extras_passes; lia).
      apply IH; [done | done | |].
      * rewrite Et, Hto. by apply round_robin_succ.
      * rewrite Ep, Hp, Hto, seq_S, map_app. reflexivity.
Qed.

(** X17.  The extras tasks are performed round robin.  From [setup], when
    the board reports [n] tasks, the [j]-th pass through the extras branch
    of [update] performs task [j mod n]; when it reports none, task 0 is
    asked for all the same, in every such pass. *)
Theorem X17_extras_tasks_round_robin
    (b : Hackflight.BoardInit) (acc : Z) (c : Hackflight.Config)
    (inputs : list Hackflight.Inputs) (n : Z) :
  n < 2 ^ 31 ->
  Forall (fun i => Hackflight.extrasTaskCount i = n) inputs ->
  performed_tasks
    (Hackflight.trace (Hackflight.run c inputs (Hackflight.setup b acc c)))
  = map (round_robin n) (seq 0 (extras_passes inputs)).
Proof.
  intros Hn Hall.
  apply (round_robin_run c n inputs (Hackflight.setup b acc c) 0 Hn Hall).
  - unfold round_robin. destruct (n <=? 0); reflexivity.
  - reflexivity.
Qed.

Lemma X17_extras_tasks_round_robin_witness :
  performed_tasks
    (Hackflight.trace
       (Hackflight.run example_hackflight_config
          [example_imu_pass; example_imu_pass; example_imu_pass]
          (Hackflight.setup example_board 4000 example_hackflight_config)))
  = [0; 1; 0].
Proof.
  rewrite (X17_extras_tasks_round_robin example_board 4000
             example_hackflight_config
             [example_imu_pass; example_imu_pass; example_imu_pass] 2).
  - reflexivity.
  - reflexivity.
  - repeat constructor.
Defined.

(** *** [initialize] *)

(** The [double] quotient, truncated, is the integer quotient. *)
Lemma calibration_cycles_quot msec usec :
  0 < usec -> 0 <= msec -> 1000 * msec / usec < 2 ^ 16 ->
  Hackflight.calibration_cycles msec usec = 1000 * msec / usec.
Proof.
  intros Hu Hm Hlt. unfold Hackflight.calibration_cycles, Hackflight.uint16_t.
  cbv zeta. destruct usec as [| p | p]; try lia.
  cbn [Qdiv Qmult Qinv Qnum Qden inject_Z].
  rewrite Pos.mul_1_l, !Z.mul_1_r, Z.quot_div_nonneg by lia.
  apply Z.mod_small. split; [| exact Hlt].
  apply Z.div_pos; lia.
Qed.

(** X18.  [setup] leaves the craft disarmed with the gyro countdown
    loaded: [gyroCalibrationMsec] milliseconds of IMU passes of
    [looptimeUsec] microseconds each, rounded down, as long as that number
    fits the 16 bits of the counter. *)
Theorem X18_setup_loads_gyro_countdown
    (b : Hackflight.BoardInit) (acc : Z) (c : Hackflight.Config) :
  0 < Hackflight.looptimeUsec b ->
  0 <= Hackflight.gyroCalibrationMsec b ->
  1000 * Hackflight.gyroCalibrationMsec b / Hackflight.looptimeUsec b
  < 2 ^ 16 ->
  let s := Hackflight.setup b acc c in
  Hackflight.armed s = false
  /\ Hackflight.calibratingG s
     = 1000 * Hackflight.gyroCalibrationMsec b / Hackflight.looptimeUsec b
  /\ Hackflight.calibratingGyroCycles s = Hackflight.calibratingG s
  /\ Hackflight.haveSmallAngle s = true
  /\ Hackflight.stab s
     = Stabilize.initialised (Hackflight.stab_config c) [0; 0; 0].
Proof.
  intros Hu Hm Hlt. cbv zeta.
  unfold Hackflight.setup, Hackflight.initialize. cbv zeta.
  cbn [Hackflight.armed Hackflight.calibratingG
       Hackflight.calibratingGyroCycles Hackflight.haveSmallAngle
       Hackflight.stab].
  rewrite calibration_cycles_quot by done.
  repeat split; try reflexivity.
Qed.

Lemma X18_setup_loads_gyro_countdown_witness :
  Hackflight.calibratingG
    (Hackflight.setup example_board 4000 example_hackflight_config) = 3.
Proof.
  refine (proj1 (proj2 (X18_setup_loads_gyro_countdown example_board 4000
                          example_hackflight_config _ _ _)));
    vm_compute; done.
Defined.

(** ** The simulator receiver: [arming], [begin] and [readRawvals] *)

Ltac sim_exec :=
  cbn beta iota zeta delta
      [fold_left Sim.rawvals Sim._ready Sim._reversedVerticals
       Sim._springyThrottle Sim._useButtonForAux Sim._throttleDemand
       Sim._axismap Sim._buttonmap Sim._joyid Sim._buttonState
       Sim.set_ready Sim.set_rawvals Sim.set_throttleDemand
       Sim.set_buttonState].

(** [readRawvals] as the sequence of its stages. *)
Lemma readRawvals_eq deadband axes buttons baseline c :
  Sim.Controller_readRawvals deadband axes buttons baseline c
  = throttle_handling deadband
      (buttons_to_aux buttons
         (invert_verticals (normalise_axes axes baseline c))).
Proof.
  cbv beta delta [Sim.Controller_readRawvals throttle_handling buttons_to_aux
                  invert_verticals normalise_axes].
  reflexivity.
Qed.

(** What a stage leaves alone: the members that [readRawvals] never writes
    and the number of channels. *)
Lemma frame_normalise_axes axes baseline c :
  let c' := normalise_axes axes baseline c in
  Sim._ready c' = Sim._ready c
  /\ Sim._reversedVerticals c' = Sim._reversedVerticals c
  /\ Sim._springyThrottle c' = Sim._springyThrottle c
  /\ Sim._useButtonForAux c' = Sim._useButtonForAux c
  /\ Sim._buttonmap c' = Sim._buttonmap c
  /\ Sim._throttleDemand c' = Sim._throttleDemand c
  /\ Sim._buttonState c' = Sim._buttonState c
  /\ length (Sim.rawvals c') = length (Sim.rawvals c)
  /\ ((0 < length (Sim.rawvals c))%nat ->
      Sim.rawvals c' !!! 0%nat
      = (inject_Z (I32.sub (axes !!! Z.to_nat (Sim._axismap c !!! 0%nat))
                           baseline) / 32767)%Q).
Proof.
  destruct c as [rv rdy rev spr aux thr am bm jid bs].
  cbv beta delta [normalise_axes]. sim_exec.
  rewrite !length_insert. repeat split.
  intros Hl. rewrite !list_lookup_total_insert_ne by lia.
  by rewrite list_lookup_total_insert_eq.
Qed.

Lemma frame_invert_verticals c :
  let c' := invert_verticals c in
  Sim._ready c' = Sim._ready c
  /\ Sim._springyThrottle c' = Sim._springyThrottle c
  /\ Sim._useButtonForAux c' = Sim._useButtonForAux c
  /\ Sim._buttonmap c' = Sim._buttonmap c
  /\ Sim._throttleDemand c' = Sim._throttleDemand c
  /\ Sim._buttonState c' = Sim._buttonState c
  /\ length (Sim.rawvals c') = length (Sim.rawvals c)
  /\ ((0 < length (Sim.rawvals c))%nat ->
      Sim.rawvals c' !!! 0%nat
      = if Sim._reversedVerticals c then (- (Sim.rawvals c !!! 0%nat))%Q
        else Sim.rawvals c !!! 0%nat).
Proof.
  destruct c as [rv rdy rev spr aux thr am bm jid bs].
  cbv beta delta [invert_verticals]. sim_exec.
  destruct rev; sim_exec; rewrite ?length_insert; repeat split.
  intros Hl. rewrite list_lookup_total_insert_ne by lia.
  by rewrite list_lookup_total_insert_eq.
Qed.

Lemma frame_buttons_to_aux buttons c :
  let c' := buttons_to_aux buttons c in
  Sim._ready c' = Sim._ready c
  /\ Sim._springyThrottle c' = Sim._springyThrottle c
  /\ Sim._throttleDemand c' = Sim._throttleDemand c
  /\ length (Sim.rawvals c') = length (Sim.rawvals c)
  /\ Sim.rawvals c' !!! 0%nat = Sim.rawvals c !!! 0%nat
  /\ Sim._buttonState c'
     = (if Sim._useButtonForAux c then aux_position buttons c
        else Sim._buttonState c)
  /\ ((4 < length (Sim.rawvals c))%nat -> Sim._useButtonForAux c = true ->
      Sim.rawvals c' !!! 4%nat
      = Sim.buttonsToAux !!! Z.to_nat (Sim._buttonState c')).
Proof.
  destruct c as [rv rdy rev spr aux thr am bm jid bs].
  cbv beta delta [buttons_to_aux aux_position]. sim_exec.
  destruct aux; [| by repeat split].
  repeat (sim_exec; destruct_innermost_if); sim_exec;
    rewrite ?length_insert;
    repeat split;
    first [ reflexivity
          | by rewrite list_lookup_total_insert_ne by lia
          | intros Hl _; by rewrite list_lookup_total_insert_eq ].
Qed.

Lemma frame_throttle_handling deadband c :
  let c' := throttle_handling deadband c in
  Sim._ready c' = Sim._ready c
  /\ Sim._springyThrottle c' = Sim._springyThrottle c
  /\ Sim._buttonState c' = Sim._buttonState c
  /\ length (Sim.rawvals c') = length (Sim.rawvals c)
  /\ (forall k, k <> 0%nat ->
        Sim.rawvals c' !!! k = Sim.rawvals c !!! k)
  /\ ((0 < length (Sim.rawvals c))%nat ->
      Sim.rawvals c' !!! 0%nat = Sim._throttleDemand c'
      /\ Sim._throttleDemand c'
         = (if Sim._springyThrottle c
            then Filter.constrainAbs
                   (Sim._throttleDemand c
                    + deadband (Sim.rawvals c !!! 0%nat) (15 # 100)
                      * (1 # 10)) 1
            else Sim.rawvals c !!! 0%nat)%Q).
Proof.
  destruct c as [rv rdy rev spr aux thr am bm jid bs].
  cbv beta delta [throttle_handling]. sim_exec.
  destruct spr; sim_exec; rewrite ?length_insert;
    repeat split; intros; cbn [Sim.rawvals] in *;
    rewrite ?list_lookup_total_insert_ne by lia;
    rewrite ?list_lookup_total_insert_eq by (rewrite ?length_insert; lia);
    reflexivity.
Qed.

(** What one call of [readRawvals] does to the members the properties
    below are about. *)
Lemma readRawvals_spec deadband axes buttons baseline c :
  let c' := Sim.Controller_readRawvals deadband axes buttons baseline c in
  Sim._ready c' = Sim._ready c
  /\ Sim._springyThrottle c' = Sim._springyThrottle c
  /\ length (Sim.rawvals c') = length (Sim.rawvals c)
  /\ Sim._buttonState c'
     = (if Sim._useButtonForAux c then aux_position buttons c
        else Sim._buttonState c)
  /\ ((4 < length (Sim.rawvals c))%nat -> Sim._useButtonForAux c = true ->
      Sim.rawvals c' !!! 4%nat
      = Sim.buttonsToAux !!! Z.to_nat (Sim._buttonState c'))
  /\ ((0 < length (Sim.rawvals c))%nat ->
      Sim.rawvals c' !!! Sim.CHANNEL_THROTTLE = Sim._throttleDemand c'
      /\ Sim._throttleDemand c'
         = (if Sim._springyThrottle c
            then Filter.constrainAbs
                   (Sim._throttleDemand c
                    + deadband (throttle_stick axes baseline c) (15 # 100)
                      * (1 # 10)) 1
            else throttle_stick axes baseline c)%Q).
Proof.
  cbv zeta. rewrite readRawvals_eq.
  pose proof (frame_normalise_axes axes baseline c)
    as (N1 & N2 & N3 & N4 & N5 & N6 & N7 & N8 & N9).
  set (c1 := normalise_axes axes baseline c) in *.
  pose proof (frame_invert_verticals c1)
    as (I1 & I3 & I4 & I5 & I6 & I7 & I8 & I9).
  set (c2 := invert_verticals c1) in *.
  pose proof (frame_buttons_to_aux buttons c2)
    as (B1 & B3 & B6 & B8 & B9 & B7 & B10).
  set (c3 := buttons_to_aux buttons c2) in *.
  pose proof (frame_throttle_handling deadband c3)
    as (T1 & T3 & T7 & T8 & T9 & T10).
  set (c4 := throttle_handling deadband c3) in *.
  assert (Eaux : aux_position buttons c2 = aux_position buttons c)
    by (unfold aux_position; by rewrite I5, N5, I7, N7).
  split; [congruence |]. split; [congruence |]. split; [congruence |].
  split; [rewrite T7, B7, I4, N4, Eaux, I7, N7; reflexivity |].
  split.
  - intros Hl Haux. rewrite T9 by lia. rewrite T7. apply B10.
    + rewrite I8, N8. exact Hl.
    + by rewrite I4, N4.
  - intros Hl. destruct T10 as [T10 T11].
    { rewrite B8, I8, N8. exact Hl. }
    split; [exact T10 |].
    rewrite T11, B3, I3, N3, B6, I6, N6, B9, I9 by (by rewrite N8).
    rewrite N2, N9 by done. reflexivity.
Qed.

(** The calls that are not [readRawvals] leave everything but [_ready]. *)
Lemma invoke_spec deadband c m :
  let c' := Sim.invoke deadband c m in
  Sim._ready c' = Sim._ready c || is_arming m
  /\ Sim._springyThrottle c' = Sim._springyThrottle c
  /\ length (Sim.rawvals c') = length (Sim.rawvals c)
  /\ (Sim._springyThrottle c = true ->
      (Qabs (Sim._throttleDemand c) <= 1)%Q ->
      (Qabs (Sim._throttleDemand c') <= 1)%Q)
  /\ (0 <= Sim._buttonState c <= 2 -> 0 <= Sim._buttonState c' <= 2).
Proof.
  destruct m as [| | axes buttons baseline |]; cbv zeta;
    cbn [Sim.invoke Sim.arming Sim.disarming Sim.Controller_Receiver
         Sim.Controller_arming Sim.Controller_disarming Sim.Controller_halt
         snd is_arming]; sim_exec;
    rewrite ?orb_true_r, ?orb_false_r.
  - split; [done |]. split; [done |]. split; [done |].
    split; [intros _ H; exact H | intros H; exact H].
  - split; [done |]. split; [done |]. split; [done |].
    split; [intros _ H; exact H | intros H; exact H].
  - 
    pose proof (readRawvals_spec deadband axes buttons baseline c)
      as (R1 & R2 & R3 & R4 & _ & R6).
    split; [exact R1 |]. split; [exact R2 |]. split; [exact R3 |].
    split.
    + intros Hs Hb.
      destruct (Nat.eq_dec (length (Sim.rawvals c)) 0%nat) as [Hz | Hnz].
      * (* no channel at all: the same computation, on the default *)
        clear R6. rewrite readRawvals_eq.
        pose proof (frame_normalise_axes axes baseline c)
          as (_ & _ & N3 & _ & _ & N6 & _).
        set (c1 := normalise_axes axes baseline c) in *.
        pose proof (frame_invert_verticals c1) as (_ & I3 & _ & _ & I6 & _).
        set (c2 := invert_verticals c1) in *.
        pose proof (frame_buttons_to_aux buttons c2) as (_ & B3 & B6 & _).
        set (c3 := buttons_to_aux buttons c2) in *.
        assert (S3 : Sim._springyThrottle c3 = true) by congruence.
        clearbody c3. destruct c3 as [rv rdy rev spr aux thr am bm jid bs].
        cbn [Sim._springyThrottle] in S3. subst spr.
        cbv beta delta [throttle_handling]. sim_exec.
        apply constrainAbs_range. lra.
      * destruct R6 as [_ R6]; [lia |]. rewrite R6, Hs.
        apply constrainAbs_range. lra.
    + intros Hb. rewrite R4. unfold aux_position.
      repeat match goal with
             | |- context [if ?b then _ else _] => destruct b
             end; lia.
  - split; [done |]. split; [done |]. split; [done |].
    split; [intros _ H; exact H | intros H; exact H].
Qed.

Lemma invoke_all_spec deadband : forall ms c,
  let c' := Sim.invoke_all deadband ms c in
  Sim._ready c' = Sim._ready c || existsb is_arming ms
  /\ Sim._springyThrottle c' = Sim._springyThrottle c
  /\ (Sim._springyThrottle c = true ->
      (Qabs (Sim._throttleDemand c) <= 1)%Q ->
      (Qabs (Sim._throttleDemand c') <= 1)%Q)
  /\ (0 <= Sim._buttonState c <= 2 -> 0 <= Sim._buttonState c' <= 2).
Proof.
  unfold Sim.invoke_all.
  induction ms as [| m ms IH]; intros c; cbv zeta; cbn [fold_left existsb].
  - rewrite orb_false_r. split; [done |]. split; [done |].
    split; [intros _ H; exact H | intros H; exact H].
  - pose proof (invoke_spec deadband c m) as (S1 & S2 & _ & S4 & S5).
    pose proof (IH (Sim.invoke deadband c m)) as (I1 & I2 & I4 & I5).
    cbv zeta in I1, I2, I4, I5.
    split; [by rewrite I1, S1, orb_assoc |]. split; [congruence |].
    split.
    + intros Hs Hb. apply I4; [congruence | by apply S4].
    + intros Hb. by apply I5, S5.
Qed.

(** X19.  The first call of [arming] on a new controller answers false
    whatever the throttle: a call answers true exactly when [arming] has
    been called before and the throttle channel is above 0.1; no other
    call of the class makes the controller ready. *)
Theorem X19_arming_skips_the_first_call
    (deadband : Q -> Q -> Q) (mem : Sim.Controller) (ms : list Sim.method) :
  let c := Sim.invoke_all deadband ms (Sim.Controller_ mem) in
  fst (Sim.arming c)
  = existsb is_arming ms
    && Qgtb (Sim.rawvals c !!! Sim.CHANNEL_THROTTLE) (1 # 10)
  /\ Sim._ready (snd (Sim.arming c)) = true.
Proof.
  cbv zeta.
  pose proof (invoke_all_spec deadband ms (Sim.Controller_ mem)) as (R & _).
  cbv zeta in R. cbn [Sim.Controller_ Sim._ready orb] in R.
  split; [| reflexivity].
  cbn [Sim.arming Sim.Controller_Receiver Sim.Controller_arming fst].
  rewrite R. by destruct (existsb is_arming ms).
Qed.

(** X20.  After every [readRawvals] on a receiver with at least one
    channel, the throttle channel holds [_throttleDemand].  Without the
    springy throttle that is the normalised stick; with it, the stick, after
    the dead band, moves the demand by a tenth of its value and the demand
    is clamped to [-1, 1]. *)
Theorem X20_throttle_channel_is_the_throttle_demand
    (deadband : Q -> Q -> Q) (axes : list Z) (buttons baseline : Z)
    (c : Sim.Controller) :
  (0 < length (Sim.rawvals c))%nat ->
  let c' := Sim.Controller_readRawvals deadband axes buttons baseline c in
  Sim.rawvals c' !!! Sim.CHANNEL_THROTTLE = Sim._throttleDemand c'
  /\ Sim._throttleDemand c'
     = (if Sim._springyThrottle c
        then Filter.constrainAbs
               (Sim._throttleDemand c
                + deadband (throttle_stick axes baseline c) (15 # 100)
                  * (1 # 10)) 1
        else throttle_stick axes baseline c)%Q.
Proof.
  intros Hl.
  pose proof (readRawvals_spec deadband axes buttons baseline c)
    as (_ & _ & _ & _ & _ & R).
  exact (R Hl).
Qed.

Lemma X20_throttle_channel_is_the_throttle_demand_witness :
  let c := Sim.Controller_begin example_gamepad
             (Sim.Controller_ example_memory) in
  let c' := Sim.Controller_readRawvals example_deadband
              [0; -32767; 0; 0; 0; 0] 0 0 c in
  (Sim.rawvals c' !!! Sim.CHANNEL_THROTTLE == - (9 # 10))%Q
  /\ Sim.rawvals c' !!! Sim.CHANNEL_THROTTLE = Sim._throttleDemand c'.
Proof.
  cbv zeta. split; [vm_compute; reflexivity |].
  refine (proj1 (X20_throttle_channel_is_the_throttle_demand example_deadband
                   [0; -32767; 0; 0; 0; 0] 0 0
                   (Sim.Controller_begin example_gamepad
                      (Sim.Controller_ example_memory)) _)).
  cbn. lia.
Defined.

(** X21.  With the springy throttle, the throttle demand never leaves
    [-1, 1]: [begin] sets it to -1 and no sequence of calls takes it
    outside, whatever the sticks and the dead-band filter do. *)
Theorem X21_springy_throttle_demand_stays_within_unit
    (deadband : Q -> Q -> Q) (productInit : Sim.Controller -> Sim.Controller)
    (c : Sim.Controller) (ms : list Sim.method) :
  Sim._springyThrottle (productInit c) = true ->
  (Qabs (Sim._throttleDemand
           (Sim.invoke_all deadband ms (Sim.Controller_begin productInit c)))
   <= 1)%Q.
Proof.
  intros Hs.
  pose proof (invoke_all_spec deadband ms (Sim.Controller_begin productInit c))
    as (_ & _ & R & _).
  apply R; [exact Hs | by cbv].
Qed.

Lemma X21_springy_throttle_demand_stays_within_unit_witness :
  (Qabs (Sim._throttleDemand
           (Sim.invoke_all example_deadband
              [Sim.M_readRawvals [0; 32767; 0; 0; 0; 0]%Z 0%Z 0%Z;
               Sim.M_arming;
               Sim.M_readRawvals [0; 32767; 0; 0; 0; 0]%Z 0%Z 0%Z]
              (Sim.Controller_begin example_gamepad
                 (Sim.Controller_ example_memory))))
   <= 1)%Q.
Proof.
  apply (X21_springy_throttle_demand_stays_within_unit example_deadband
           example_gamepad (Sim.Controller_ example_memory)).
  reflexivity.
Defined.

(** X22.  The three-position aux switch faked with buttons.  The position
    is that of the last mapped button that equals the button byte and is
    kept when none does; from the constructor on it is 0, 1 or 2 after any
    sequence of calls, so [buttonsToAux] is never read out of range; and
    after a [readRawvals] that uses the buttons, the aux channel holds the
    table's value for the position. *)
Theorem X22_aux_switch_position
    (deadband : Q -> Q -> Q) (axes : list Z) (buttons baseline : Z)
    (c : Sim.Controller) (ms : list Sim.method) :
  0 <= Sim._buttonState c <= 2 ->
  Sim._useButtonForAux (Sim.invoke_all deadband ms c) = true ->
  (4 < length (Sim.rawvals (Sim.invoke_all deadband ms c)))%nat ->
  let c1 := Sim.invoke_all deadband ms c in
  let c' := Sim.Controller_readRawvals deadband axes buttons baseline c1 in
  Sim._buttonState c' = aux_position buttons c1
  /\ 0 <= Sim._buttonState c' <= 2
  /\ Sim.rawvals c' !!! 4%nat
     = Sim.buttonsToAux !!! Z.to_nat (Sim._buttonState c')
  /\ (Sim.rawvals c' !!! 4%nat = (- (1 # 10))%Q
      \/ Sim.rawvals c' !!! 4%nat = 0%Q
      \/ Sim.rawvals c' !!! 4%nat = (8 # 10)%Q).
Proof.
  intros Hb Haux Hl. cbv zeta.
  pose proof (invoke_all_spec deadband ms c) as (_ & _ & _ & Hb1).
  specialize (Hb1 Hb).
  set (c1 := Sim.invoke_all deadband ms c) in *.
  pose proof (readRawvals_spec deadband axes buttons baseline c1)
    as (_ & _ & _ & R4 & R5 & _).
  rewrite Haux in R4. specialize (R5 Hl Haux).
  assert (Hr : 0 <= Sim._buttonState
                      (Sim.Controller_readRawvals deadband axes buttons
                                                  baseline c1) <= 2).
  { rewrite R4. unfold aux_position.
    repeat match goal with
           | |- context [if ?b then _ else _] => destruct b
           end; lia. }
  split; [exact R4 |]. split; [exact Hr |]. split; [exact R5 |].
  rewrite R5.
  assert (Hc : Sim._buttonState
                 (Sim.Controller_readRawvals deadband axes buttons baseline
                                             c1) = 0
               \/ Sim._buttonState
                    (Sim.Controller_readRawvals deadband axes buttons
                                                baseline c1) = 1
               \/ Sim._buttonState
                    (Sim.Controller_readRawvals deadband axes buttons
                                                baseline c1) = 2) by lia.
  destruct Hc as [-> | [-> | ->]]; [left | right; left | right; right];
    reflexivity.
Qed.

Lemma X22_aux_switch_position_witness :
  let c := Sim.Controller_begin example_gamepad
             (Sim.Controller_ example_memory) in
  let c' := Sim.Controller_readRawvals example_deadband
              [0; 0; 0; 0; 0; 0] 4 0
              (Sim.invoke_all example_deadband [Sim.M_arming] c) in
  Sim._buttonState c' = 2 /\ Sim.rawvals c' !!! 4%nat = (8 # 10)%Q.
Proof.
  cbv zeta.
  destruct (X22_aux_switch_position example_deadband [0; 0; 0; 0; 0; 0] 4 0
              (Sim.Controller_begin example_gamepad
                 (Sim.Controller_ example_memory))
              [Sim.M_arming])
    as (H1 & _ & H3 & _).
  - cbn. lia.
  - reflexivity.
  - cbn. lia.
  - split; [rewrite H1; reflexivity | rewrite H3, H1; reflexivity].
Defined.
